(** * WDIO to Playwright test migration: a shallow embedding

    The development follows the repository's source files:

    - [Text], [Regex]: JavaScript strings and the regular-expression
      operations the sources use ([exec], [match], [replace]);
    - [Tags]       : [src/utils/tags.js] with [TAG_PATTERNS];
    - [Selectors]  : [src/transformers/selectors.js] with [SELECTOR_PATTERNS];
    - [Mappings]   : [COMMAND_MAPPINGS] of [src/constants/mappings.js];
    - [Ast], [Babel]: the syntax tree the Babel libraries hand to the code;
    - [Parser]     : [src/utils/parser.js];
    - [Migration]  : [src/transformers/migration.js];
    - [Pom]        : [src/transformers/pom.js];
    - [Handlers]   : [src/handlers/toolHandlers.js], the target file of a
                     migration and the registration of custom commands.

    A JavaScript string is modelled as a [string]: a sequence of code units
    in the range 0..255.  [\w], [\s], line terminators and case mapping are
    the JavaScript ones restricted to that range; case mapping is modelled on
    the ASCII letters only. *)

From Stdlib Require Import Ascii String List Bool Arith Lia.
From Stdlib Require SpecFloat.
From stdpp Require Import gmap strings.
Import ListNotations.
Open Scope string_scope.
Open Scope list_scope.
Open Scope stdpp_scope.

(* ================================================================== *)
(** ** Text: characters and strings *)
(* ================================================================== *)

Module Text.

Abbreviation chars := (list ascii).

Definition code (c : ascii) : nat := nat_of_ascii c.

Definition in_range (lo hi : nat) (c : ascii) : bool :=
  ((lo <=? code c) && (code c <=? hi))%nat.

Definition is_upper (c : ascii) : bool := in_range 65 90 c.
Definition is_lower (c : ascii) : bool := in_range 97 122 c.
Definition is_digit (c : ascii) : bool := in_range 48 57 c.

(** [\w] is [[A-Za-z0-9_]]. *)
Definition is_word (c : ascii) : bool :=
  is_upper c || is_lower c || is_digit c || Ascii.eqb c "_".

(** [[\w-]]. *)
Definition is_word_or_dash (c : ascii) : bool :=
  is_word c || Ascii.eqb c "-".

(** [\s] (and what [trim] removes): TAB, LF, VT, FF, CR, SPACE, NBSP. *)
Definition is_space (c : ascii) : bool :=
  in_range 9 13 c || (code c =? 32)%nat || (code c =? 160)%nat.

(** The characters [.] does not match: LF and CR. *)
Definition is_line_terminator (c : ascii) : bool :=
  (code c =? 10)%nat || (code c =? 13)%nat.

Definition is_quote (c : ascii) : bool :=
  Ascii.eqb c "'" || Ascii.eqb c "034".

Definition toLowerChar (c : ascii) : ascii :=
  if is_upper c then ascii_of_nat (code c + 32) else c.

Definition toUpperChar (c : ascii) : ascii :=
  if is_lower c then ascii_of_nat (code c - 32) else c.

(** The double-quote character, as a string. *)
Definition dq : string := String "034"%char EmptyString.

Definition chars_of (s : string) : chars := list_ascii_of_string s.
Definition str_of (l : chars) : string := string_of_list_ascii l.

(** The longest prefix of [s] whose characters satisfy [f], and the rest. *)
Fixpoint span (f : ascii -> bool) (s : chars) : chars * chars :=
  match s with
  | [] => ([], [])
  | c :: t => if f c then let (a, b) := span f t in (c :: a, b)
              else ([], s)
  end.

(** [strip_prefix p s] is what follows [p] in [s] when [s] starts with [p]. *)
Fixpoint strip_prefix (p s : chars) : option chars :=
  match p, s with
  | [], _ => Some s
  | a :: p', b :: s' => if Ascii.eqb a b then strip_prefix p' s' else None
  | _ :: _, [] => None
  end.

Definition starts_with (p s : chars) : bool :=
  match strip_prefix p s with Some _ => true | None => false end.

(** [String.prototype.startsWith] *)
Definition startsWith (s p : string) : bool :=
  starts_with (chars_of p) (chars_of s).

Fixpoint includes_chars (p s : chars) : bool :=
  starts_with p s ||
  match s with
  | [] => false
  | _ :: t => includes_chars p t
  end.

(** [String.prototype.includes] *)
Definition includes (s p : string) : bool :=
  includes_chars (chars_of p) (chars_of s).

(** [String.prototype.toLowerCase] *)
Definition toLowerCase (s : string) : string :=
  str_of (map toLowerChar (chars_of s)).

Definition trim_start (s : chars) : chars := snd (span is_space s).

(** [String.prototype.trim] *)
Definition trim_chars (s : chars) : chars :=
  rev (trim_start (rev (trim_start s))).

(** [Array.prototype.join] *)
Fixpoint join (sep : string) (l : list string) : string :=
  match l with
  | [] => EmptyString
  | [x] => x
  | x :: t => x +:+ sep +:+ join sep t
  end.

(** [String.prototype.split] with a one-character separator. *)
Fixpoint split_chars (sep : ascii) (cur : chars) (s : chars) : list chars :=
  match s with
  | [] => [rev cur]
  | c :: t => if Ascii.eqb c sep then rev cur :: split_chars sep [] t
              else split_chars sep (c :: cur) t
  end.

(** Decimal rendering of a number, as template literals do. *)
Definition digit_char (n : nat) : ascii := ascii_of_nat (48 + n).

Fixpoint decimal_fuel (fuel n : nat) (acc : chars) : chars :=
  match fuel with
  | O => acc
  | S f =>
      let acc' := digit_char (n mod 10) :: acc in
      if (n / 10 =? 0)%nat then acc' else decimal_fuel f (n / 10) acc'
  end.

Definition decimal (n : nat) : string := str_of (decimal_fuel (S n) n []).

End Text.

(* ================================================================== *)
(** ** Regex: the regular-expression operations used by the sources *)
(* ================================================================== *)

Module Regex.
Import Text.

(** A pattern tried at the start of a text: its first capture group and the
    length of the match.  Every pattern below matches at least one
    character. *)
Definition pattern := chars -> option (chars * nat).

Inductive piece :=
| Kept (c : ascii)
| Matched (capture : chars).

(** The successive matches of a global ([/g]) pattern, left to right and
    not overlapping, with the characters between them: the iteration that
    both the [exec] loop and [replace] perform.  [skip] counts the
    characters of the current match still to be passed. *)
Fixpoint scan (p : pattern) (skip : nat) (s : chars) : list piece :=
  match s with
  | [] => []
  | c :: t =>
      match skip with
      | S k => scan p k t
      | O =>
          match p s with
          | Some (cap, len) => Matched cap :: scan p (pred len) t
          | None => Kept c :: scan p 0 t
          end
      end
  end.

Definition capture_of (x : piece) : list chars :=
  match x with Kept _ => [] | Matched cap => [cap] end.

(** The first capture group of every match: [while ((m = re.exec(s)))]. *)
Definition exec_all (p : pattern) (s : chars) : list chars :=
  flat_map capture_of (scan p 0 s).

(** [s.replace(re, f)] for a global pattern; [f] receives the first
    capture group. *)
Definition replace_all (p : pattern) (f : chars -> chars) (s : chars)
  : chars :=
  flat_map (fun x => match x with Kept c => [c] | Matched cap => f cap end)
           (scan p 0 s).

(** [s.replace(re, '')] for a global pattern. *)
Definition remove_all (p : pattern) (s : chars) : chars :=
  replace_all p (fun _ => []) s.

(** [s.match(re)] for a pattern without [/g]: the leftmost match. *)
Fixpoint exec (p : pattern) (s : chars) : option chars :=
  match p s with
  | Some (cap, _) => Some cap
  | None =>
      match s with
      | [] => None
      | _ :: t => exec p t
      end
  end.

(** [\s+] *)
Definition spaces : pattern := fun s =>
  match span is_space s with
  | ([], _) => None
  | (run, _) => Some ([], length run)
  end.

End Regex.

(* ================================================================== *)
(** ** Tags: src/utils/tags.js *)
(* ================================================================== *)

Module Tags.
Import Text Regex.

(** [[A-Z0-9_-]] *)
Definition is_bracket_tag_char (c : ascii) : bool :=
  is_upper c || is_digit c || Ascii.eqb c "_" || Ascii.eqb c "-".

(** [/\[([A-Z0-9_-]+)\]/g] *)
Definition bracketed : pattern := fun s =>
  match s with
  | "["%char :: rest =>
      match span is_bracket_tag_char rest with
      | (c :: run, "]"%char :: _) => Some (c :: run, length (c :: run) + 2)
      | _ => None
      end
  | _ => None
  end.

(** [/@(\w+)/g] and [/#(\w+)/g] *)
Definition prefixed (marker : ascii) : pattern := fun s =>
  match s with
  | m :: rest =>
      if Ascii.eqb m marker then
        match span is_word rest with
        | (c :: run, _) => Some (c :: run, S (length (c :: run)))
        | _ => None
        end
      else None
  | [] => None
  end.

Definition TAG_PATTERNS : list pattern :=
  [bracketed; prefixed "@"; prefixed "#"].

(** A JavaScript [Set] of strings: insertion order, no duplicates. *)
Definition Set_has (x : string) (tags : list string) : bool :=
  existsb (String.eqb x) tags.

Definition Set_add (x : string) (tags : list string) : list string :=
  if Set_has x tags then tags else tags ++ [x].

Definition extractTagsFromString (str : string) : list string :=
  fold_left
    (fun tags pattern =>
       fold_left
         (fun tags m1 => Set_add (toLowerCase (str_of m1)) tags)
         (exec_all pattern (chars_of str)) tags)
    TAG_PATTERNS [].

Definition removeTagsFromString (str : string) : string :=
  let result :=
    fold_left (fun result pattern => remove_all pattern result)
              TAG_PATTERNS (chars_of str) in
  str_of (replace_all spaces (fun _ => [" "%char]) (trim_chars result)).

End Tags.

(* ================================================================== *)
(** ** Selectors: src/transformers/selectors.js *)
(* ================================================================== *)

Module Selectors.
Import Text Regex.

(** The attribute patterns of [SELECTOR_PATTERNS]: an opening bracket,
    the attribute name, an equals sign, a quote of either kind, one or more
    characters that are not quotes (the capture), a quote and a closing
    bracket. *)
Definition attribute (name : string) : pattern := fun s =>
  match strip_prefix (chars_of ("[" +:+ name +:+ "=")) s with
  | Some (q :: rest) =>
      if is_quote q then
        match span (fun c => negb (is_quote c)) rest with
        | (c :: run, _ :: "]"%char :: _) =>
            Some (c :: run, String.length name + length (c :: run) + 5)
        | _ => None
        end
      else None
  | _ => None
  end.

Module SELECTOR_PATTERNS.
Definition dataTestId : pattern := attribute "data-test-id".
Definition ariaLabel : pattern := attribute "aria-label".
Definition role : pattern := attribute "role".
Definition placeholder : pattern := attribute "placeholder".
End SELECTOR_PATTERNS.

(** [/\[.*\]$/] tried at the start of [s]: an opening bracket, characters
    other than line terminators, and a closing bracket that ends the
    text. *)
Definition bracket_to_end (s : chars) : bool :=
  match s with
  | "["%char :: r =>
      match rev r with
      | "]"%char :: inner =>
          forallb (fun c => negb (is_line_terminator c)) inner
      | _ => false
      end
  | _ => false
  end.

(** [/^(button|a)\[.*\]$/] *)
Definition tag_with_attributes (s : chars) : bool :=
  existsb (fun tag => match strip_prefix (chars_of tag) s with
                      | Some rest => bracket_to_end rest
                      | None => false
                      end)
          ["button"; "a"].

(** [/^(button|a)$/] *)
Definition bare_tag (s : chars) : bool :=
  existsb (fun tag => match strip_prefix (chars_of tag) s with
                      | Some [] => true
                      | _ => false
                      end)
          ["button"; "a"].

Record SelectorTransform := {
  code : string;
  type : string;
  original : string;
  note : option string;
  suggestion : option string;
}.

Definition transformSelector (selector : string) : SelectorTransform :=
  match exec SELECTOR_PATTERNS.dataTestId (chars_of selector) with
  | Some testIdMatch =>
      {| code := "page.getByTestId('" +:+ str_of testIdMatch +:+ "')";
         type := "testId"; original := selector;
         note := None; suggestion := None |}
  | None =>
  match exec SELECTOR_PATTERNS.ariaLabel (chars_of selector) with
  | Some ariaMatch =>
      {| code := "page.getByLabel('" +:+ str_of ariaMatch +:+ "')";
         type := "label"; original := selector;
         note := None; suggestion := None |}
  | None =>
  match exec SELECTOR_PATTERNS.role (chars_of selector) with
  | Some roleMatch =>
      {| code := "page.getByRole('" +:+ str_of roleMatch +:+ "')";
         type := "role"; original := selector;
         note := None; suggestion := None |}
  | None =>
  match exec SELECTOR_PATTERNS.placeholder (chars_of selector) with
  | Some placeholderMatch =>
      {| code := "page.getByPlaceholder('" +:+ str_of placeholderMatch
                 +:+ "')";
         type := "placeholder"; original := selector;
         note := None; suggestion := None |}
  | None =>
  if tag_with_attributes (chars_of selector) || bare_tag (chars_of selector)
  then
      {| code := "page.getByRole('"
                 +:+ (if startsWith selector "button" then "button"
                      else "link")
                 +:+ "')";
         type := "role"; original := selector;
         note := Some ("Consider adding { name: " +:+ dq +:+ "..." +:+ dq
                       +:+ " } for specificity");
         suggestion := None |}
  else
      {| code := "page.locator('" +:+ selector +:+ "')";
         type := "css"; original := selector;
         note := None;
         suggestion :=
           Some "Consider using data-test-id for more reliable selectors" |}
  end end end end.

End Selectors.

(* ================================================================== *)
(** ** Mappings: COMMAND_MAPPINGS and its mutator *)
(* ================================================================== *)

Module Mappings.
Import Text.

Record CommandMapping := {
  method : string;
  options : option string;
  description : string;
}.

Definition entry (name method : string) (description : string)
  : string * CommandMapping :=
  (name, {| method := method; options := None; description := description |}).

Definition entry_with (name method options : string) (description : string)
  : string * CommandMapping :=
  (name, {| method := method; options := Some options;
            description := description |}).

Definition state_visible : string :=
  "{ state: " +:+ Text.dq +:+ "visible" +:+ Text.dq +:+ " }".

Definition state_attached : string :=
  "{ state: " +:+ Text.dq +:+ "attached" +:+ Text.dq +:+ " }".

Definition path_option : string :=
  "{ path: " +:+ Text.dq +:+ "..." +:+ Text.dq +:+ " }".

Definition page_on_dialog : string :=
  "page.on(" +:+ Text.dq +:+ "dialog" +:+ Text.dq +:+ ")".

(** The object literal of [src/constants/mappings.js]. *)
Definition COMMAND_MAPPINGS : gmap string CommandMapping :=
  list_to_map [
    entry "setValue" "fill" "Clears and fills input";
    entry "addValue" "pressSequentially" "Types without clearing";
    entry "clearValue" "clear" "Clears input field";
    entry "getValue" "inputValue" "Gets input value";
    entry "getText" "textContent" "Gets element text";
    entry "getHTML" "innerHTML" "Gets inner HTML";
    entry "getAttribute" "getAttribute" "Gets attribute value";
    entry "click" "click" "Clicks element";
    entry "doubleClick" "dblclick" "Double clicks element";
    entry "moveTo" "hover" "Hovers over element";
    entry "scrollIntoView" "scrollIntoViewIfNeeded" "Scrolls element into view";
    entry "isDisplayed" "isVisible" "Checks visibility";
    entry "isEnabled" "isEnabled" "Checks if enabled";
    entry "isSelected" "isChecked" "Checks if selected/checked";
    entry "isExisting" "count" "Checks existence (count > 0)";
    entry_with "waitForDisplayed" "waitFor" state_visible
               "Waits for visibility";
    entry_with "waitForClickable" "waitFor" state_visible
               "Waits for clickable state";
    entry_with "waitForExist" "waitFor" state_attached
               "Waits for existence";
    entry_with "waitForEnabled" "waitFor" state_visible
               "Waits for enabled state";
    entry "selectByVisibleText" "selectOption"
          "Selects dropdown option by text";
    entry "selectByIndex" "selectOption" "Selects dropdown option by index";
    entry "selectByAttribute" "selectOption"
          "Selects dropdown option by attribute";
    entry "browser.url" "page.goto" "Navigates to URL";
    entry "browser.getUrl" "page.url" "Gets current URL";
    entry "browser.getTitle" "page.title" "Gets page title";
    entry "browser.pause" "page.waitForTimeout" "Pauses execution";
    entry "browser.debug" "page.pause" "Opens Playwright inspector";
    entry "browser.execute" "page.evaluate" "Executes JavaScript";
    entry "browser.executeAsync" "page.evaluate" "Executes async JavaScript";
    entry "browser.keys" "page.keyboard.press" "Presses keyboard keys";
    entry "browser.refresh" "page.reload" "Reloads page";
    entry "browser.back" "page.goBack" "Navigates back";
    entry "browser.forward" "page.goForward" "Navigates forward";
    entry "browser.deleteCookies" "context.clearCookies" "Clears cookies";
    entry "browser.getCookies" "context.cookies" "Gets cookies";
    entry "browser.setCookies" "context.addCookies" "Sets cookies";
    entry "browser.newWindow" "context.newPage" "Opens new window/tab";
    entry "browser.switchWindow" "page.bringToFront" "Switches to window";
    entry "browser.closeWindow" "page.close" "Closes window";
    entry "browser.getWindowHandles" "context.pages" "Gets all page handles";
    entry "browser.getWindowHandle" "page" "Gets current page handle";
    entry "browser.switchToFrame" "page.frameLocator" "Switches to frame";
    entry "browser.switchToParentFrame" "page.mainFrame"
          "Switches to parent frame";
    entry "browser.acceptAlert" page_on_dialog "Accepts dialog";
    entry "browser.dismissAlert" page_on_dialog "Dismisses dialog";
    entry "browser.getAlertText" "dialog.message" "Gets dialog text";
    entry "browser.sendAlertText" "dialog.accept" "Sends text to dialog";
    entry "browser.takeScreenshot" "page.screenshot" "Takes screenshot";
    entry_with "browser.saveScreenshot" "page.screenshot" path_option
               "Saves screenshot";
    entry "browser.uploadFile" "locator.setInputFiles" "Uploads file"
  ].

(** The property names every object literal inherits from
    [Object.prototype]; each holds a function or an object, so a lookup of
    one of them is truthy. *)
Definition Object_prototype_names : list string :=
  ["constructor"; "__defineGetter__"; "__defineSetter__"; "hasOwnProperty";
   "__lookupGetter__"; "__lookupSetter__"; "isPrototypeOf";
   "propertyIsEnumerable"; "toString"; "valueOf"; "__proto__";
   "toLocaleString"].

Definition inherited (name : string) : bool :=
  existsb (String.eqb name) Object_prototype_names.

(** The value of [COMMAND_MAPPINGS[name]]. *)
Inductive property :=
| Own (mapping : CommandMapping)
| Inherited
| Undefined.

Definition get (table : gmap string CommandMapping) (name : string)
  : property :=
  match table !! name with
  | Some mapping => Own mapping
  | None => if inherited name then Inherited else Undefined
  end.

End Mappings.

(* ================================================================== *)
(** ** Ast: the syntax tree of @babel/types *)
(* ================================================================== *)

Module Ast.

#[local] Set Warnings "-register-all".

(** The node kinds the sources inspect or build, with the fields they read,
    children in the order @babel/traverse visits them.  [Other] stands for
    every other kind of node.  [Missing] is an absent optional child (the
    [init] of a declarator, an [undefined] slot of an argument list).
    [UnnamedIdentifier] is an [Identifier] node whose [name] field holds
    [undefined].  Source locations are left out. *)
Inductive node :=
| Identifier (name : string)
| UnnamedIdentifier
| StringLiteral (value : string)
| CallExpression (callee : node) (arguments : list node)
| NewExpression (callee : node) (arguments : list node)
| MemberExpression (object property : node) (computed : bool)
| ArrowFunctionExpression (params : list node) (body : node) (async : bool)
| FunctionExpression (id : node) (params : list node) (body : node)
                     (async : bool)
| AwaitExpression (argument : node)
| ObjectExpression (properties : list node)
| ObjectProperty (key value : node) (computed shorthand : bool)
| ArrayExpression (elements : list node)
| ObjectPattern (properties : list node)
| ExpressionStatement (expression : node)
| BlockStatement (body : list node)
| VariableDeclaration (kind : string) (declarations : list node)
| VariableDeclarator (id init : node)
| ImportDeclaration (specifiers : list node) (source : string)
| ImportSpecifier (local imported : node)
| ImportDefaultSpecifier (local : node)
| ImportNamespaceSpecifier (local : node)
| Other (kind : string) (children : list node)
| Missing.

(** A parsed file: the [body] of its [Program]. *)
Record File := { program_body : list node }.

Definition isIdentifier (n : node) : bool :=
  match n with Identifier _ | UnnamedIdentifier => true | _ => false end.

(** [t.isIdentifier(n) && n.name === name] *)
Definition isIdentifierNamed (name : string) (n : node) : bool :=
  match n with Identifier x => String.eqb x name | _ => false end.

(** [n?.name] for a node [n]: among the modelled kinds only identifiers
    have a [name] field. *)
Definition name_of (n : node) : option string :=
  match n with Identifier x => Some x | _ => None end.

(** Every node of a tree, in the order a traversal enters them. *)
Fixpoint nodes (n : node) : list node :=
  n ::
  match n with
  | Identifier _ | UnnamedIdentifier | StringLiteral _ | Missing => []
  | CallExpression callee arguments
  | NewExpression callee arguments =>
      nodes callee ++ flat_map nodes arguments
  | MemberExpression object property _ => nodes object ++ nodes property
  | ArrowFunctionExpression params body _ =>
      flat_map nodes params ++ nodes body
  | FunctionExpression id params body _ =>
      nodes id ++ flat_map nodes params ++ nodes body
  | AwaitExpression argument => nodes argument
  | ObjectExpression l | ArrayExpression l | ObjectPattern l
  | BlockStatement l | VariableDeclaration _ l | Other _ l =>
      flat_map nodes l
  | ObjectProperty key value _ _ => nodes key ++ nodes value
  | ExpressionStatement expression => nodes expression
  | VariableDeclarator id init => nodes id ++ nodes init
  | ImportDeclaration specifiers source =>
      flat_map nodes specifiers ++ [StringLiteral source]
  | ImportSpecifier local imported => nodes imported ++ nodes local
  | ImportDefaultSpecifier local | ImportNamespaceSpecifier local =>
      nodes local
  end.

Definition file_nodes (ast : File) : list node :=
  flat_map nodes (program_body ast).

End Ast.

(* ================================================================== *)
(** ** Babel: what the code asks of the Babel libraries *)
(* ================================================================== *)

Module Babel.
Import Text Ast.

Inductive exn :=
| SyntaxError
| TypeError.

(** The outcome of a computation that may throw.  [Unmodelled] marks an
    input on which a library function is not described here; [OutOfFuel]
    a traversal that was given too little fuel. *)
Inductive outcome (A : Type) :=
| Returns (a : A)
| Throws (e : exn)
| Unmodelled
| OutOfFuel.
Arguments Returns {A} a.
Arguments Throws {A} e.
Arguments Unmodelled {A}.
Arguments OutOfFuel {A}.

Definition bind {A B} (x : outcome A) (f : A -> outcome B) : outcome B :=
  match x with
  | Returns a => f a
  | Throws e => Throws e
  | Unmodelled => Unmodelled
  | OutOfFuel => OutOfFuel
  end.

Notation "'let*' p ':=' c1 'in' c2" :=
  (bind c1 (fun p => c2))
    (at level 10, p pattern, c1 at level 100, c2 at level 200).

(** *** parser.parseExpression

    Described on the expressions the selector templates can yield: a
    member of an identifier called with one string literal that has no
    escape sequence, as in [page.locator('...')].  A string literal cannot
    hold a line terminator and ends at the first quote of its kind; a name
    or a second literal right after a complete argument is a syntax error.
    Any other input is [Unmodelled]. *)
Inductive token :=
| TName (name : string)
| TString (value : string)
| TDot
| TParenL
| TParenR
| TEof
| TUnterminated
| TOther.

Definition is_ident_start (c : ascii) : bool :=
  is_upper c || is_lower c || Ascii.eqb c "_" || Ascii.eqb c "$".

Definition is_ident_part (c : ascii) : bool :=
  is_ident_start c || is_digit c.

(** The body of a string literal opened by [quote]. *)
Fixpoint read_string (quote : ascii) (acc : chars) (s : chars)
  : token * chars :=
  match s with
  | [] => (TUnterminated, [])
  | c :: t =>
      if Ascii.eqb c quote then (TString (str_of (rev acc)), t)
      else if is_line_terminator c then (TUnterminated, s)
      else if Ascii.eqb c "\" then (TOther, s)
      else read_string quote (c :: acc) t
  end.

Definition next_token (s : chars) : token * chars :=
  match trim_start s with
  | [] => (TEof, [])
  | c :: t =>
      if is_ident_start c then
        let (run, rest) := span is_ident_part (c :: t) in
        match rest with
        | d :: _ =>
            if (128 <=? code d)%nat || Ascii.eqb d "\" then (TOther, rest)
            else (TName (str_of run), rest)
        | [] => (TName (str_of run), rest)
        end
      else if Ascii.eqb c "'" || Ascii.eqb c "034" then read_string c [] t
      else if Ascii.eqb c "(" then (TParenL, t)
      else if Ascii.eqb c ")" then (TParenR, t)
      else if Ascii.eqb c "." then
        match t with
        | d :: _ => if is_digit d || Ascii.eqb d "." then (TOther, t)
                    else (TDot, t)
        | [] => (TDot, t)
        end
      else (TOther, t)
  end.

(** Words that are not plain identifier references. *)
Definition reserved_words : list string :=
  ["break"; "case"; "catch"; "class"; "const"; "continue"; "debugger";
   "default"; "delete"; "do"; "else"; "enum"; "export"; "extends"; "false";
   "finally"; "for"; "function"; "if"; "import"; "in"; "instanceof"; "new";
   "null"; "return"; "super"; "switch"; "this"; "throw"; "true"; "try";
   "typeof"; "var"; "void"; "while"; "with"; "yield"; "let"; "static";
   "async"; "await"; "implements"; "interface"; "package"; "private";
   "protected"; "public"; "of"].

Definition is_reserved (name : string) : bool :=
  existsb (String.eqb name) reserved_words.

(** After the first argument, a string literal. *)
Definition parse_after_argument (object method value : string) (s : chars)
  : outcome node :=
  match next_token s with
  | (TParenR, s') =>
      match next_token s' with
      | (TEof, _) =>
          Returns (CallExpression
                     (MemberExpression (Identifier object)
                                       (Identifier method) false)
                     [StringLiteral value])
      | (TUnterminated, _) => Throws SyntaxError
      | _ => Unmodelled
      end
  | (TName name, _) =>
      if String.eqb name "in" || String.eqb name "instanceof"
      then Unmodelled else Throws SyntaxError
  | (TString _, _) => Throws SyntaxError
  | (TUnterminated, _) => Throws SyntaxError
  | _ => Unmodelled
  end.

Definition parseExpression (code : string) : outcome node :=
  match next_token (chars_of code) with
  | (TName object, s1) =>
      if is_reserved object then Unmodelled else
      match next_token s1 with
      | (TDot, s2) =>
          match next_token s2 with
          | (TName method, s3) =>
              match next_token s3 with
              | (TParenL, s4) =>
                  match next_token s4 with
                  | (TString value, s5) =>
                      parse_after_argument object method value s5
                  | (TUnterminated, _) => Throws SyntaxError
                  | _ => Unmodelled
                  end
              | _ => Unmodelled
              end
          | _ => Unmodelled
          end
      | _ => Unmodelled
      end
  | _ => Unmodelled
  end.

End Babel.

(* ================================================================== *)
(** ** Parser: src/utils/parser.js *)
(* ================================================================== *)

Module Parser.
Import Text Ast Babel.

Record FrameworkVerdict := {
  isWdio : bool;
  isPlaywright : bool;
  isMixed : bool;
  isUnknown : bool;
}.

(** [require(...)] called with a string literal first: the literal. *)
Definition required_source (init : node) : option string :=
  match init with
  | CallExpression (Identifier "require") (StringLiteral value :: _) =>
      Some value
  | _ => None
  end.

(** What one node contributes to [hasWdio]. *)
Definition wdio_marker (n : node) : bool :=
  match n with
  | CallExpression callee _ =>
      isIdentifierNamed "$" callee || isIdentifierNamed "$$" callee
  | ImportDeclaration _ source =>
      includes source "webdriverio" || includes source "wdio"
  | VariableDeclarator _ init =>
      match required_source init with
      | Some value => includes value "chai" || includes value "wdio"
      | None => false
      end
  | _ => false
  end.

(** What one node contributes to [hasPlaywright]. *)
Definition playwright_marker (n : node) : bool :=
  match n with
  | CallExpression (MemberExpression object _ _) _ =>
      isIdentifierNamed "page" object
  | ImportDeclaration _ source => String.eqb source "@playwright/test"
  | VariableDeclarator _ init =>
      match required_source init with
      | Some value => String.eqb value "@playwright/test"
      | None => false
      end
  | _ => false
  end.

(** The verdict the three visitors of [detectFramework] reach once the
    traversal runs. *)
Definition verdict (ast : File) : FrameworkVerdict :=
  let hasWdio := existsb wdio_marker (file_nodes ast) in
  let hasPlaywright := existsb playwright_marker (file_nodes ast) in
  let hasMixedContent := hasWdio && hasPlaywright in
  {| isWdio := hasWdio && negb hasPlaywright;
     isPlaywright := hasPlaywright && negb hasWdio;
     isMixed := hasMixedContent;
     isUnknown := negb hasWdio && negb hasPlaywright |}.

Section detectFramework.
(** [traverse.default] builds the scopes of the tree before it visits a
    node, and throws a [TypeError] when a name is declared twice where the
    language forbids it; [parseCode] recovers from that error, so such a
    tree reaches the traversal.  [crawl] tells whether the scopes of a
    tree can be built; like the parser, it is taken as given. *)
Variable crawl : File -> bool.

Definition detectFramework (ast : File) : outcome FrameworkVerdict :=
  if crawl ast then Returns (verdict ast) else Throws TypeError.

End detectFramework.

Definition hookNames : list string :=
  ["before"; "after"; "beforeEach"; "afterEach"; "beforeAll"; "afterAll"].

Definition is_hook_name (name : option string) : bool :=
  match name with
  | Some x => existsb (String.eqb x) hookNames
  | None => false
  end.

(** The [hooks] collected by [extractAstInfo]: the [type] of each entry. *)
Definition hook_of (n : node) : list string :=
  match n with
  | CallExpression (Identifier name) _ =>
      if is_hook_name (Some name) then [name] else []
  | CallExpression (MemberExpression object property _) _ =>
      if isIdentifierNamed "test" object && is_hook_name (name_of property)
      then match name_of property with Some x => [x] | None => [] end
      else []
  | _ => []
  end.

Definition extracted_hooks (ast : File) : list string :=
  flat_map hook_of (file_nodes ast).

(** The [selectors] collected by [extractAstInfo]: [type], [selector]. *)
Definition selector_of (n : node) : list (string * string) :=
  match n with
  | CallExpression (Identifier name) (StringLiteral value :: _) =>
      if String.eqb name "$" then [("single", value)]
      else if String.eqb name "$$" then [("multiple", value)]
      else []
  | _ => []
  end.

Definition extracted_selectors (ast : File) : list (string * string) :=
  flat_map selector_of (file_nodes ast).

End Parser.

(* ================================================================== *)
(** ** Migration: src/transformers/migration.js *)
(* ================================================================== *)

Module Migration.
Import Text Regex Tags Selectors Mappings Ast Babel Parser.

(** The variables the visitors close over. *)
Record state := {
  changes : list string;
  migratedTags : list string;
  hasPlaywrightImport : bool;
}.

Definition log (change : string) (st : state) : state :=
  {| changes := changes st ++ [change];
     migratedTags := migratedTags st;
     hasPlaywrightImport := hasPlaywrightImport st |}.

Definition test_and_expect : list node :=
  [ImportSpecifier (Identifier "test") (Identifier "test");
   ImportSpecifier (Identifier "expect") (Identifier "expect")].

Definition playwright_import : node :=
  ImportDeclaration test_and_expect "@playwright/test".

(** [{ page }] *)
Definition page_fixture : node :=
  ObjectPattern
    [ObjectProperty (Identifier "page") (Identifier "page") false true].

(** A function expression that takes no parameter gets [{ page }]. *)
Definition with_page_fixture (callback : node) : node :=
  match callback with
  | ArrowFunctionExpression [] body async =>
      ArrowFunctionExpression [page_fixture] body async
  | FunctionExpression id [] body async =>
      FunctionExpression id [page_fixture] body async
  | _ => callback
  end.

Fixpoint update_at (i : nat) (f : node -> node) (l : list node)
  : list node :=
  match l, i with
  | [], _ => []
  | x :: t, O => f x :: t
  | x :: t, S j => x :: update_at j f t
  end.

(** *** The ImportDeclaration visitor *)
Definition visitImportDeclaration (specifiers : list node) (source : string)
                                  (st : state)
  : list node * string * state :=
  if String.eqb source "chai" || includes source "chai" then
    (test_and_expect, "@playwright/test",
     log "Replaced chai import with @playwright/test"
         {| changes := changes st; migratedTags := migratedTags st;
            hasPlaywrightImport := true |})
  else (specifiers, source, st).

(** *** The VariableDeclaration visitor *)
Definition is_chai_require (decl : node) : bool :=
  match decl with
  | VariableDeclarator _ init =>
      match required_source init with
      | Some value => String.eqb value "chai" || includes value "chai"
      | None => false
      end
  | _ => false
  end.

(** [declarations.forEach] with [splice(index, 1)] inside: an element that
    is removed shifts its successor into the index just visited, so the
    successor is passed over.  The result tells, for each declarator of
    the original list, whether it stays. *)
Fixpoint forEach_splice (passed_over : bool) (declarations : list node)
  : list bool :=
  match declarations with
  | [] => []
  | decl :: rest =>
      if passed_over then true :: forEach_splice false rest
      else if is_chai_require decl then false :: forEach_splice true rest
      else true :: forEach_splice false rest
  end.

Definition removed (stays : list bool) : nat :=
  length (List.filter negb stays).

Fixpoint log_times (n : nat) (change : string) (st : state) : state :=
  match n with
  | O => st
  | S k => log_times k change (log change st)
  end.

(** The state after the visitor, and which declarators stay. *)
Definition visitVariableDeclaration (declarations : list node) (st : state)
  : list bool * state :=
  let stays := forEach_splice false declarations in
  match removed stays with
  | O => (stays, st)
  | S k =>
      (stays,
       log_times (S k) "Replaced chai require with @playwright/test import"
         {| changes := changes st; migratedTags := migratedTags st;
            hasPlaywrightImport := true |})
  end.

(** *** The CallExpression visitor *)

(** The node under the path while the visitor runs; [Replaced] after
    [path.replaceWith]. *)
Inductive visited :=
| Call (callee : node) (arguments : list node)
| Replaced (replacement : node).

Definition arguments_of (v : visited) : list node :=
  match v with
  | Call _ arguments => arguments
  | Replaced (CallExpression _ arguments) => arguments
  | Replaced _ => []
  end.

Definition with_callee (callee : node) (v : visited) : visited :=
  match v with
  | Call _ arguments => Call callee arguments
  | Replaced (CallExpression _ arguments) =>
      Replaced (CallExpression callee arguments)
  | Replaced n => Replaced n
  end.

Definition with_arguments (arguments : list node) (v : visited) : visited :=
  match v with
  | Call callee _ => Call callee arguments
  | Replaced (CallExpression callee _) =>
      Replaced (CallExpression callee arguments)
  | Replaced n => Replaced n
  end.

(** Transform describe to test.describe *)
Definition describe_rule (callee : node) (v : visited) (st : state)
  : visited * state :=
  if isIdentifierNamed "describe" callee then
    (with_callee (MemberExpression (Identifier "test")
                                   (Identifier "describe") false) v,
     log "Transformed describe to test.describe" st)
  else (v, st).

(** Transform it to test with tag migration *)
Definition it_rule (callee : node) (v : visited) (st : state)
  : visited * state :=
  if isIdentifierNamed "it" callee then
    let '(v1, st1) :=
      match arguments_of v with
      | StringLiteral originalName :: rest =>
          let extractedTags := extractTagsFromString originalName in
          if (0 <? length extractedTags)%nat then
            let cleanName := removeTagsFromString originalName in
            let callback := hd Missing rest in
            let tagArray :=
              ArrayExpression
                (map (fun tag => StringLiteral ("@" +:+ tag))
                     extractedTags) in
            let tagOptions :=
              ObjectExpression
                [ObjectProperty (Identifier "tag") tagArray false false] in
            (with_arguments [StringLiteral cleanName; tagOptions; callback]
                            v,
             log ("Migrated tags [" +:+ join ", " extractedTags
                  +:+ "] to Playwright tag annotation")
                 {| changes := changes st;
                    migratedTags := migratedTags st ++ extractedTags;
                    hasPlaywrightImport := hasPlaywrightImport st |})
          else (v, st)
      | _ => (v, st)
      end in
    let v2 := with_callee (Identifier "test") v1 in
    let callbackIndex := length (arguments_of v2) - 1 in
    let v3 :=
      match arguments_of v2 with
      | [] => v2
      | arguments =>
          with_arguments (update_at callbackIndex with_page_fixture arguments)
                         v2
      end in
    (v3, log "Transformed it to test with page fixture" st1)
  else (v, st).

Definition hookMap : list (string * string) :=
  [("before", "beforeAll"); ("after", "afterAll");
   ("beforeEach", "beforeEach"); ("afterEach", "afterEach")].

Definition own_hook (name : string) : option string :=
  snd <$> find (fun e => String.eqb (fst e) name) hookMap.

(** Transform hooks.  For a name that [hookMap] inherits from
    [Object.prototype] the lookup yields a function, which
    [t.identifier] rejects. *)
Definition hook_rule (callee : node) (v : visited) (st : state)
  : outcome (visited * state) :=
  match callee with
  | Identifier name =>
      match own_hook name with
      | Some hook =>
          let v1 := with_callee (MemberExpression (Identifier "test")
                                                  (Identifier hook) false)
                                v in
          let v2 :=
            match arguments_of v1 with
            | [] => v1
            | arguments =>
                with_arguments (update_at 0 with_page_fixture arguments) v1
            end in
          Returns (v2, log ("Transformed " +:+ name +:+ " to test." +:+ hook)
                           st)
      | None =>
          if inherited name then Throws TypeError else Returns (v, st)
      end
  | _ => Returns (v, st)
  end.

(** Transform $ and $$ selectors *)
Definition selector_rule (callee : node) (v : visited) (st : state)
  : outcome (visited * state) :=
  match callee with
  | Identifier name =>
      if String.eqb name "$" || String.eqb name "$$" then
        match arguments_of v with
        | StringLiteral selector :: _ =>
            let transformed := transformSelector selector in
            let* newAst := parseExpression (code transformed) in
            Returns (Replaced newAst,
                     log ("Transformed " +:+ name +:+ "('" +:+ selector
                          +:+ "') to " +:+ code transformed) st)
        | _ => Returns (v, st)
        end
      else Returns (v, st)
  | _ => Returns (v, st)
  end.

(** [mapping.method.split('.')]: the first two parts. *)
Definition object_and_method (dotted : string) : string * option string :=
  match split_chars "." [] (chars_of dotted) with
  | obj :: method :: _ => (str_of obj, Some (str_of method))
  | obj :: [] => (str_of obj, None)
  | [] => (EmptyString, None)
  end.

(** [node.name = name] on an identifier. *)
Definition renamed (name : option string) : node :=
  match name with
  | Some x => Identifier x
  | None => UnnamedIdentifier
  end.

Definition shown (name : option string) : string :=
  match name with Some x => x | None => "undefined" end.

(** Transform WDIO commands.  The callee is the node the path still
    holds, since the rules above apply to identifier callees only. *)
Definition command_rule (table : gmap string CommandMapping)
                        (callee : node) (v : visited) (st : state)
  : outcome (visited * state) :=
  match callee with
  | MemberExpression object property computed =>
      let methodName := name_of property in
      let '(property1, st1) :=
        match methodName with
        | Some name =>
            if String.eqb name EmptyString then (property, st) else
            match get table name with
            | Own mapping =>
                (Identifier (method mapping),
                 log ("Transformed ." +:+ name +:+ "() to ."
                      +:+ method mapping +:+ "()") st)
            | Inherited =>
                (UnnamedIdentifier,
                 log ("Transformed ." +:+ name +:+ "() to .undefined()") st)
            | Undefined => (property, st)
            end
        | None => (property, st)
        end in
      if isIdentifierNamed "browser" object then
        let browserCmd := "browser." +:+ shown methodName in
        match get table browserCmd with
        | Own mapping =>
            let '(obj, method') := object_and_method (method mapping) in
            if isIdentifier property1 then
              Returns (with_callee (MemberExpression (Identifier obj)
                                      (renamed method') computed) v,
                       log ("Transformed " +:+ browserCmd +:+ " to "
                            +:+ method mapping) st1)
            else Unmodelled
        | Inherited => Throws TypeError
        | Undefined =>
            Returns (with_callee (MemberExpression object property1 computed)
                                 v, st1)
        end
      else
        Returns (with_callee (MemberExpression object property1 computed) v,
                 st1)
  | _ => Returns (v, st)
  end.

Definition visitCallExpression (table : gmap string CommandMapping)
                               (callee : node) (arguments : list node)
                               (st : state) : outcome (visited * state) :=
  let '(v1, st1) := describe_rule callee (Call callee arguments) st in
  let '(v2, st2) := it_rule callee v1 st1 in
  let* (v3, st3) := hook_rule callee v2 st2 in
  let* (v4, st4) := selector_rule callee v3 st3 in
  command_rule table callee v4 st4.

(** *** The traversal

    @babel/traverse enters a node, runs the visitor of its kind, then
    enters the children of what the visitor left, in order.  A node put in
    place by [path.replaceWith] is queued and visited in turn; the
    replacements [parseExpression] is described on hold no further call,
    import or declaration below their top node.  [fuel] bounds the depth
    of the descent. *)
Fixpoint traverse_each (enter : node -> state -> outcome (node * state))
                       (l : list node) (st : state)
  : outcome (list node * state) :=
  match l with
  | [] => Returns ([], st)
  | x :: t =>
      let* (x', st1) := enter x st in
      let* (t', st2) := traverse_each enter t st1 in
      Returns (x' :: t', st2)
  end.

Definition staying (stays : list bool) (declarations : list node)
  : list node :=
  map snd (List.filter fst (combine stays declarations)).

(** A statement list: a declaration whose visitor removes a declarator
    gets one import inserted before it per removal, and is itself removed
    when no declarator is left. *)
Fixpoint traverse_statements
           (enter : node -> state -> outcome (node * state))
           (l : list node) (st : state) : outcome (list node * state) :=
  match l with
  | [] => Returns ([], st)
  | x :: t =>
      let* (xs, st1) :=
        match x with
        | VariableDeclaration kind declarations =>
            let '(stays, st0) := visitVariableDeclaration declarations st in
            let imports := repeat playwright_import (removed stays) in
            match staying stays declarations, removed stays with
            | [], S _ => Returns (imports, st0)
            | kept, _ =>
                let* (kept', st1) := traverse_each enter kept st0 in
                Returns (imports ++ [VariableDeclaration kind kept'], st1)
            end
        | _ =>
            let* (x', st1) := enter x st in
            Returns ([x'], st1)
        end in
      let* (t', st2) := traverse_statements enter t st1 in
      Returns (xs ++ t', st2)
  end.

(** The visit of a queued replacement. *)
Definition requeued (table : gmap string CommandMapping) (n : node)
                    (st : state) : outcome (node * state) :=
  match n with
  | CallExpression callee arguments =>
      let* (v, st1) := visitCallExpression table callee arguments st in
      match v with
      | Call callee' arguments' =>
          Returns (CallExpression callee' arguments', st1)
      | Replaced _ => Unmodelled
      end
  | _ => Returns (n, st)
  end.

Fixpoint traverse (table : gmap string CommandMapping) (fuel : nat)
                  (n : node) (st : state) : outcome (node * state) :=
  match fuel with
  | O => OutOfFuel
  | S fuel' =>
      let enter := traverse table fuel' in
      match n with
      | Identifier _ | UnnamedIdentifier | StringLiteral _ | Missing =>
          Returns (n, st)
      | CallExpression callee arguments =>
          let* (v, st1) := visitCallExpression table callee arguments st in
          match v with
          | Replaced replacement => requeued table replacement st1
          | Call callee1 arguments1 =>
              let* (callee2, st2) := enter callee1 st1 in
              let* (arguments2, st3) :=
                traverse_each enter arguments1 st2 in
              Returns (CallExpression callee2 arguments2, st3)
          end
      | NewExpression callee arguments =>
          let* (callee', st1) := enter callee st in
          let* (arguments', st2) := traverse_each enter arguments st1 in
          Returns (NewExpression callee' arguments', st2)
      | MemberExpression object property computed =>
          let* (object', st1) := enter object st in
          let* (property', st2) := enter property st1 in
          Returns (MemberExpression object' property' computed, st2)
      | ArrowFunctionExpression params body async =>
          let* (params', st1) := traverse_each enter params st in
          let* (body', st2) := enter body st1 in
          Returns (ArrowFunctionExpression params' body' async, st2)
      | FunctionExpression id params body async =>
          let* (id', st0) := enter id st in
          let* (params', st1) := traverse_each enter params st0 in
          let* (body', st2) := enter body st1 in
          Returns (FunctionExpression id' params' body' async, st2)
      | AwaitExpression argument =>
          let* (argument', st1) := enter argument st in
          Returns (AwaitExpression argument', st1)
      | ObjectExpression properties =>
          let* (properties', st1) := traverse_each enter properties st in
          Returns (ObjectExpression properties', st1)
      | ObjectProperty key value computed shorthand =>
          let* (key', st1) := enter key st in
          let* (value', st2) := enter value st1 in
          Returns (ObjectProperty key' value' computed shorthand, st2)
      | ArrayExpression elements =>
          let* (elements', st1) := traverse_each enter elements st in
          Returns (ArrayExpression elements', st1)
      | ObjectPattern properties =>
          let* (properties', st1) := traverse_each enter properties st in
          Returns (ObjectPattern properties', st1)
      | ExpressionStatement expression =>
          let* (expression', st1) := enter expression st in
          Returns (ExpressionStatement expression', st1)
      | BlockStatement body =>
          let* (body', st1) := traverse_statements enter body st in
          Returns (BlockStatement body', st1)
      | VariableDeclaration kind declarations =>
          (* not in a statement list: only the plain case is described *)
          match removed (forEach_splice false declarations) with
          | O =>
              let* (declarations', st1) :=
                traverse_each enter declarations st in
              Returns (VariableDeclaration kind declarations', st1)
          | S _ => Unmodelled
          end
      | VariableDeclarator id init =>
          let* (id', st1) := enter id st in
          let* (init', st2) := enter init st1 in
          Returns (VariableDeclarator id' init', st2)
      | ImportDeclaration specifiers source =>
          let '(specifiers1, source1, st1) :=
            visitImportDeclaration specifiers source st in
          let* (specifiers2, st2) := traverse_each enter specifiers1 st1 in
          Returns (ImportDeclaration specifiers2 source1, st2)
      | ImportSpecifier local imported =>
          let* (imported', st1) := enter imported st in
          let* (local', st2) := enter local st1 in
          Returns (ImportSpecifier local' imported', st2)
      | ImportDefaultSpecifier local =>
          let* (local', st1) := enter local st in
          Returns (ImportDefaultSpecifier local', st1)
      | ImportNamespaceSpecifier local =>
          let* (local', st1) := enter local st in
          Returns (ImportNamespaceSpecifier local', st1)
      | Other kind children =>
          let* (children', st1) := traverse_each enter children st in
          Returns (Other kind children', st1)
      end
  end.

(** The depth a traversal can reach below a node, counting what the
    visitors may put under a call. *)
Fixpoint depth (n : node) : nat :=
  let all := fix all (l : list node) : nat :=
               match l with
               | [] => 0
               | x :: t => Nat.max (depth x) (all t)
               end in
  S match n with
    | Identifier _ | UnnamedIdentifier | StringLiteral _ | Missing => 0
    | CallExpression callee arguments =>
        Nat.max 4 (Nat.max (depth callee) (all arguments))
    | NewExpression callee arguments =>
        Nat.max (depth callee) (all arguments)
    | MemberExpression object property _ =>
        Nat.max (depth object) (depth property)
    | ArrowFunctionExpression params body _ =>
        Nat.max 3 (Nat.max (all params) (depth body))
    | FunctionExpression id params body _ =>
        Nat.max 3 (Nat.max (depth id) (Nat.max (all params) (depth body)))
    | AwaitExpression argument => depth argument
    | ObjectExpression l | ArrayExpression l | ObjectPattern l
    | BlockStatement l | VariableDeclaration _ l | Other _ l => all l
    | ObjectProperty key value _ _ => Nat.max (depth key) (depth value)
    | ExpressionStatement expression => depth expression
    | VariableDeclarator id init => Nat.max (depth id) (depth init)
    | ImportDeclaration specifiers _ => Nat.max 2 (all specifiers)
    | ImportSpecifier local imported => Nat.max (depth local) (depth imported)
    | ImportDefaultSpecifier local | ImportNamespaceSpecifier local =>
        depth local
    end.

Definition depth_all (l : list node) : nat :=
  fold_right (fun x d => Nat.max (depth x) d) 0 l.

(** [traverse.default(ast, visitors)] *)
Definition traverse_file (table : gmap string CommandMapping) (ast : File)
                         (st : state) : outcome (File * state) :=
  let* (body, st1) :=
    traverse_statements (traverse table (depth_all (program_body ast)))
                        (program_body ast) st in
  Returns ({| program_body := body |}, st1).

(** Add Page type import for TypeScript *)
Definition has_local_named (name : string) (specifier : node) : bool :=
  match specifier with
  | ImportSpecifier local _ | ImportDefaultSpecifier local
  | ImportNamespaceSpecifier local => isIdentifierNamed name local
  | _ => false
  end.

Definition add_Page_import (n : node) : node :=
  match n with
  | ImportDeclaration specifiers source =>
      if String.eqb source "@playwright/test" then
        if existsb (has_local_named "Page") specifiers then n
        else ImportDeclaration
               (specifiers
                ++ [ImportSpecifier (Identifier "Page") (Identifier "Page")])
               source
      else n
  | _ => n
  end.

(** The rewriting of the tree: everything between the framework check and
    the code generation. *)
Definition transformAst (table : gmap string CommandMapping) (ast : File)
                   (isTypeScript : bool) : outcome (File * state) :=
  let* (ast1, st1) :=
    traverse_file table ast
      {| changes := []; migratedTags := []; hasPlaywrightImport := false |} in
  let '(body2, st2) :=
    if negb (hasPlaywrightImport st1)
    then (playwright_import :: program_body ast1,
          log "Added @playwright/test import" st1)
    else (program_body ast1, st1) in
  if isTypeScript
  then Returns ({| program_body := map add_Page_import body2 |},
                log "Added Page type import for TypeScript" st2)
  else Returns ({| program_body := body2 |}, st2).

(** The pattern of the final replacement: an opening parenthesis and
    brace, [page] between optional spaces, a closing brace and
    parenthesis. *)
Definition page_parameter : pattern := fun s =>
  match strip_prefix (chars_of "({") s with
  | Some s1 =>
      match strip_prefix (chars_of "page") (trim_start s1) with
      | Some s2 =>
          match strip_prefix (chars_of "})") (trim_start s2) with
          | Some s3 => Some ([], length s - length s3)
          | None => None
          end
      | None => None
      end
  | None => None
  end.

Definition annotate_page_parameters (code : string) : string :=
  str_of (replace_all page_parameter
                      (fun _ => chars_of "({ page }: { page: Page })")
                      (chars_of code)).

Definition numbered (changes : list string) : list string :=
  map (fun ic => decimal (fst ic + 1) +:+ ". " +:+ snd ic)
      (combine (seq 0 (length changes)) changes).

Definition generateMigrationNotes (changes : list string)
                                  (isTypeScript : bool) : list string :=
  ["Migration completed with the following transformations:"; EmptyString]
  ++ numbered changes
  ++ [EmptyString;
      "Manual review recommended for:";
      "- Custom assertions that may need adjustment";
      "- Complex selectors that could use better Playwright locators";
      "- Async/await patterns";
      "- Explicit waits (Playwright auto-waits)"]
  ++ (if isTypeScript
      then ["- TypeScript type definitions";
            "- Generic type parameters if needed"]
      else []).

Record MigrationResult := {
  result_code : string;
  notes : list string;
  result_changes : list string;
  tags : list string;
}.

Section performAstMigration.
(** [parseCode] of [src/utils/parser.js] is @babel/parser's [parse]
    ([None] when it throws), [crawl] is the scope building of
    @babel/traverse (see [Parser.detectFramework]) and [generate] is
    @babel/generator; the three are taken as given.  The traversal of the
    rewriting starts from the tree [detectFramework] has just crawled. *)
Variable parseCode : string -> option File.
Variable crawl : File -> bool.
Variable generate : File -> string.
Variable Analysis : Type.

Definition performAstMigration (table : gmap string CommandMapping)
                               (testContent : string)
                               (analysis : option Analysis)
                               (isTypeScript : bool)
  : outcome MigrationResult :=
  match parseCode testContent with
  | None => Throws SyntaxError
  | Some ast =>
      let* framework := detectFramework crawl ast in
      if isPlaywright framework then
        Returns {| result_code := testContent;
                   notes := ["File is already using Playwright syntax"];
                   result_changes := [];
                   tags := [] |}
      else
        let* (ast', st) := transformAst table ast isTypeScript in
        let output := generate ast' in
        let '(finalCode, changes') :=
          if isTypeScript
          then (annotate_page_parameters output,
                changes st ++ ["Added TypeScript type annotations"])
          else (output, changes st) in
        Returns {| result_code := finalCode;
                   notes := generateMigrationNotes changes' isTypeScript;
                   result_changes := changes';
                   tags := migratedTags st |}
  end.
End performAstMigration.

End Migration.

(* ================================================================== *)
(** ** Pom: src/transformers/pom.js *)
(* ================================================================== *)

Module Pom.
Import Text Regex Ast.

Record Locator := {
  method : option string;
  selector : option string;   (* [None]: the entry holds [options] *)
}.

Record PageInfo := {
  urls : list string;
  locators : list Locator;
  actions : list string;
  assertions : nat;
}.

Definition actionMethods : list string :=
  ["click"; "fill"; "type"; "check"; "uncheck"; "selectOption"; "hover";
   "focus"].

(** Extract page.goto URLs *)
Definition url_of (n : node) : list string :=
  match n with
  | CallExpression (MemberExpression _ (Identifier "goto") _)
                   (StringLiteral value :: _) => [value]
  | _ => []
  end.

Definition is_locator_method (method : option string) : bool :=
  match method with
  | Some m => String.eqb m "locator" || startsWith m "getBy"
  | None => false
  end.

(** Extract locators *)
Definition locator_of (n : node) : list Locator :=
  match n with
  | CallExpression (MemberExpression (Identifier "page") property _)
                   arguments =>
      let method := name_of property in
      if is_locator_method method then
        match arguments with
        | StringLiteral value :: _ =>
            [{| method := method; selector := Some value |}]
        | ObjectExpression _ :: _ =>
            [{| method := method; selector := None |}]
        | _ => []
        end
      else []
  | _ => []
  end.

(** Extract actions (click, fill, etc.) *)
Definition action_of (n : node) : list string :=
  match n with
  | CallExpression (MemberExpression _ (Identifier name) _) _ =>
      if existsb (String.eqb name) actionMethods then [name] else []
  | _ => []
  end.

(** Extract assertions *)
Definition assertion_of (n : node) : list unit :=
  match n with
  | CallExpression (Identifier "expect") _ => [tt]
  | _ => []
  end.

Definition extractPageInfo_ast (ast : File) : PageInfo :=
  {| urls := flat_map url_of (file_nodes ast);
     locators := flat_map locator_of (file_nodes ast);
     actions := flat_map action_of (file_nodes ast);
     assertions := length (flat_map assertion_of (file_nodes ast)) |}.

(** [s.replace(re, f)] for a pattern without the global flag: the leftmost
    match only. *)
Fixpoint replace_first (p : pattern) (f : chars -> chars) (s : chars)
  : chars :=
  match p s with
  | Some (cap, len) => f cap ++ skipn len s
  | None =>
      match s with
      | [] => []
      | c :: t => c :: replace_first p f t
      end
  end.

(** The separators of [toCamelCase]: dash, underscore, white space. *)
Definition is_separator (c : ascii) : bool :=
  Ascii.eqb c "-" || Ascii.eqb c "_" || is_space c.

(** One or more separators and, when there is one, the next character. *)
Definition separators_then_char : pattern := fun s =>
  match span is_separator s with
  | ([], _) => None
  | (run, c :: _) =>
      if is_line_terminator c then Some ([], length run)
      else Some ([c], S (length run))
  | (run, []) => Some ([], length run)
  end.

(** Convert string to camelCase *)
Definition toCamelCase (str : chars) : chars :=
  match replace_all separators_then_char (map toUpperChar) str with
  | c :: t => if is_line_terminator c then c :: t else toLowerChar c :: t
  | [] => []
  end.

(** The characters the test-id value stops at: quotes, the closing angle
    bracket, white space. *)
Definition ends_test_id (c : ascii) : bool :=
  is_quote c || Ascii.eqb c ">" || is_space c.

(** The text data-test-id, an equals sign, an optional quote, and one or
    more characters of the value (the capture). *)
Definition test_id_value : pattern := fun s =>
  match strip_prefix (chars_of "data-test-id=") s with
  | Some rest =>
      let rest' := match rest with
                   | q :: t => if is_quote q then t else rest
                   | [] => rest
                   end in
      match span (fun c => negb (ends_test_id c)) rest' with
      | (c :: run, _) =>
          Some (c :: run, length s - length rest' + length (c :: run))
      | _ => None
      end
  | None => None
  end.

(** The text aria-label, an equals sign, a quote, and one or more
    characters that are not quotes (the capture). *)
Definition aria_label_value : pattern := fun s =>
  match strip_prefix (chars_of "aria-label=") s with
  | Some (q :: rest) =>
      if is_quote q then
        match span (fun c => negb (is_quote c)) rest with
        | (c :: run, _) => Some (c :: run, 12 + length (c :: run))
        | _ => None
        end
      else None
  | _ => None
  end.

(** [marker] and one or more characters of [[\w-]] (the capture), tried at
    the start of the text only. *)
Definition leading (marker : ascii) (s : chars) : option chars :=
  match s with
  | m :: rest =>
      if Ascii.eqb m marker then
        match span is_word_or_dash rest with
        | (c :: run, _) => Some (c :: run)
        | _ => None
        end
      else None
  | [] => None
  end.

(** Generate a meaningful name for a locator *)
Definition generateLocatorName (locator : Locator) (index : nat) : string :=
  let positional := "element" +:+ decimal (index + 1) in
  match selector locator with
  | Some selector =>
      if String.eqb selector EmptyString then positional else
      let selector := chars_of selector in
      match exec test_id_value selector with
      | Some testIdMatch => str_of (toCamelCase testIdMatch)
      | None =>
      match leading "#" selector with
      | Some idMatch => str_of (toCamelCase idMatch)
      | None =>
      match exec aria_label_value selector with
      | Some labelMatch => str_of (toCamelCase labelMatch) +:+ "Element"
      | None =>
      match leading "." selector with
      | Some classMatch => str_of (toCamelCase classMatch)
      | None => positional
      end end end end
  | None => positional
  end.

Definition shown (v : option string) : string :=
  match v with Some x => x | None => "undefined" end.

Definition locatorDef (index : nat) (loc : Locator) : string :=
  let varName := generateLocatorName loc index in
  let calls m := match method loc with
              | Some x => String.eqb x m
              | None => false
              end in
  let sel := shown (selector loc) in
  if calls "locator" then
    "    this." +:+ varName +:+ " = page.locator('" +:+ sel +:+ "');"
  else if calls "getByTestId" then
    "    this." +:+ varName +:+ " = page.getByTestId('" +:+ sel +:+ "');"
  else if calls "getByRole" then
    "    this." +:+ varName +:+ " = page.getByRole('" +:+ sel +:+ "');"
  else if calls "getByLabel" then
    "    this." +:+ varName +:+ " = page.getByLabel('" +:+ sel +:+ "');"
  else if calls "getByPlaceholder" then
    "    this." +:+ varName +:+ " = page.getByPlaceholder('" +:+ sel
    +:+ "');"
  else if calls "getByText" then
    "    this." +:+ varName +:+ " = page.getByText('" +:+ sel +:+ "');"
  else
    "    this." +:+ varName +:+ " = page." +:+ shown (method loc) +:+ "('"
    +:+ sel +:+ "');".

Definition nl : string := String "010"%char EmptyString.

Fixpoint mapi {A B} (f : nat -> A -> B) (i : nat) (l : list A) : list B :=
  match l with
  | [] => []
  | x :: t => f i x :: mapi f (S i) t
  end.

(** Generate a Page Object class from extracted info *)
Definition generatePageObjectClass (pageName : string) (pageInfo : PageInfo)
  : string :=
  let locatorDefs := join nl (mapi locatorDef 0 (locators pageInfo)) in
  let gotoUrl := match urls pageInfo with
                 | url :: _ => if String.eqb url EmptyString then "/" else url
                 | [] => "/"
                 end in
  "export class " +:+ pageName +:+ " {" +:+ nl +:+
  "  constructor(page) {" +:+ nl +:+
  "    this.page = page;" +:+ nl +:+
  locatorDefs +:+ nl +:+
  "  }" +:+ nl +:+
  nl +:+
  "  async goto() {" +:+ nl +:+
  "    await this.page.goto('" +:+ gotoUrl +:+ "');" +:+ nl +:+
  "  }" +:+ nl +:+
  "}" +:+ nl.

(** Everything up to the last slash of a line. *)
Definition directories : pattern := fun s =>
  let line := fst (span (fun c => negb (is_line_terminator c)) s) in
  match span (fun c => negb (Ascii.eqb c "/")) (rev line) with
  | (_, _ :: before) => Some ([], S (length before))
  | (_, []) => None
  end.

(** A test suffix that ends the text. *)
Definition test_suffix : pattern := fun s =>
  if existsb (fun x => String.eqb (str_of s) x)
             [".spec.js"; ".spec.ts"; ".test.js"; ".test.ts"]
  then Some ([], 8) else None.

Definition dash_or_underscore : pattern := fun s =>
  match s with
  | c :: _ => if Ascii.eqb c "-" || Ascii.eqb c "_" then Some ([], 1)
              else None
  | [] => None
  end.

Definition capitalize (word : chars) : chars :=
  match word with
  | c :: t => toUpperChar c :: t
  | [] => []
  end.

(** Generate page class name from file path *)
Definition generatePageName (filePath : string) : string :=
  let baseName :=
    replace_all dash_or_underscore (fun _ => [" "%char])
      (replace_first test_suffix (fun _ => [])
         (replace_first directories (fun _ => []) (chars_of filePath))) in
  str_of (concat (map capitalize (split_chars " " [] baseName)))
  +:+ "Page".

Record PageObject := {
  className : string;
  fileName : string;
  content : string;
}.

Definition refactorToPom_ast (ast : File) (filePath : string)
  : PageObject * PageInfo :=
  let pageInfo := extractPageInfo_ast ast in
  let pageName := generatePageName filePath in
  let pageObjectClass := generatePageObjectClass pageName pageInfo in
  ({| className := pageName;
      fileName := pageName +:+ ".js";
      content := pageObjectClass |},
   pageInfo).

Section refactorToPom.
(** [parseCode] is @babel/parser's [parse]; [None] when it throws. *)
Variable parseCode : string -> option File.

Definition extractPageInfo (testContent : string) : option PageInfo :=
  extractPageInfo_ast <$> parseCode testContent.

Definition refactorToPom (testContent filePath : string)
  : option (PageObject * PageInfo) :=
  (fun ast => refactorToPom_ast ast filePath) <$> parseCode testContent.
End refactorToPom.

End Pom.

(* ================================================================== *)
(** ** Handlers: the target file of src/handlers/toolHandlers.js *)
(* ================================================================== *)

Module Handlers.
Import Text Regex Babel.

#[local] Set Warnings "-register-all".

(** [String.prototype.endsWith] *)
Definition endsWith (s suffix : string) : bool :=
  starts_with (rev (chars_of suffix)) (rev (chars_of s)).

(** [/\.(js|ts)$/]: an extension that ends the text. *)
Definition script_extension : pattern := fun s =>
  if existsb (fun x => String.eqb (str_of s) x) [".js"; ".ts"]
  then Some ([], 3) else None.

(** [outputFormat === 'typescript' || filePath.endsWith('.ts')] *)
Definition isTypeScript (outputFormat filePath : string) : bool :=
  String.eqb outputFormat "typescript" || endsWith filePath ".ts".

(** The [targetFile] of [handleMigrateToPlaywright]. *)
Definition targetFile (outputFormat filePath : string) : string :=
  if isTypeScript outputFormat filePath
  then str_of (Pom.replace_first script_extension
                 (fun _ => chars_of ".spec.ts") (chars_of filePath))
  else str_of (Pom.replace_first script_extension
                 (fun _ => chars_of ".spec.js") (chars_of filePath)).

(** *** The registration of custom commands *)

(** A value as [JSON.parse] yields it.  A number is an IEEE 754 double.
    The fields of an object are its own properties in the order
    [Object.entries] lists them; their names are distinct. *)
Inductive json :=
| JNull
| JBool (b : bool)
| JNumber (x : SpecFloat.spec_float)
| JString (s : string)
| JArray (items : list json)
| JObject (fields : list (string * json)).

(** What the table holds at run time: the mapping objects of the literal
    in [src/constants/mappings.js], and whatever has been registered
    since. *)
Inductive value :=
| Mapping (m : Mappings.CommandMapping)
| Parsed (v : json).

(** The truthiness of a value: [null], [false], zero, [NaN] and the empty
    string are falsy; every array and every object is truthy. *)
Definition truthy_json (v : json) : bool :=
  match v with
  | JNull => false
  | JBool b => b
  | JNumber (SpecFloat.S754_zero _) | JNumber SpecFloat.S754_nan => false
  | JNumber _ => true
  | JString s => negb (String.eqb s EmptyString)
  | JArray _ | JObject _ => true
  end.

Definition truthy (v : value) : bool :=
  match v with
  | Mapping _ => true
  | Parsed v => truthy_json v
  end.

(** [COMMAND_MAPPINGS[name]] as a condition: the truthiness of the
    property of the table itself when it has one, and else of what every
    object inherits under that name. *)
Definition lookup_truthy (table : gmap string value) (name : string)
  : bool :=
  match table !! name with
  | Some v => truthy v
  | None => Mappings.inherited name
  end.

(** [object[name]] on an object [JSON.parse] made, for a name that
    [Object.prototype] does not hold: [None] is [undefined]. *)
Definition property_of (name : string) (fields : list (string * json))
  : option json :=
  snd <$> find (fun f => String.eqb (fst f) name) fields.

Definition indexed {A : Type} (f : A -> json) (l : list A)
  : list (string * json) :=
  Pom.mapi (fun i x => (decimal i, f x)) 0 l.

(** [Object.entries]: [None] is the [TypeError] on [null].  A string
    lists its code units and an array its items, each under its index; a
    boolean or a number lists nothing. *)
Definition Object_entries (v : json) : option (list (string * json)) :=
  match v with
  | JNull => None
  | JBool _ | JNumber _ => Some []
  | JString s =>
      Some (indexed (fun c => JString (String c EmptyString)) (chars_of s))
  | JArray items => Some (indexed (fun item => item) items)
  | JObject fields => Some fields
  end.

(** Whether a value converts to a string in a template literal.  An
    object made by [JSON.parse] that has a property of its own named
    [toString] has no callable [toString], and [valueOf] gives the object
    back: the conversion throws a [TypeError].  An array is joined, each
    item converted in turn. *)
Fixpoint renders (v : json) : bool :=
  match v with
  | JArray items => forallb renders items
  | JObject fields =>
      negb (existsb (fun f => String.eqb (fst f) "toString") fields)
  | _ => true
  end.

(** Whether [`${COMMAND_MAPPINGS[cmd].method}`] can be evaluated: reading
    a property of [null] throws a [TypeError]; a value without [method]
    gives [undefined]. *)
Definition line_renders (table : gmap string value) (cmd : string) : bool :=
  match table !! cmd with
  | Some (Parsed JNull) => false
  | Some (Parsed (JObject fields)) =>
      match property_of "method" fields with
      | Some method => renders method
      | None => true
      end
  | _ => true
  end.

(** One iteration of the loop of [handleRegisterCustomCommands]:
    [if (!COMMAND_MAPPINGS[wdioCmd]) { COMMAND_MAPPINGS[wdioCmd] = mapping;
    addedCommands.push(wdioCmd); }]. *)
Definition registerCustom (acc : gmap string value * list string)
                          (e : string * json)
  : gmap string value * list string :=
  let '(table, addedCommands) := acc in
  let '(wdioCmd, mapping) := e in
  if negb (lookup_truthy table wdioCmd)
  then (<[wdioCmd := Parsed mapping]> table, addedCommands ++ [wdioCmd])
  else (table, addedCommands).

(** What the text of the answer is made of. *)
Record registration := {
  isError : bool;
  addedCommands : list string;
  total : nat;
}.

(** [handleRegisterCustomCommands]: the table it leaves, and its answer.
    [commands] is what [JSON.parse] makes of the argument, [None] when it
    throws.  The table is changed before the answer is written, so it
    stays changed when writing the answer throws. *)
Definition handleRegisterCustomCommands
           (table : gmap string value) (commands : option json)
  : gmap string value * outcome registration :=
  match commands with
  | None =>
      (table,
       Returns {| isError := true; addedCommands := []; total := 0 |})
  | Some customCommands =>
      match Object_entries customCommands with
      | None => (table, Throws TypeError)
      | Some entries =>
          let '(table', added) :=
            fold_left registerCustom entries (table, []) in
          (table',
           if forallb (line_renders table') added
           then Returns {| isError := false; addedCommands := added;
                           total := size table' |}
           else Throws TypeError)
      end
  end.

End Handlers.

(* ================================================================== *)
(** * Vocabulary of the properties *)
(* ================================================================== *)

Import Text Regex Tags Selectors Ast Babel Parser Migration.

(** The lowercase tokens one pattern finds, in textual order. *)
Definition tokens_of (p : pattern) (str : string) : list string :=
  map (fun m1 => toLowerCase (str_of m1)) (exec_all p (chars_of str)).

(** The first occurrence of every element, in order. *)
Definition first_occurrences (l : list string) : list string :=
  rev (nodup string_dec (rev l)).

(** The selector classifier in the spec's words: six cases in priority
    order, of which the first that matches gives the result. *)
Definition plain_transform (code type original : string) : SelectorTransform :=
  {| code := code; type := type; original := original;
     note := None; suggestion := None |}.

Definition attribute_case (p : pattern) (factory type : string)
                          (selector : string) : option SelectorTransform :=
  match exec p (chars_of selector) with
  | Some value =>
      Some (plain_transform ("page." +:+ factory +:+ "('" +:+ str_of value
                             +:+ "')") type selector)
  | None => None
  end.

Definition button_or_link_case (selector : string)
  : option SelectorTransform :=
  if tag_with_attributes (chars_of selector) || bare_tag (chars_of selector)
  then Some {| code := "page.getByRole('"
                       +:+ (if startsWith selector "button" then "button"
                            else "link") +:+ "')";
               type := "role"; original := selector;
               note := Some ("Consider adding { name: " +:+ dq +:+ "..."
                             +:+ dq +:+ " } for specificity");
               suggestion := None |}
  else None.

Definition css_case (selector : string) : option SelectorTransform :=
  Some {| code := "page.locator('" +:+ selector +:+ "')";
          type := "css"; original := selector; note := None;
          suggestion :=
            Some "Consider using data-test-id for more reliable selectors" |}.

Definition selector_cases : list (string -> option SelectorTransform) :=
  [attribute_case SELECTOR_PATTERNS.dataTestId "getByTestId" "testId";
   attribute_case SELECTOR_PATTERNS.ariaLabel "getByLabel" "label";
   attribute_case SELECTOR_PATTERNS.role "getByRole" "role";
   attribute_case SELECTOR_PATTERNS.placeholder "getByPlaceholder"
                  "placeholder";
   button_or_link_case;
   css_case].

Fixpoint first_match {A B : Type} (cases : list (A -> option B)) (a : A)
  : option B :=
  match cases with
  | [] => None
  | c :: rest =>
      match c a with
      | Some b => Some b
      | None => first_match rest a
      end
  end.

Definition classifySelector (selector : string) : option SelectorTransform :=
  first_match selector_cases selector.

(** A test case named with two bracketed tags, and an empty callback. *)
Definition tagged_case (async : bool) : node :=
  CallExpression (Identifier "it")
    [StringLiteral "should login [SMOKE] [P1]";
     ArrowFunctionExpression [] (BlockStatement []) async].

Definition tagged_case_migrated (async : bool) : node :=
  CallExpression (Identifier "test")
    [StringLiteral "should login";
     ObjectExpression
       [ObjectProperty (Identifier "tag")
          (ArrayExpression [StringLiteral "@smoke"; StringLiteral "@p1"])
          false false];
     ArrowFunctionExpression [page_fixture] (BlockStatement []) async].

(** What the hook rule leaves of a call whose name [hookMap] holds. *)
Definition hook_call (hook : string) (arguments : list node) : visited :=
  Call (MemberExpression (Identifier "test") (Identifier hook) false)
       (match arguments with
        | [] => []
        | callback :: rest => with_page_fixture callback :: rest
        end).

(** [await page.goto('/login'); await LOCATOR.click();] *)
Definition login_spec (locator : node) : File :=
  {| program_body :=
       [ExpressionStatement
          (AwaitExpression
             (CallExpression
                (MemberExpression (Identifier "page") (Identifier "goto")
                                  false)
                [StringLiteral "/login"]));
        ExpressionStatement
          (AwaitExpression
             (CallExpression
                (MemberExpression locator (Identifier "click") false) []))] |}.

Definition page_call (factory argument : string) : node :=
  CallExpression
    (MemberExpression (Identifier "page") (Identifier factory) false)
    [StringLiteral argument].

Definition page_object_text (field : string) : string :=
  "export class LoginPage {" +:+ Pom.nl +:+
  "  constructor(page) {" +:+ Pom.nl +:+
  "    this.page = page;" +:+ Pom.nl +:+
  "    this." +:+ field +:+ Pom.nl +:+
  "  }" +:+ Pom.nl +:+
  Pom.nl +:+
  "  async goto() {" +:+ Pom.nl +:+
  "    await this.page.goto('/login');" +:+ Pom.nl +:+
  "  }" +:+ Pom.nl +:+
  "}" +:+ Pom.nl.

(** [$("input[name='email']");] *)
Definition email_lookup_source : string :=
  "$(" +:+ dq +:+ "input[name='email']" +:+ dq +:+ ");".

Definition email_lookup : File :=
  {| program_body :=
       [ExpressionStatement
          (CallExpression (Identifier "$")
                          [StringLiteral "input[name='email']"])] |}.

(** [$('#login').click();] and the text of its migration. *)
Definition login_click_source : string := "$('#login').click();".

Definition login_click : File :=
  {| program_body :=
       [ExpressionStatement
          (CallExpression
             (MemberExpression
                (CallExpression (Identifier "$") [StringLiteral "#login"])
                (Identifier "click") false)
             [])] |}.

Definition login_click_migrated_source : string :=
  "import { test, expect } from '@playwright/test';" +:+ Pom.nl
  +:+ "page.locator('#login').click();".

Definition login_click_migrated : File :=
  {| program_body :=
       [playwright_import;
        ExpressionStatement
          (CallExpression
             (MemberExpression (page_call "locator" "#login")
                               (Identifier "click") false)
             [])] |}.

(** Two imports from chai, and what the migration makes of them: the
    import from [@playwright/test], twice. *)
Definition chai_imports_source : string :=
  "import { expect } from 'chai';" +:+ Pom.nl
  +:+ "import { assert } from 'chai';".

Definition chai_imports : File :=
  {| program_body :=
       [ImportDeclaration
          [ImportSpecifier (Identifier "expect") (Identifier "expect")]
          "chai";
        ImportDeclaration
          [ImportSpecifier (Identifier "assert") (Identifier "assert")]
          "chai"] |}.

Definition twice_imported_source : string :=
  "import { test, expect } from '@playwright/test';" +:+ Pom.nl
  +:+ "import { test, expect } from '@playwright/test';".

Definition twice_imported : File :=
  {| program_body := [playwright_import; playwright_import] |}.

(** The names the imports of a file bind. *)
Definition imported_names (ast : File) : list string :=
  flat_map
    (fun statement =>
       match statement with
       | ImportDeclaration specifiers _ =>
           flat_map (fun specifier =>
                       match specifier with
                       | ImportSpecifier (Identifier name) _ => [name]
                       | _ => []
                       end) specifiers
       | _ => []
       end)
    (program_body ast).

(** A parser, a scope crawl and a generator defined on the sample texts
    above only, to instantiate the statements that take the Babel
    functions as given.  Of the sample trees, the scopes of all can be
    built but those of the tree that imports a name twice. *)
Definition sample_parseCode (text : string) : option File :=
  if String.eqb text email_lookup_source then Some email_lookup
  else if String.eqb text login_click_source then Some login_click
  else if String.eqb text login_click_migrated_source
       then Some login_click_migrated
  else if String.eqb text chai_imports_source then Some chai_imports
  else if String.eqb text twice_imported_source then Some twice_imported
  else None.

Definition sample_crawl (ast : File) : bool :=
  bool_decide (NoDup (imported_names ast)).

Definition sample_generate (ast : File) : string :=
  login_click_migrated_source.

(** The result of migrating a text that is already in the target
    dialect. *)
Definition already_migrated (testContent : string) : MigrationResult :=
  {| result_code := testContent;
     notes := ["File is already using Playwright syntax"];
     result_changes := [];
     tags := [] |}.

(** The text parses and the framework classifier reports Playwright only:
    it returns, and its verdict is [isPlaywright]. *)
Definition target_only (parseCode : string -> option File)
                       (crawl : File -> bool) (text : string) : Prop :=
  exists ast framework,
    parseCode text = Some ast
    /\ detectFramework crawl ast = Returns framework
    /\ isPlaywright framework = true.

(** The table the process starts with: the mapping objects of the
    literal. *)
Definition initial_table : gmap string Handlers.value :=
  Handlers.Mapping <$> Mappings.COMMAND_MAPPINGS.

Definition mapping_object (method description : string) : Handlers.json :=
  Handlers.JObject [("method", Handlers.JString method);
                    ("description", Handlers.JString description)].

(** A registration request: one name the table has, one it has not. *)
Definition custom_request : Handlers.json :=
  Handlers.JObject
    [("setValue", mapping_object "type" "Types text");
     ("tapOn", mapping_object "tap" "Taps element")].

(** A request that registers [false] under a name. *)
Definition falsy_request : Handlers.json :=
  Handlers.JObject [("tapOn", Handlers.JBool false)].

(** A request for that name alone. *)
Definition tapOn_request : Handlers.json :=
  Handlers.JObject [("tapOn", mapping_object "tap" "Taps element")].

(** A request that registers [null] under a name. *)
Definition null_request : Handlers.json :=
  Handlers.JObject [("tapOn", Handlers.JNull)].

(** A requested value of the documented form: an object whose [method]
    is a string. *)
Definition names_method (mapping : Handlers.json) : bool :=
  match mapping with
  | Handlers.JObject fields =>
      match Handlers.property_of "method" fields with
      | Some (Handlers.JString _) => true
      | _ => false
      end
  | _ => false
  end.

(** The table has no property of its own under the name. *)
Definition absent (table : gmap string Handlers.value) (name : string)
  : bool :=
  match table !! name with None => true | Some _ => false end.

(** What [registerCustom] leaves under a name, for a request whose names
    are distinct: the entry as it was when the lookup is truthy, and else
    the requested value, when there is one. *)
Definition registered (table : gmap string Handlers.value)
                      (entries : list (string * Handlers.json))
                      (name : string) : option Handlers.value :=
  if Handlers.lookup_truthy table name then table !! name
  else match Handlers.property_of name entries with
       | Some mapping => Some (Handlers.Parsed mapping)
       | None => table !! name
       end.

(** [marker] directly followed by a word character occurs in the text: the
    text holds a tag of the at-prefixed or hash-prefixed syntax. *)
Fixpoint has_prefixed_tag (marker : ascii) (s : chars) : bool :=
  match s with
  | [] => false
  | c :: t =>
      (Ascii.eqb c marker
       && match t with [] => false | d :: _ => is_word d end)
      || has_prefixed_tag marker t
  end.

(** Every opening bracket of the text begins a bracketed tag. *)
Fixpoint every_bracket_opens_tag (s : chars) : bool :=
  match s with
  | [] => true
  | c :: t =>
      (if Ascii.eqb c "[" then
         match bracketed s with Some _ => true | None => false end
       else true)
      && every_bracket_opens_tag t
  end.

Definition has_char (c : ascii) (s : chars) : bool := existsb (Ascii.eqb c) s.

(** A token every syntax can carry: capitals, digits, underscores. *)
Definition is_token_char (c : ascii) : bool :=
  is_upper c || is_digit c || Ascii.eqb c "_".

Definition is_token (w : chars) : bool :=
  match w with [] => false | _ => forallb is_token_char w end.

(** Text without any of the three tag markers. *)
Definition is_marker (c : ascii) : bool :=
  Ascii.eqb c "[" || Ascii.eqb c "@" || Ascii.eqb c "#".

Definition plain (s : chars) : bool := forallb (fun c => negb (is_marker c)) s.

(** The text does not go on with a word character. *)
Definition word_ends (s : chars) : bool :=
  match s with [] => true | c :: _ => negb (is_word c) end.

(** [s.replace(/\s+/g, ' ')] *)
Definition collapse (s : chars) : chars :=
  replace_all spaces (fun _ => [" "%char]) s.

(** The pattern matches only where the text starts with [mk]. *)
Definition starts_at (mk : ascii) (p : pattern) : Prop :=
  forall c t, p (c :: t) <> None -> c = mk.

(** The computation did not stop for lack of fuel. *)
Definition finishes {A : Type} (o : outcome A) : Prop := o <> OutOfFuel.

(** The callee and the arguments under the path are no deeper than [bound]. *)
Definition within (bound : nat) (v : visited) : Prop :=
  match v with
  | Call callee arguments =>
      depth callee <= bound /\ depth_all arguments <= bound
  | Replaced _ => True
  end.

(* ================================================================== *)
(** * Vocabulary of the further properties *)
(* ================================================================== *)

(** The characters of an extracted tag: lowercase letters, digits,
    underscore, dash. *)
Definition is_tag_token_char (c : ascii) : bool :=
  is_lower c || is_digit c || Ascii.eqb c "_" || Ascii.eqb c "-".

(** A tag as [extractTagsFromString] reports it. *)
Definition tag_token (tok : string) : Prop :=
  tok <> EmptyString /\ forallb is_tag_token_char (chars_of tok) = true.

(** Every tag collected so far is such a token. *)
Definition tags_ok (st : state) : Prop :=
  Forall tag_token (migratedTags st).

Definition starts_with_space (s : chars) : bool :=
  match s with [] => false | c :: _ => is_space c end.

(** Every white-space character of the text is a single space that stands
    between two other characters. *)
Fixpoint single_spaced (s : chars) : bool :=
  match s with
  | [] => true
  | c :: t =>
      (if is_space c
       then Ascii.eqb c " "
            && match t with [] => false | d :: _ => negb (is_space d) end
       else true)
      && single_spaced t
  end.

(** The text does not end with a white-space character. *)
Fixpoint ends_clear (s : chars) : bool :=
  match s with
  | [] => true
  | c :: t => match t with [] => negb (is_space c) | _ => ends_clear t end
  end.

(** Text that can stand between single quotes as it is: no single quote,
    no backslash, no line terminator. *)
Definition quotable (s : chars) : bool :=
  forallb (fun c => negb (Ascii.eqb c "'" || Ascii.eqb c "\"
                          || is_line_terminator c)) s.

(** The locator factories [transformSelector] writes. *)
Definition locator_factories : list string :=
  ["getByTestId"; "getByLabel"; "getByRole"; "getByPlaceholder"; "locator"].

(** The test-runner globals the call visitor renames. *)
Definition legacy_names : list string :=
  ["describe"; "it"; "before"; "after"; "beforeEach"; "afterEach"].

Definition is_literal (n : node) : bool :=
  match n with StringLiteral _ => true | _ => false end.

Definition first_is_literal (arguments : list node) : bool :=
  match arguments with x :: _ => is_literal x | [] => false end.

(** A call the visitor rewrites: one of the globals of [legacy_names], or
    [$] or [$$] with a string literal first. *)
Definition legacy_call (n : node) : bool :=
  match n with
  | CallExpression (Identifier name) arguments =>
      existsb (String.eqb name) legacy_names
      || ((String.eqb name "$" || String.eqb name "$$")
          && first_is_literal arguments)
  | _ => false
  end.

(** An import from [@playwright/test]. *)
Definition imports_playwright (n : node) : bool :=
  match n with
  | ImportDeclaration _ source => String.eqb source "@playwright/test"
  | _ => false
  end.

(** What a visit leaves: among the nodes [ns] it produced there is no
    legacy call, and when it set [hasPlaywrightImport] there is an import
    from [@playwright/test] among them. *)
Definition kept (st : state) (ns : list node) (st' : state) : Prop :=
  existsb legacy_call ns = false
  /\ (hasPlaywrightImport st' = true ->
      hasPlaywrightImport st = true \/ existsb imports_playwright ns = true).

(** Text without dash, underscore or white space. *)
Definition unseparated (s : chars) : bool :=
  forallb (fun c => negb (Pom.is_separator c)) s.

Definition is_alnum (c : ascii) : bool :=
  is_upper c || is_lower c || is_digit c.

(** The suffixes [generatePageName] strips. *)
Definition test_suffixes : list string :=
  [".spec.js"; ".spec.ts"; ".test.js"; ".test.ts"].

(** Two texts are the same up to and including their first opening
    parenthesis. *)
Fixpoint agree (u u' : chars) : Prop :=
  match u, u' with
  | [], [] => True
  | c :: t, c' :: t' => c = c' /\ (c = "("%char \/ agree t t')
  | _, _ => False
  end.

(* ================================================================== *)
(** * Properties *)
(* ================================================================== *)

(** ** The tag engine *)

Section TagOrder.

Lemma Set_has_In x tags : Set_has x tags = true <-> In x tags.
Proof.
  unfold Set_has. rewrite existsb_exists. split.
  - intros (y & Hy & Heq). apply String.eqb_eq in Heq. now subst.
  - intros H. exists x. split; [assumption | apply String.eqb_refl].
Qed.

Lemma Set_add_all_first_occurrences (l : list string) :
  fold_left (fun tags x => Set_add x tags) l [] = first_occurrences l.
Proof.
  induction l as [| x l IH] using rev_ind; [reflexivity |].
  rewrite fold_left_app. cbn [fold_left]. rewrite IH.
  unfold first_occurrences. rewrite rev_app_distr. cbn [rev app nodup].
  unfold Set_add.
  destruct (in_dec string_dec x (rev l)) as [Hin | Hout].
  - replace (Set_has x (rev (nodup string_dec (rev l)))) with true;
      [reflexivity |].
    symmetry. apply Set_has_In. rewrite <- in_rev. now apply nodup_In.
  - replace (Set_has x (rev (nodup string_dec (rev l)))) with false;
      [reflexivity |].
    symmetry. apply not_true_is_false. rewrite Set_has_In.
    rewrite <- in_rev, nodup_In. exact Hout.
Qed.

Lemma Set_add_captures (f : chars -> string) (l : list chars) tags :
  fold_left (fun tags m1 => Set_add (f m1) tags) l tags
  = fold_left (fun tags x => Set_add x tags) (map f l) tags.
Proof.
  revert tags. induction l as [| m l IH]; intros tags; [reflexivity |].
  cbn. apply IH.
Qed.

Lemma extractTagsFromString_spec (str : string) :
  extractTagsFromString str
  = first_occurrences (tokens_of bracketed str
                       ++ tokens_of (prefixed "@") str
                       ++ tokens_of (prefixed "#") str).
Proof.
  rewrite <- Set_add_all_first_occurrences.
  unfold extractTagsFromString, TAG_PATTERNS. cbn [fold_left].
  rewrite !Set_add_captures, !fold_left_app. reflexivity.
Qed.

End TagOrder.

(** C10. [extractTagsFromString] yields, without repetition, the lowercase
    tokens of the bracketed pattern in textual order, then those of the
    at-prefixed pattern, then those of the hash-prefixed pattern, a token
    staying where it was first produced; for the text "@beta [ALPHA]" the
    result is alpha, beta. *)
Theorem C10_extractTags_pattern_major_order :
  (forall str : string,
      extractTagsFromString str
      = first_occurrences (tokens_of bracketed str
                           ++ tokens_of (prefixed "@") str
                           ++ tokens_of (prefixed "#") str)
      /\ List.NoDup (extractTagsFromString str))
  /\ extractTagsFromString "@beta [ALPHA]" = ["alpha"; "beta"].
Proof.
  split; [| reflexivity].
  intros str. split; [apply extractTagsFromString_spec |].
  rewrite extractTagsFromString_spec. unfold first_occurrences.
  apply NoDup_rev, NoDup_nodup.
Qed.

(** ** The selector classifier *)

(** C2. [transformSelector] is the first match among the six cases in
    their priority order (test id, aria label, role, placeholder, button or
    link tag, css), for every selector; a selector matching both the role
    and the test-id pattern is classified by the test id; and the selector
    [data-test-id='submit-button'] in brackets yields type testId with a
    locator naming submit-button. *)
Theorem C2_transformSelector_first_match_wins :
  (forall selector : string,
      classifySelector selector = Some (transformSelector selector))
  /\ type (transformSelector "[role='tab'][data-test-id='save']") = "testId"
  /\ type (transformSelector "[data-test-id='submit-button']") = "testId"
  /\ code (transformSelector "[data-test-id='submit-button']")
     = "page.getByTestId('submit-button')".
Proof.
  split; [| repeat split; reflexivity].
  intros selector.
  unfold classifySelector, selector_cases, transformSelector.
  cbn [first_match]. unfold attribute_case.
  destruct (exec SELECTOR_PATTERNS.dataTestId _); [reflexivity |].
  destruct (exec SELECTOR_PATTERNS.ariaLabel _); [reflexivity |].
  destruct (exec SELECTOR_PATTERNS.role _); [reflexivity |].
  destruct (exec SELECTOR_PATTERNS.placeholder _); [reflexivity |].
  unfold button_or_link_case, css_case.
  destruct (tag_with_attributes _ || bare_tag _); reflexivity.
Qed.

(** ** The rewrite rules *)

(** C5. The case [it("should login [SMOKE] [P1]", () => {})] is rewritten
    to a [test] call named "should login" whose second argument is an
    object with the tag list @smoke, @p1, the callback coming third with the
    page fixture as its parameter. *)
Theorem C5_tagged_case_migration :
  forall (table : gmap string Mappings.CommandMapping) (async : bool)
         (st : state),
    traverse table (depth (tagged_case async)) (tagged_case async) st
    = Returns
        (tagged_case_migrated async,
         {| changes :=
              (changes st
               ++ ["Migrated tags [smoke, p1] to Playwright tag annotation"])
              ++ ["Transformed it to test with page fixture"];
            migratedTags := migratedTags st ++ ["smoke"; "p1"];
            hasPlaywrightImport := hasPlaywrightImport st |}).
Proof. intros table async st. destruct async; reflexivity. Qed.

Lemma command_rule_static (name target : string) (m : Mappings.CommandMapping)
      (object : node) (computed : bool) (arguments : list node) (st : state) :
  name <> EmptyString ->
  Mappings.get Mappings.COMMAND_MAPPINGS name = Mappings.Own m ->
  Mappings.method m = target ->
  Mappings.get Mappings.COMMAND_MAPPINGS ("browser." +:+ name)
  = Mappings.Undefined ->
  visitCallExpression Mappings.COMMAND_MAPPINGS
    (MemberExpression object (Identifier name) computed) arguments st
  = Returns
      (Call (MemberExpression object (Identifier target) computed) arguments,
       log ("Transformed ." +:+ name +:+ "() to ." +:+ target +:+ "()") st).
Proof.
  intros Hne Hget Hm Hb.
  unfold visitCallExpression. cbn -[Mappings.get Mappings.COMMAND_MAPPINGS].
  apply String.eqb_neq in Hne. rewrite Hne, Hget, Hm.
  destruct (isIdentifierNamed "browser" object); [| reflexivity].
  unfold shown. rewrite Hb. reflexivity.
Qed.

(** C6. A call of a member named setValue becomes a call of fill, receiver
    and arguments kept.  A call of waitForDisplayed becomes a call of
    waitFor with its arguments as they were: the option literal
    [{ state: "visible" }] that the mapping carries is not put into the
    call, so [el.waitForDisplayed()] becomes [el.waitFor()]. *)
Theorem C6_member_call_rewrite :
  forall (object : node) (computed : bool) (arguments : list node)
         (st : state),
    visitCallExpression Mappings.COMMAND_MAPPINGS
      (MemberExpression object (Identifier "setValue") computed) arguments st
    = Returns
        (Call (MemberExpression object (Identifier "fill") computed) arguments,
         log "Transformed .setValue() to .fill()" st)
    /\ visitCallExpression Mappings.COMMAND_MAPPINGS
         (MemberExpression object (Identifier "waitForDisplayed") computed)
         arguments st
       = Returns
           (Call (MemberExpression object (Identifier "waitFor") computed)
                 arguments,
            log "Transformed .waitForDisplayed() to .waitFor()" st)
    /\ (Mappings.options <$> Mappings.COMMAND_MAPPINGS !! "waitForDisplayed")
       = Some (Some Mappings.state_visible).
Proof.
  intros object computed arguments st. repeat split.
  - eapply (command_rule_static "setValue" "fill"); try reflexivity.
    discriminate.
  - eapply (command_rule_static "waitForDisplayed" "waitFor");
      try reflexivity.
    discriminate.
Qed.

(** C7 as stated fails: [beforeAll] is one of the six hook kinds the
    extractor recognizes, and the rewrite leaves an unqualified
    [beforeAll] call as it is. *)
Lemma C7_beforeAll_not_remapped :
  In "beforeAll" hookNames
  /\ extracted_hooks
       {| program_body :=
            [ExpressionStatement
               (CallExpression (Identifier "beforeAll")
                  [ArrowFunctionExpression [] (BlockStatement []) true])] |}
     = ["beforeAll"]
  /\ visitCallExpression Mappings.COMMAND_MAPPINGS (Identifier "beforeAll")
       [ArrowFunctionExpression [] (BlockStatement []) true]
       {| changes := []; migratedTags := []; hasPlaywrightImport := false |}
     = Returns
         (Call (Identifier "beforeAll")
               [ArrowFunctionExpression [] (BlockStatement []) true],
          {| changes := []; migratedTags := [];
             hasPlaywrightImport := false |}).
Proof.
  split; [cbn; tauto |]. split; reflexivity.
Qed.

(** C7, amended.  The rewrite remaps the four hook kinds of its table:
    [before] and [after] become [test.beforeAll] and [test.afterAll],
    [beforeEach] and [afterEach] keep their names under [test]; the first
    argument, when it is a function expression without parameters, gets the
    page fixture as its parameter.  Unqualified [beforeAll] and [afterAll]
    calls are left as they are. *)
Theorem C7_four_hook_kinds_remapped :
  forall (table : gmap string Mappings.CommandMapping)
         (arguments : list node) (st : state),
    (visitCallExpression table (Identifier "before") arguments st
     = Returns (hook_call "beforeAll" arguments,
                log "Transformed before to test.beforeAll" st))
    /\ (visitCallExpression table (Identifier "after") arguments st
        = Returns (hook_call "afterAll" arguments,
                   log "Transformed after to test.afterAll" st))
    /\ (visitCallExpression table (Identifier "beforeEach") arguments st
        = Returns (hook_call "beforeEach" arguments,
                   log "Transformed beforeEach to test.beforeEach" st))
    /\ (visitCallExpression table (Identifier "afterEach") arguments st
        = Returns (hook_call "afterEach" arguments,
                   log "Transformed afterEach to test.afterEach" st))
    /\ (forall body async,
           with_page_fixture (ArrowFunctionExpression [] body async)
           = ArrowFunctionExpression [page_fixture] body async)
    /\ (forall id body async,
           with_page_fixture (FunctionExpression id [] body async)
           = FunctionExpression id [page_fixture] body async)
    /\ (visitCallExpression table (Identifier "beforeAll") arguments st
        = Returns (Call (Identifier "beforeAll") arguments, st))
    /\ (visitCallExpression table (Identifier "afterAll") arguments st
        = Returns (Call (Identifier "afterAll") arguments, st)).
Proof.
  intros table arguments st.
  repeat split; destruct arguments; reflexivity.
Qed.

(** ** The page-object synthesizer *)

(** C8 as stated fails for the locator the migration itself writes for a
    test-id lookup: the selector [data-test-id='submit-button'] becomes
    [page.getByTestId('submit-button')], whose argument submit-button
    carries no test-id attribute, and in [login.spec.js] with
    [page.goto('/login')] its field is named element1; at any position the
    name is the positional one. *)
Lemma C8_getByTestId_field_is_positional :
  code (transformSelector "[data-test-id='submit-button']")
  = "page.getByTestId('submit-button')"
  /\ fst (Pom.refactorToPom_ast
            (login_spec (page_call "getByTestId" "submit-button"))
            "login.spec.js")
     = {| Pom.className := "LoginPage";
          Pom.fileName := "LoginPage.js";
          Pom.content :=
            page_object_text
              "element1 = page.getByTestId('submit-button');" |}
  /\ forall index,
       Pom.generateLocatorName
         {| Pom.method := Some "getByTestId";
            Pom.selector := Some "submit-button" |} index
       = "element" +:+ decimal (index + 1).
Proof. repeat split; reflexivity. Qed.

(** C8, amended.  For [login.spec.js] holding [page.goto('/login')] and
    one locator whose argument carries the test-id attribute,
    [page.locator("[data-test-id='submit-button']")], the class is
    LoginPage, its [goto] targets /login and its one field is named
    submitButton; a locator with this argument is named submitButton
    whatever its factory and its position. *)
Theorem C8_test_id_locator_field_name :
  fst (Pom.refactorToPom_ast
         (login_spec (page_call "locator" "[data-test-id='submit-button']"))
         "login.spec.js")
  = {| Pom.className := "LoginPage";
       Pom.fileName := "LoginPage.js";
       Pom.content :=
         page_object_text
           "submitButton = page.locator('[data-test-id='submit-button']');"
    |}
  /\ forall factory index,
       Pom.generateLocatorName
         {| Pom.method := factory;
            Pom.selector := Some "[data-test-id='submit-button']" |} index
       = "submitButton".
Proof. split; [reflexivity | intros; reflexivity]. Qed.

(** ** Failures of the pipeline *)

(** The sample file [$('#login').click();] is rewritten to the sample
    migrated file. *)
Example login_click_transformed :
  transformAst Mappings.COMMAND_MAPPINGS login_click false
  = Returns
      (login_click_migrated,
       {| changes := ["Transformed .click() to .click()";
                      "Transformed $('#login') to page.locator('#login')";
                      "Added @playwright/test import"];
          migratedTags := [];
          hasPlaywrightImport := false |}).
Proof. reflexivity. Qed.

(** C9.  The file [$("input[name='email']");] parses, and its rewriting
    throws: the selector falls to the css case, the quoted template
    [page.locator('input[name='email']')] is handed to [parseExpression],
    and that is not an expression. *)
Theorem C9_selector_rule_throws :
  code (transformSelector "input[name='email']")
  = "page.locator('input[name='email']')"
  /\ parseExpression "page.locator('input[name='email']')"
     = Throws SyntaxError
  /\ transformAst Mappings.COMMAND_MAPPINGS email_lookup false
     = Throws SyntaxError
  /\ sample_parseCode email_lookup_source = Some email_lookup
  /\ performAstMigration sample_parseCode sample_crawl sample_generate unit
       Mappings.COMMAND_MAPPINGS email_lookup_source None false
     = Throws SyntaxError.
Proof. repeat split; reflexivity. Qed.

(** ** The command mapping table *)

Section Registration.
Import Handlers.

Lemma registerCustom_eq (table : gmap string value) (added : list string)
      (cmd : string) (mapping : json) :
  registerCustom (table, added) (cmd, mapping)
  = if negb (lookup_truthy table cmd)
    then (<[cmd := Parsed mapping]> table, added ++ [cmd])
    else (table, added).
Proof. reflexivity. Qed.

Lemma lookup_truthy_own (table : gmap string value) (name : string)
      (v : value) :
  table !! name = Some v -> lookup_truthy table name = truthy v.
Proof. unfold lookup_truthy. now intros ->. Qed.

Lemma lookup_truthy_insert_ne (table : gmap string value)
      (cmd name : string) (v : value) :
  cmd <> name ->
  lookup_truthy (<[cmd := v]> table) name = lookup_truthy table name.
Proof.
  intros Hne. unfold lookup_truthy. now rewrite lookup_insert_ne.
Qed.

Lemma register_all_keeps (entries : list (string * json)) :
  forall (table : gmap string value) (added : list string)
         (name : string) (v : value),
    table !! name = Some v -> truthy v = true ->
    (fold_left registerCustom entries (table, added)).1 !! name = Some v.
Proof.
  induction entries as [| [cmd mapping] rest IH];
    intros table added name v Hv Ht; [exact Hv |].
  cbn [fold_left]. rewrite registerCustom_eq.
  destruct (lookup_truthy table cmd) eqn:Hl; cbn [negb];
    [now apply IH |].
  apply IH; [| exact Ht].
  rewrite lookup_insert_ne; [exact Hv |].
  intros ->. rewrite (lookup_truthy_own _ _ _ Hv) in Hl. congruence.
Qed.

Lemma register_all_stays (entries : list (string * json)) :
  forall (table : gmap string value) (added : list string)
         (name : string),
    is_Some (table !! name) ->
    is_Some ((fold_left registerCustom entries (table, added)).1 !! name).
Proof.
  induction entries as [| [cmd mapping] rest IH];
    intros table added name Hs; [exact Hs |].
  cbn [fold_left]. rewrite registerCustom_eq.
  destruct (negb (lookup_truthy table cmd)); [| now apply IH].
  apply IH. destruct (decide (cmd = name)) as [-> | Hne].
  - rewrite lookup_insert_eq. eauto.
  - now rewrite lookup_insert_ne.
Qed.

Lemma property_of_cons (name cmd : string) (mapping : json)
      (rest : list (string * json)) :
  property_of name ((cmd, mapping) :: rest)
  = if String.eqb cmd name then Some mapping else property_of name rest.
Proof.
  unfold property_of. cbn [find fst].
  now destruct (String.eqb cmd name).
Qed.

Lemma property_of_absent (name : string) (fields : list (string * json)) :
  ~ In name (map fst fields) -> property_of name fields = None.
Proof.
  induction fields as [| [cmd mapping] rest IH]; [reflexivity |].
  cbn [map fst In]. intros H. rewrite property_of_cons.
  destruct (String.eqb_spec cmd name) as [-> | _]; [tauto |].
  apply IH. tauto.
Qed.

Lemma property_of_In (name : string) (mapping : json)
      (fields : list (string * json)) :
  List.NoDup (map fst fields) -> In (name, mapping) fields ->
  property_of name fields = Some mapping.
Proof.
  induction fields as [| [cmd m] rest IH]; [intros _ [] |].
  cbn [map fst]. intros Hnd Hin. apply List.NoDup_cons_iff in Hnd as [Hc Hnd].
  rewrite property_of_cons. destruct Hin as [[= -> ->] | Hin].
  - now rewrite String.eqb_refl.
  - destruct (String.eqb_spec cmd name) as [-> | _]; [| now apply IH].
    elim Hc. apply in_map_iff. now exists (name, mapping).
Qed.

(** What a registration leaves under every name, for a request whose
    names are distinct. *)
Lemma register_all_exact (entries : list (string * json)) :
  List.NoDup (map fst entries) ->
  forall (table : gmap string value) (added : list string)
         (name : string),
    (fold_left registerCustom entries (table, added)).1 !! name
    = registered table entries name.
Proof.
  unfold registered.
  induction entries as [| [cmd mapping] rest IH];
    intros Hnd table added name.
  - cbn. now destruct (lookup_truthy table name).
  - cbn [map fst] in Hnd. apply List.NoDup_cons_iff in Hnd as [Hc Hnd].
    cbn [fold_left]. rewrite registerCustom_eq, property_of_cons.
    destruct (lookup_truthy table cmd) eqn:Hl; cbn [negb].
    + rewrite (IH Hnd).
      destruct (String.eqb_spec cmd name) as [<- | _]; [| reflexivity].
      now rewrite Hl.
    + rewrite (IH Hnd).
      destruct (String.eqb_spec cmd name) as [<- | Hne].
      * rewrite Hl, (property_of_absent _ _ Hc), lookup_insert_eq.
        unfold lookup_truthy. rewrite lookup_insert_eq.
        now destruct (truthy (Parsed mapping)).
      * rewrite lookup_truthy_insert_ne, lookup_insert_ne by assumption.
        reflexivity.
Qed.

(** The names a registration lists, and the size of the table it
    leaves. *)
Lemma register_all_report (entries : list (string * json)) :
  List.NoDup (map fst entries) ->
  forall (table : gmap string value) (added : list string),
    let new :=
      map fst (List.filter (fun e => negb (lookup_truthy table (fst e)))
                           entries) in
    (fold_left registerCustom entries (table, added)).2 = added ++ new
    /\ size (fold_left registerCustom entries (table, added)).1
       = size table + length (List.filter (absent table) new).
Proof.
  induction entries as [| [cmd mapping] rest IH]; intros Hnd table added.
  - cbn. rewrite app_nil_r. split; [reflexivity | lia].
  - cbn [map fst] in Hnd. apply List.NoDup_cons_iff in Hnd as [Hc Hnd].
    cbn [fold_left]. rewrite registerCustom_eq. cbn [List.filter fst].
    destruct (lookup_truthy table cmd) eqn:Hl; cbn [negb];
      [exact (IH Hnd table added) |].
    destruct (IH Hnd (<[cmd := Parsed mapping]> table) (added ++ [cmd]))
      as [Hadded Hsize].
    assert (Hsame :
              List.filter
                (fun e => negb (lookup_truthy (<[cmd := Parsed mapping]> table)
                                              (fst e))) rest
              = List.filter (fun e => negb (lookup_truthy table (fst e)))
                            rest).
    { apply filter_ext_in. intros [k w] Hin. cbn [fst].
      rewrite lookup_truthy_insert_ne; [reflexivity |].
      intros ->. elim Hc. apply in_map_iff. now exists (k, w). }
    rewrite Hsame in Hadded, Hsize.
    set (new := map fst (List.filter _ rest)) in *.
    assert (Habsent :
              List.filter (absent (<[cmd := Parsed mapping]> table)) new
              = List.filter (absent table) new).
    { apply filter_ext_in. intros k Hin. unfold absent.
      rewrite lookup_insert_ne; [reflexivity |].
      intros ->. elim Hc. unfold new in Hin.
      apply in_map_iff in Hin as (e & <- & He).
      apply filter_In in He as [He _]. apply in_map_iff. now exists e. }
    rewrite Habsent in Hsize.
    split.
    + rewrite Hadded, <- app_assoc. reflexivity.
    + rewrite Hsize. cbn [map fst List.filter]. fold new.
      destruct (table !! cmd) as [v |] eqn:Hv.
      * replace (absent table cmd) with false
          by (unfold absent; now rewrite Hv).
        rewrite map_size_insert_Some by (rewrite Hv; eauto). reflexivity.
      * replace (absent table cmd) with true
          by (unfold absent; now rewrite Hv).
        rewrite map_size_insert_None by exact Hv. cbn [length]. lia.
Qed.

(** A registration over a table that already holds every value it would
    assign changes nothing. *)
Lemma register_all_settled (entries : list (string * json)) :
  forall (table : gmap string value) (added : list string),
    (forall cmd mapping,
        In (cmd, mapping) entries -> lookup_truthy table cmd = false ->
        table !! cmd = Some (Parsed mapping)) ->
    fold_left registerCustom entries (table, added)
    = (table,
       added ++ map fst (List.filter
                           (fun e => negb (lookup_truthy table (fst e)))
                           entries)).
Proof.
  induction entries as [| [cmd mapping] rest IH]; intros table added H.
  - cbn. now rewrite app_nil_r.
  - cbn [fold_left]. rewrite registerCustom_eq. cbn [List.filter fst].
    assert (Hrest : forall c m, In (c, m) rest ->
                                lookup_truthy table c = false ->
                                table !! c = Some (Parsed m))
      by (intros c m Hin; apply H; now right).
    destruct (lookup_truthy table cmd) eqn:Hl; cbn [negb];
      [now apply IH |].
    rewrite insert_id by (apply H; [now left | exact Hl]).
    rewrite (IH table (added ++ [cmd]) Hrest), <- app_assoc. reflexivity.
Qed.

End Registration.

(** C4 as stated fails: the mutator tests the truthiness of what the table
    holds, not whether the name has an entry.  After [false] has been
    registered under [tapOn], the table has an entry for [tapOn]; the next
    registration for [tapOn] replaces it and lists the name as added once
    more, while the number of entries stays 51. *)
Lemma C4_falsy_entry_is_overwritten :
  (Handlers.handleRegisterCustomCommands initial_table
     (Some falsy_request)).1 !! "tapOn"
  = Some (Handlers.Parsed (Handlers.JBool false))
  /\ (Handlers.handleRegisterCustomCommands
        (Handlers.handleRegisterCustomCommands initial_table
           (Some falsy_request)).1
        (Some tapOn_request)).1 !! "tapOn"
     = Some (Handlers.Parsed (mapping_object "tap" "Taps element"))
  /\ (Handlers.handleRegisterCustomCommands
        (Handlers.handleRegisterCustomCommands initial_table
           (Some falsy_request)).1
        (Some tapOn_request)).2
     = Returns {| Handlers.isError := false;
                  Handlers.addedCommands := ["tapOn"];
                  Handlers.total := 51 |}.
Proof. repeat split; vm_compute; reflexivity. Qed.

(** C4, amended.  A registration keeps every entry whose value is truthy
    (each mapping object of the literal, each object or array registered
    since), whatever the request holds for its name, and it removes no
    entry.  For a request whose names are distinct the table it leaves is
    known exactly: under a name whose lookup was truthy the entry is as it
    was, and under a name whose lookup was falsy (no entry and no inherited
    property, or an entry holding [null], [false], zero or the empty
    string) stands the requested value, when the request has one. *)
Theorem C4_registration_is_monotonic :
  forall (table : gmap string Handlers.value)
         (commands : option Handlers.json),
    (forall name v,
        table !! name = Some v -> Handlers.truthy v = true ->
        (Handlers.handleRegisterCustomCommands table commands).1 !! name
        = Some v)
    /\ (forall name,
           is_Some (table !! name) ->
           is_Some
             ((Handlers.handleRegisterCustomCommands table commands).1
                !! name))
    /\ (forall customCommands entries name,
           commands = Some customCommands ->
           Handlers.Object_entries customCommands = Some entries ->
           List.NoDup (map fst entries) ->
           (Handlers.handleRegisterCustomCommands table commands).1 !! name
           = registered table entries name).
Proof.
  intros table commands.
  assert (Htable :
            forall customCommands entries,
              commands = Some customCommands ->
              Handlers.Object_entries customCommands = Some entries ->
              (Handlers.handleRegisterCustomCommands table commands).1
              = (fold_left Handlers.registerCustom entries (table, [])).1).
  { intros customCommands entries -> He.
    cbn [Handlers.handleRegisterCustomCommands]. rewrite He.
    now destruct (fold_left Handlers.registerCustom entries (table, [])). }
  assert (Hcases :
            (Handlers.handleRegisterCustomCommands table commands).1 = table
            \/ exists customCommands entries,
                 commands = Some customCommands
                 /\ Handlers.Object_entries customCommands = Some entries).
  { destruct commands as [customCommands |]; [| now left].
    destruct (Handlers.Object_entries customCommands) as [entries |] eqn:He;
      [right; eauto |].
    left. cbn [Handlers.handleRegisterCustomCommands]. now rewrite He. }
  split; [| split].
  - intros name v Hv Ht.
    destruct Hcases as [-> | (c & entries & Hc & He)]; [exact Hv |].
    rewrite (Htable c entries Hc He). now apply register_all_keeps.
  - intros name Hs.
    destruct Hcases as [-> | (c & entries & Hc & He)]; [exact Hs |].
    rewrite (Htable c entries Hc He). now apply register_all_stays.
  - intros c entries name Hc He Hnd.
    rewrite (Htable c entries Hc He). now apply register_all_exact.
Qed.

Lemma C4_registration_witness :
  (Handlers.handleRegisterCustomCommands initial_table
     (Some custom_request)).1 !! "setValue"
  = Some (Handlers.Mapping
            {| Mappings.method := "fill"; Mappings.options := None;
               Mappings.description := "Clears and fills input" |})
  /\ is_Some
       ((Handlers.handleRegisterCustomCommands initial_table
           (Some custom_request)).1 !! "click")
  /\ (Handlers.handleRegisterCustomCommands initial_table
        (Some custom_request)).1 !! "tapOn"
     = registered initial_table
         [("setValue", mapping_object "type" "Types text");
          ("tapOn", mapping_object "tap" "Taps element")] "tapOn".
Proof.
  split; [| split].
  - apply (proj1 (C4_registration_is_monotonic initial_table
                    (Some custom_request))); reflexivity.
  - apply (proj1 (proj2 (C4_registration_is_monotonic initial_table
                           (Some custom_request)))).
    vm_compute. eauto.
  - apply (proj2 (proj2 (C4_registration_is_monotonic initial_table
                           (Some custom_request)))
             custom_request); [reflexivity | reflexivity |].
    cbn. repeat constructor; cbn; intuition discriminate.
Defined.

(** ** Idempotence of the migration *)

(** What [detectFramework] returns, when it returns, is the verdict on
    the tree. *)
Lemma detectFramework_returns (crawl : File -> bool) (ast : File)
      (framework : FrameworkVerdict) :
  detectFramework crawl ast = Returns framework ->
  crawl ast = true /\ framework = verdict ast.
Proof.
  unfold detectFramework. destruct (crawl ast); [| discriminate].
  intros [= <-]. split; reflexivity.
Qed.

Section Idempotence.
Variable parseCode : string -> option File.
Variable crawl : File -> bool.
Variable generate : File -> string.
Variable Analysis : Type.

Lemma migrate_target_only (table : gmap string Mappings.CommandMapping)
      (text : string) (analysis : option Analysis) (isTypeScript : bool) :
  target_only parseCode crawl text ->
  performAstMigration parseCode crawl generate Analysis table text analysis
                      isTypeScript
  = Returns (already_migrated text).
Proof.
  intros (ast & framework & Hparse & Hdetect & Hpw).
  unfold performAstMigration.
  rewrite Hparse, Hdetect. cbn [bind]. rewrite Hpw. reflexivity.
Qed.

Lemma migrate_crawl_fails (table : gmap string Mappings.CommandMapping)
      (text : string) (ast : File) (analysis : option Analysis)
      (isTypeScript : bool) :
  parseCode text = Some ast -> crawl ast = false ->
  performAstMigration parseCode crawl generate Analysis table text analysis
                      isTypeScript
  = Throws TypeError.
Proof.
  intros Hparse Hcrawl. unfold performAstMigration, detectFramework.
  rewrite Hparse, Hcrawl. reflexivity.
Qed.

End Idempotence.

(** A file with two imports from chai is migrated to a file that imports
    [test] and [expect] twice.  The verdict on that file is Playwright
    only, but its scopes cannot be built: the classifier throws, and so
    does a migration of the migrated file. *)
Example twice_imported_migration_throws :
  (exists st,
      transformAst Mappings.COMMAND_MAPPINGS chai_imports false
      = Returns (twice_imported, st))
  /\ isPlaywright (verdict twice_imported) = true
  /\ detectFramework sample_crawl twice_imported = Throws TypeError
  /\ performAstMigration sample_parseCode sample_crawl sample_generate unit
       Mappings.COMMAND_MAPPINGS twice_imported_source None false
     = Throws TypeError.
Proof.
  split; [eexists; vm_compute; reflexivity |].
  repeat split; vm_compute; reflexivity.
Qed.

(** C1.  When the framework classifier reports Playwright only for a text
    (it returns, and its verdict is [isPlaywright]), [performAstMigration]
    returns that text unchanged, with the single note that the file
    already uses Playwright syntax and no change; hence migrating the code
    of a migration result that is Playwright only returns the same code.
    When the classifier throws instead, because the scopes of the parsed
    tree cannot be built, the migration throws with it. *)
Theorem C1_migration_of_target_only_is_noop :
  forall (parseCode : string -> option File) (crawl : File -> bool)
         (generate : File -> string) (Analysis : Type),
    (forall table text analysis isTypeScript,
        target_only parseCode crawl text ->
        performAstMigration parseCode crawl generate Analysis table text
                            analysis isTypeScript
        = Returns (already_migrated text))
    /\ (forall table table' x analysis analysis' isTypeScript isTypeScript'
               r,
           performAstMigration parseCode crawl generate Analysis table x
                               analysis isTypeScript = Returns r ->
           target_only parseCode crawl (result_code r) ->
           performAstMigration parseCode crawl generate Analysis table'
                               (result_code r) analysis' isTypeScript'
           = Returns (already_migrated (result_code r)))
    /\ (forall table text ast analysis isTypeScript,
           parseCode text = Some ast -> crawl ast = false ->
           performAstMigration parseCode crawl generate Analysis table text
                               analysis isTypeScript
           = Throws TypeError).
Proof.
  intros parseCode crawl generate Analysis. split; [| split].
  - intros. now apply migrate_target_only.
  - intros. now apply migrate_target_only.
  - intros. now apply (migrate_crawl_fails _ _ _ _ _ _ ast).
Qed.

Lemma C1_migration_witness :
  performAstMigration sample_parseCode sample_crawl sample_generate unit
    Mappings.COMMAND_MAPPINGS login_click_migrated_source None false
  = Returns (already_migrated login_click_migrated_source)
  /\ performAstMigration sample_parseCode sample_crawl sample_generate unit
       Mappings.COMMAND_MAPPINGS
       (sample_generate login_click_migrated) None true
     = Returns (already_migrated login_click_migrated_source)
  /\ performAstMigration sample_parseCode sample_crawl sample_generate unit
       Mappings.COMMAND_MAPPINGS twice_imported_source None false
     = Throws TypeError.
Proof.
  split; [| split].
  - apply (proj1 (C1_migration_of_target_only_is_noop
                    sample_parseCode sample_crawl sample_generate unit)).
    exists login_click_migrated, (verdict login_click_migrated).
    repeat split; reflexivity.
  - apply (proj1 (proj2 (C1_migration_of_target_only_is_noop
                           sample_parseCode sample_crawl sample_generate
                           unit))
                 Mappings.COMMAND_MAPPINGS Mappings.COMMAND_MAPPINGS
                 login_click_source None None false true
                 {| result_code := login_click_migrated_source;
                    notes := generateMigrationNotes
                               ["Transformed .click() to .click()";
                                "Transformed $('#login') to page.locator('#login')";
                                "Added @playwright/test import"] false;
                    result_changes :=
                      ["Transformed .click() to .click()";
                       "Transformed $('#login') to page.locator('#login')";
                       "Added @playwright/test import"];
                    tags := [] |}).
    + reflexivity.
    + exists login_click_migrated, (verdict login_click_migrated).
      repeat split; reflexivity.
  - apply (proj2 (proj2 (C1_migration_of_target_only_is_noop
                           sample_parseCode sample_crawl sample_generate
                           unit))
                 Mappings.COMMAND_MAPPINGS twice_imported_source
                 twice_imported None false);
      reflexivity.
Defined.
(** ** Stripping and extracting tags *)

Section Scanning.

Lemma chars_of_str_of (l : chars) : chars_of (str_of l) = l.
Proof. apply list_ascii_of_string_of_list_ascii. Qed.

Lemma suffix_ind (P : chars -> Prop) :
  P [] ->
  (forall c t, (forall k, P (skipn k t)) -> P (c :: t)) ->
  forall s, P s.
Proof.
  intros Hnil Hcons s.
  assert (H : forall n s, length s <= n -> P s).
  { induction n as [| n IH]; intros [| c t] Hlen; try exact Hnil.
    - cbn in Hlen. lia.
    - apply Hcons. intros k. apply IH.
      rewrite length_skipn. cbn in Hlen. lia. }
  apply (H (length s)). lia.
Qed.

Lemma scan_skip (p : pattern) (k : nat) (s : chars) :
  scan p k s = scan p 0 (skipn k s).
Proof.
  revert k. induction s as [| c t IH]; intros [| k]; try reflexivity.
  cbn [scan skipn]. apply IH.
Qed.

Lemma replace_all_cons (p : pattern) (f : chars -> chars) (c : ascii)
      (t : chars) :
  replace_all p f (c :: t)
  = match p (c :: t) with
    | Some (cap, len) => f cap ++ replace_all p f (skipn (pred len) t)
    | None => c :: replace_all p f t
    end.
Proof.
  unfold replace_all. cbn [scan].
  destruct (p (c :: t)) as [[cap len] |]; cbn [flat_map];
    [rewrite scan_skip |]; reflexivity.
Qed.

Lemma exec_all_cons (p : pattern) (c : ascii) (t : chars) :
  exec_all p (c :: t)
  = match p (c :: t) with
    | Some (cap, len) => cap :: exec_all p (skipn (pred len) t)
    | None => exec_all p t
    end.
Proof.
  unfold exec_all. cbn [scan].
  destruct (p (c :: t)) as [[cap len] |]; cbn [flat_map capture_of app];
    [rewrite scan_skip |]; reflexivity.
Qed.

Lemma span_skipn (f : ascii -> bool) (s : chars) :
  snd (span f s) = skipn (length (fst (span f s))) s.
Proof.
  induction s as [| c t IH]; [reflexivity |].
  cbn [span]. destruct (f c); [| reflexivity].
  destruct (span f t) as [a b]. cbn in *. exact IH.
Qed.

Lemma span_stops (f : ascii -> bool) (s : chars) :
  match snd (span f s) with
  | [] => True
  | c :: _ => f c = false
  end.
Proof.
  induction s as [| c t IH]; [exact I |].
  cbn [span]. destruct (f c) eqn:Hc; [| exact Hc].
  destruct (span f t) as [a b]. exact IH.
Qed.

Lemma span_app_all (f : ascii -> bool) (w rest : chars) :
  forallb f w = true ->
  match rest with [] => True | c :: _ => f c = false end ->
  span f (w ++ rest) = (w, rest).
Proof.
  intros Hw Hrest. induction w as [| c w IH].
  - destruct rest as [| d rest]; [reflexivity |]. cbn. now rewrite Hrest.
  - cbn in Hw. apply andb_prop in Hw as [Hc Hw].
    cbn. rewrite Hc, (IH Hw). reflexivity.
Qed.

(** *** The prefixed patterns *)

Lemma prefixed_some (mk c : ascii) (t cap : chars) (len : nat) :
  prefixed mk (c :: t) = Some (cap, len) ->
  c = mk /\ skipn (pred len) t = snd (span is_word t).
Proof.
  unfold prefixed. destruct (Ascii.eqb c mk) eqn:Hc; [| discriminate].
  apply Ascii.eqb_eq in Hc.
  pose proof (span_skipn is_word t) as Hs.
  destruct (span is_word t) as [[| d run] rest]; [discriminate |].
  intros [= <- <-]. split; [assumption |]. cbn [pred]. now rewrite Hs.
Qed.

Lemma prefixed_none (mk c : ascii) (t : chars) :
  prefixed mk (c :: t) = None -> c = mk -> word_ends t = true.
Proof.
  unfold prefixed. intros H ->. rewrite Ascii.eqb_refl in H.
  destruct t as [| d t]; [reflexivity |].
  cbn [span] in H. cbn. destruct (is_word d); [| reflexivity].
  destruct (span is_word t); discriminate.
Qed.

Lemma word_ends_after_span (t : chars) :
  word_ends (snd (span is_word t)) = true.
Proof.
  pose proof (span_stops is_word t) as H.
  destruct (snd (span is_word t)); [reflexivity |]. cbn. now rewrite H.
Qed.

Lemma remove_prefixed_word_ends (mk : ascii) (s : chars) :
  word_ends s = true -> word_ends (remove_all (prefixed mk) s) = true.
Proof.
  induction s as [| c t IH] using suffix_ind; [reflexivity |].
  intros Hc. unfold remove_all in *. rewrite replace_all_cons.
  destruct (prefixed mk (c :: t)) as [[cap len] |] eqn:Hp.
  - apply prefixed_some in Hp as [_ ->]. cbn [app].
    rewrite span_skipn. apply IH. rewrite <- span_skipn.
    apply word_ends_after_span.
  - exact Hc.
Qed.

Lemma has_prefixed_tag_cons (mk c : ascii) (t : chars) :
  has_prefixed_tag mk (c :: t) = false
  <-> (c = mk -> word_ends t = true) /\ has_prefixed_tag mk t = false.
Proof.
  cbn [has_prefixed_tag]. rewrite orb_false_iff, andb_false_iff.
  unfold word_ends. split.
  - intros [[Hc | Hw] Ht]; split; try assumption.
    + intros ->. rewrite Ascii.eqb_refl in Hc. discriminate.
    + intros _. destruct t; [reflexivity | now rewrite Hw].
  - intros [Hc Ht]. split; [| assumption].
    destruct (Ascii.eqb c mk) eqn:E; [| now left]. right.
    apply Ascii.eqb_eq in E. specialize (Hc E).
    destruct t; [reflexivity |]. now apply negb_true_iff in Hc.
Qed.

Lemma has_prefixed_tag_skipn (mk : ascii) (k : nat) (s : chars) :
  has_prefixed_tag mk s = false -> has_prefixed_tag mk (skipn k s) = false.
Proof.
  revert s. induction k as [| k IH]; intros [| c t] H; try assumption.
  cbn [skipn]. apply IH. now apply has_prefixed_tag_cons in H.
Qed.

Lemma has_prefixed_tag_firstn (mk : ascii) (k : nat) (s : chars) :
  has_prefixed_tag mk s = false -> has_prefixed_tag mk (firstn k s) = false.
Proof.
  revert s. induction k as [| k IH]; intros [| c t] H; try reflexivity.
  cbn [firstn]. apply has_prefixed_tag_cons in H as [Hc Ht].
  apply has_prefixed_tag_cons. split; [| now apply IH].
  intros E. specialize (Hc E).
  destruct k, t; try reflexivity. exact Hc.
Qed.

(** Removing the tags of a marker leaves none of them. *)
Lemma remove_prefixed_leaves_none (mk : ascii) (s : chars) :
  has_prefixed_tag mk (remove_all (prefixed mk) s) = false.
Proof.
  induction s as [| c t IH] using suffix_ind; [reflexivity |].
  unfold remove_all in *. rewrite replace_all_cons.
  destruct (prefixed mk (c :: t)) as [[cap len] |] eqn:Hp.
  - cbn [app]. apply IH.
  - apply has_prefixed_tag_cons. split; [| apply (IH 0)].
    intros E. apply remove_prefixed_word_ends.
    now apply (prefixed_none mk c).
Qed.

(** Removing the tags of one marker brings in none of another. *)
Lemma remove_prefixed_keeps_none (mk mk' : ascii) (s : chars) :
  has_prefixed_tag mk s = false ->
  has_prefixed_tag mk (remove_all (prefixed mk') s) = false.
Proof.
  induction s as [| c t IH] using suffix_ind; [reflexivity |].
  intros H. unfold remove_all in *. rewrite replace_all_cons.
  apply has_prefixed_tag_cons in H as [Hc Ht].
  destruct (prefixed mk' (c :: t)) as [[cap len] |] eqn:Hp.
  - cbn [app]. apply IH. now apply has_prefixed_tag_skipn.
  - apply has_prefixed_tag_cons. split; [| now apply (IH 0)].
    intros E. apply remove_prefixed_word_ends. now apply Hc.
Qed.

(** *** Trimming and collapsing white space *)

Lemma trim_chars_slice (s : chars) :
  exists j k, trim_chars s = firstn k (skipn j s).
Proof.
  unfold trim_chars, trim_start.
  exists (length (fst (span is_space s))).
  rewrite <- (span_skipn is_space s).
  set (u := snd (span is_space s)).
  rewrite (span_skipn is_space (rev u)).
  set (j := length (fst (span is_space (rev u)))).
  exists (length u - j).
  rewrite skipn_rev, rev_involutive. reflexivity.
Qed.

Lemma trim_keeps_none (mk : ascii) (s : chars) :
  has_prefixed_tag mk s = false ->
  has_prefixed_tag mk (trim_chars s) = false.
Proof.
  intros H. destruct (trim_chars_slice s) as (j & k & ->).
  now apply has_prefixed_tag_firstn, has_prefixed_tag_skipn.
Qed.

Lemma spaces_none (c : ascii) (t : chars) :
  spaces (c :: t) = None -> is_space c = false.
Proof.
  unfold spaces. cbn [span]. destruct (is_space c); [| reflexivity].
  destruct (span is_space t). discriminate.
Qed.

Lemma space_not_word (c : ascii) : is_space c = true -> is_word c = false.
Proof.
  destruct c as [[] [] [] [] [] [] [] []]; vm_compute; congruence.
Qed.

Lemma collapse_word_ends (s : chars) :
  word_ends s = true -> word_ends (collapse s) = true.
Proof.
  destruct s as [| c t]; [reflexivity |]. intros H.
  unfold collapse. rewrite replace_all_cons.
  destruct (spaces (c :: t)) as [[cap len] |]; [reflexivity | exact H].
Qed.

Lemma collapse_keeps_none (mk : ascii) (s : chars) :
  mk <> " "%char ->
  has_prefixed_tag mk s = false -> has_prefixed_tag mk (collapse s) = false.
Proof.
  intros Hmk. induction s as [| c t IH] using suffix_ind; [reflexivity |].
  intros H. unfold collapse in *. rewrite replace_all_cons.
  apply has_prefixed_tag_cons in H as [Hc Ht].
  destruct (spaces (c :: t)) as [[cap len] |] eqn:Hp.
  - cbn [app]. apply has_prefixed_tag_cons. split.
    + intros E. congruence.
    + apply IH. now apply has_prefixed_tag_skipn.
  - apply has_prefixed_tag_cons. split; [| now apply (IH 0)].
    intros E. apply collapse_word_ends. now apply Hc.
Qed.

Lemma removeTagsFromString_chars (str : string) :
  chars_of (removeTagsFromString str)
  = collapse
      (trim_chars
         (remove_all (prefixed "#")
            (remove_all (prefixed "@")
               (remove_all bracketed (chars_of str))))).
Proof. unfold removeTagsFromString. now rewrite chars_of_str_of. Qed.

Lemma strip_leaves_no_prefixed_tag (str : string) :
  has_prefixed_tag "@" (chars_of (removeTagsFromString str)) = false
  /\ has_prefixed_tag "#" (chars_of (removeTagsFromString str)) = false.
Proof.
  rewrite removeTagsFromString_chars. split.
  - apply collapse_keeps_none; [discriminate |].
    apply trim_keeps_none, remove_prefixed_keeps_none,
      remove_prefixed_leaves_none.
  - apply collapse_keeps_none; [discriminate |].
    apply trim_keeps_none, remove_prefixed_leaves_none.
Qed.

(** *** Characters of the result *)

Lemma In_skipn (c : ascii) (k : nat) (s : chars) :
  In c (skipn k s) -> In c s.
Proof.
  intros H. rewrite <- (firstn_skipn k s). apply in_or_app. now right.
Qed.

Lemma In_firstn (c : ascii) (k : nat) (s : chars) :
  In c (firstn k s) -> In c s.
Proof.
  intros H. rewrite <- (firstn_skipn k s). apply in_or_app. now left.
Qed.

Lemma In_replace_all (p : pattern) (f : chars -> chars) (x : ascii)
      (s : chars) :
  In x (replace_all p f s) -> In x s \/ exists cap, In x (f cap).
Proof.
  induction s as [| c t IH] using suffix_ind; [intros [] |].
  rewrite replace_all_cons.
  destruct (p (c :: t)) as [[cap len] |].
  - intros H. apply in_app_or in H as [H | H]; [right; eauto |].
    apply IH in H as [H | H]; [| now right].
    left. right. now apply In_skipn in H.
  - intros [-> | H]; [left; now left |].
    apply (IH 0) in H as [H | H]; [left; now right | now right].
Qed.

Lemma has_char_false (c : ascii) (s : chars) :
  has_char c s = false <-> ~ In c s.
Proof.
  unfold has_char. rewrite <- not_true_iff_false, existsb_exists. split.
  - intros H Hin. apply H. exists c. split; [assumption |].
    apply Ascii.eqb_refl.
  - intros H (x & Hin & E). apply Ascii.eqb_eq in E. now subst.
Qed.

Lemma remove_all_keeps_absent (p : pattern) (c : ascii) (s : chars) :
  has_char c s = false -> has_char c (remove_all p s) = false.
Proof.
  rewrite !has_char_false. intros H Hin. apply H.
  apply In_replace_all in Hin as [Hin | (cap & [])]. exact Hin.
Qed.

Lemma trim_keeps_absent (c : ascii) (s : chars) :
  has_char c s = false -> has_char c (trim_chars s) = false.
Proof.
  rewrite !has_char_false. intros H Hin. apply H.
  destruct (trim_chars_slice s) as (j & k & E). rewrite E in Hin.
  now apply In_firstn, In_skipn in Hin.
Qed.

Lemma collapse_keeps_absent (c : ascii) (s : chars) :
  c <> " "%char ->
  has_char c s = false -> has_char c (collapse s) = false.
Proof.
  rewrite !has_char_false. intros Hc H Hin. apply H.
  apply In_replace_all in Hin as [Hin | (cap & [E | []])];
    [exact Hin | congruence].
Qed.

(** *** The bracketed pattern *)

Lemma bracketed_some (c : ascii) (t cap : chars) (len : nat) :
  bracketed (c :: t) = Some (cap, len) -> c = "["%char.
Proof.
  unfold bracketed.
  destruct (Ascii.eqb c "[") eqn:E; [now apply Ascii.eqb_eq in E |].
  destruct c as [[] [] [] [] [] [] [] []]; try discriminate.
Qed.

Lemma every_bracket_opens_tag_skipn (k : nat) (s : chars) :
  every_bracket_opens_tag s = true ->
  every_bracket_opens_tag (skipn k s) = true.
Proof.
  revert s. induction k as [| k IH]; intros [| c t] H; try assumption.
  cbn [skipn]. apply IH. cbn [every_bracket_opens_tag] in H.
  now apply andb_prop in H.
Qed.

Lemma remove_bracketed_leaves_no_bracket (s : chars) :
  every_bracket_opens_tag s = true ->
  has_char "[" (remove_all bracketed s) = false.
Proof.
  induction s as [| c t IH] using suffix_ind; [reflexivity |].
  intros H. unfold remove_all in *. rewrite replace_all_cons.
  cbn [every_bracket_opens_tag] in H. apply andb_prop in H as [Hc Ht].
  destruct (bracketed (c :: t)) as [[cap len] |] eqn:Hb.
  - cbn [app]. apply IH. now apply every_bracket_opens_tag_skipn.
  - destruct (Ascii.eqb c "[") eqn:E; [discriminate |].
    unfold has_char. cbn [existsb]. rewrite Ascii.eqb_sym, E.
    apply (IH 0). exact Ht.
Qed.

Lemma strip_leaves_no_bracket (str : string) :
  every_bracket_opens_tag (chars_of str) = true ->
  has_char "[" (chars_of (removeTagsFromString str)) = false.
Proof.
  intros H. rewrite removeTagsFromString_chars.
  apply collapse_keeps_absent; [discriminate |].
  apply trim_keeps_absent.
  do 2 apply remove_all_keeps_absent.
  now apply remove_bracketed_leaves_no_bracket.
Qed.

(** *** One tag in plain text *)

Lemma bracketed_starts : starts_at "[" bracketed.
Proof.
  intros c t H. destruct (bracketed (c :: t)) as [[cap len] |] eqn:E;
    [| congruence].
  now apply bracketed_some in E.
Qed.

Lemma prefixed_starts (mk : ascii) : starts_at mk (prefixed mk).
Proof.
  intros c t H. destruct (prefixed mk (c :: t)) as [[cap len] |] eqn:E;
    [| congruence].
  now apply prefixed_some in E.
Qed.

Lemma exec_all_absent (p : pattern) (mk : ascii) (s : chars) :
  starts_at mk p -> has_char mk s = false -> exec_all p s = [].
Proof.
  intros Hp. induction s as [| c t IH]; [reflexivity |].
  unfold has_char. cbn [existsb]. intros H.
  apply orb_false_iff in H as [Hc Ht].
  rewrite exec_all_cons.
  destruct (p (c :: t)) eqn:E; [| now apply IH].
  assert (c = mk) by (apply (Hp c t); congruence). subst.
  rewrite Ascii.eqb_refl in Hc. discriminate.
Qed.

Lemma exec_all_after_absent (p : pattern) (mk : ascii) (pre rest : chars) :
  starts_at mk p -> has_char mk pre = false ->
  exec_all p (pre ++ rest) = exec_all p rest.
Proof.
  intros Hp. induction pre as [| c pre IH]; [reflexivity |].
  unfold has_char. cbn [existsb]. intros H.
  apply orb_false_iff in H as [Hc Ht].
  cbn [app]. rewrite exec_all_cons.
  destruct (p (c :: pre ++ rest)) eqn:E; [| now apply IH].
  assert (c = mk) by (apply (Hp c (pre ++ rest)); congruence). subst.
  rewrite Ascii.eqb_refl in Hc. discriminate.
Qed.

Lemma has_char_app (c : ascii) (a b : chars) :
  has_char c (a ++ b) = has_char c a || has_char c b.
Proof. apply existsb_app. Qed.

Lemma plain_has_no_marker (mk : ascii) (s : chars) :
  is_marker mk = true -> plain s = true -> has_char mk s = false.
Proof.
  intros Hmk Hs. apply has_char_false. intros Hin.
  unfold plain in Hs. rewrite forallb_forall in Hs.
  specialize (Hs _ Hin). now rewrite Hmk in Hs.
Qed.

Lemma token_char_not_marker (c : ascii) :
  is_word c = true -> is_marker c = false.
Proof.
  destruct c as [[] [] [] [] [] [] [] []]; vm_compute; congruence.
Qed.

Lemma word_has_no_marker (mk : ascii) (w : chars) :
  is_marker mk = true -> forallb is_word w = true ->
  has_char mk w = false.
Proof.
  intros Hmk Hw. apply has_char_false. intros Hin.
  rewrite forallb_forall in Hw. specialize (Hw _ Hin).
  apply token_char_not_marker in Hw. congruence.
Qed.

Lemma token_char_word (c : ascii) :
  is_token_char c = true ->
  is_word c = true /\ is_bracket_tag_char c = true.
Proof.
  destruct c as [[] [] [] [] [] [] [] []]; vm_compute; intuition congruence.
Qed.

Lemma token_words (w : chars) :
  is_token w = true ->
  w <> [] /\ forallb is_word w = true
  /\ forallb is_bracket_tag_char w = true.
Proof.
  intros H. destruct w as [| c w]; [discriminate |].
  unfold is_token in H. split; [discriminate |].
  rewrite !forallb_forall. rewrite forallb_forall in H.
  split; intros x Hx; now apply token_char_word, H.
Qed.

Lemma first_occurrences_single (x : string) : first_occurrences [x] = [x].
Proof. reflexivity. Qed.

(** A prefixed tag in plain text: its token is the one token found. *)
Lemma extract_prefixed_tag (mk : ascii) (pre v post : chars) :
  mk = "@"%char \/ mk = "#"%char ->
  v <> [] -> forallb is_word v = true ->
  plain pre = true -> plain post = true -> word_ends post = true ->
  extractTagsFromString (str_of (pre ++ mk :: v ++ post))
  = [toLowerCase (str_of v)].
Proof.
  intros Hmk Hv Hw Hpre Hpost Hend.
  assert (Hhere : prefixed mk (mk :: v ++ post)
                  = Some (v, S (length v))).
  { unfold prefixed. rewrite Ascii.eqb_refl.
    rewrite (span_app_all is_word v post Hw).
    - destruct v; [congruence | reflexivity].
    - destruct post as [| d post]; [exact I |].
      cbn in Hend. now apply negb_true_iff in Hend. }
  assert (Hfound : exec_all (prefixed mk) (pre ++ mk :: v ++ post) = [v]).
  { rewrite (exec_all_after_absent _ mk), exec_all_cons, Hhere.
    - cbn [pred]. rewrite skipn_app, skipn_all, Nat.sub_diag.
      cbn [skipn app].
      rewrite (exec_all_absent _ mk); [reflexivity | |].
      + apply prefixed_starts.
      + apply plain_has_no_marker; [| assumption].
        destruct Hmk as [-> | ->]; reflexivity.
    - apply prefixed_starts.
    - apply plain_has_no_marker; [| assumption].
      destruct Hmk as [-> | ->]; reflexivity. }
  assert (Hother : forall (p : pattern) (mk' : ascii),
             starts_at mk' p -> is_marker mk' = true -> mk' <> mk ->
             exec_all p (pre ++ mk :: v ++ post) = []).
  { intros p mk' Hp Hm Hne. apply (exec_all_absent p mk' _ Hp).
    rewrite has_char_app. change (mk :: v ++ post) with ([mk] ++ v ++ post).
    rewrite !has_char_app.
    rewrite (plain_has_no_marker mk' pre), (plain_has_no_marker mk' post),
      (word_has_no_marker mk' v) by assumption.
    unfold has_char. cbn [existsb].
    apply Ascii.eqb_neq in Hne. now rewrite Hne. }
  rewrite extractTagsFromString_spec. unfold tokens_of.
  rewrite chars_of_str_of.
  rewrite (Hother bracketed "["%char bracketed_starts eq_refl)
    by (destruct Hmk as [-> | ->]; discriminate).
  destruct Hmk as [-> | ->].
  - rewrite Hfound.
    rewrite (Hother (prefixed "#") "#"%char (prefixed_starts _) eq_refl)
      by discriminate.
    reflexivity.
  - rewrite Hfound.
    rewrite (Hother (prefixed "@") "@"%char (prefixed_starts _) eq_refl)
      by discriminate.
    reflexivity.
Qed.

(** A bracketed tag in plain text: its token is the one token found. *)
Lemma extract_bracketed_tag (pre w post : chars) :
  is_token w = true -> plain pre = true -> plain post = true ->
  extractTagsFromString (str_of (pre ++ "["%char :: w ++ "]"%char :: post))
  = [toLowerCase (str_of w)].
Proof.
  intros Hw Hpre Hpost.
  apply token_words in Hw as (Hne & Hword & Hbr).
  assert (Hhere : bracketed ("["%char :: w ++ "]"%char :: post)
                  = Some (w, length w + 2)).
  { unfold bracketed.
    rewrite (span_app_all is_bracket_tag_char w ("]"%char :: post) Hbr);
      [| reflexivity].
    destruct w; [congruence | reflexivity]. }
  assert (Hfound : exec_all bracketed
                     (pre ++ "["%char :: w ++ "]"%char :: post) = [w]).
  { rewrite (exec_all_after_absent _ "["%char), exec_all_cons, Hhere.
    - replace (pred (length w + 2)) with (length w + 1) by lia.
      rewrite skipn_app.
      replace (length w + 1 - length w) with 1 by lia.
      rewrite skipn_all2 by lia. cbn [app skipn].
      rewrite (exec_all_absent _ "["%char); [reflexivity | |].
      + apply bracketed_starts.
      + now apply plain_has_no_marker.
    - apply bracketed_starts.
    - now apply plain_has_no_marker. }
  assert (Hother : forall (mk' : ascii),
             mk' = "@"%char \/ mk' = "#"%char ->
             exec_all (prefixed mk')
                      (pre ++ "["%char :: w ++ "]"%char :: post) = []).
  { intros mk' Hmk. apply (exec_all_absent _ mk' _ (prefixed_starts mk')).
    change ("["%char :: w ++ "]"%char :: post)
      with (["["%char] ++ w ++ ["]"%char] ++ post).
    rewrite !has_char_app.
    rewrite (plain_has_no_marker mk' pre), (plain_has_no_marker mk' post),
      (word_has_no_marker mk' w);
      try assumption; destruct Hmk as [-> | ->]; reflexivity. }
  rewrite extractTagsFromString_spec. unfold tokens_of.
  rewrite chars_of_str_of, Hfound, !Hother by tauto.
  reflexivity.
Qed.

Lemma toLowerCase_variant (v w : chars) :
  map toLowerChar v = map toLowerChar w ->
  toLowerCase (str_of v) = toLowerCase (str_of w).
Proof.
  intros H. unfold toLowerCase. now rewrite !chars_of_str_of, H.
Qed.

End Scanning.

(** C3.  [removeTagsFromString] removes the matches of each pattern in
    one pass over the text, so a tag that only stands once an inner match
    is gone stays in what the function returns as the cleaned text.  The
    text [A[A]] holds the tag [A], and stripping it leaves the text [A];
    stripping [SMOKE@P1] from a test name leaves [SMOKE], which the
    extraction then reports as a tag.  Besides, the token p-1 is p-1 in
    the bracketed syntax and p in the two prefixed ones. *)
Theorem C3_tag_survives_and_token_differs :
  exec_all bracketed (chars_of "[A[A]]") = [chars_of "A"]
  /\ removeTagsFromString "[A[A]]" = "[A]"
  /\ extractTagsFromString (removeTagsFromString "[A[A]]") = ["a"]
  /\ extractTagsFromString "[A] [A@x]" = ["a"; "x"]
  /\ removeTagsFromString "[A] [A@x]" = "[A]"
  /\ removeTagsFromString "should login [SMOKE@P1]" = "should login [SMOKE]"
  /\ extractTagsFromString (removeTagsFromString "should login [SMOKE@P1]")
     = ["smoke"]
  /\ extractTagsFromString "[P-1]" = ["p-1"]
  /\ extractTagsFromString "@p-1" = ["p"]
  /\ extractTagsFromString "#p-1" = ["p"].
Proof. repeat split; reflexivity. Qed.
(** ** The replacements of the selector rule *)

(** Whatever [parseExpression] returns is a call of a member of an
    identifier with one string literal: below its top node there is no
    call, import or declaration for the traversal to visit. *)
Lemma parseExpression_shape (code : string) (n : node) :
  parseExpression code = Returns n ->
  exists object method value,
    n = CallExpression
          (MemberExpression (Identifier object) (Identifier method) false)
          [StringLiteral value].
Proof.
  unfold parseExpression, parse_after_argument.
  repeat match goal with
         | |- context [match ?x with _ => _ end] => destruct x
         end;
    try discriminate.
  intros [= <-]. eauto.
Qed.


(** ** The traversal has fuel enough *)

Section Fuel.

Lemma bind_finishes {A B : Type} (x : outcome A) (f : A -> outcome B) :
  finishes x ->
  (forall a, x = Returns a -> finishes (f a)) ->
  finishes (bind x f).
Proof.
  intros Hx Hf. destruct x as [a | e | |]; cbn.
  - now apply Hf.
  - discriminate.
  - discriminate.
  - now elim Hx.
Qed.

Lemma depth_list (l : list node) :
  (fix all (l : list node) : nat :=
     match l with
     | [] => 0
     | x :: t => Nat.max (depth x) (all t)
     end) l = depth_all l.
Proof.
  induction l as [| x l IH]; [reflexivity |].
  rewrite IH. reflexivity.
Qed.

Lemma depth_all_cons (x : node) (l : list node) :
  depth_all (x :: l) = Nat.max (depth x) (depth_all l).
Proof. reflexivity. Qed.

Lemma depth_all_In (x : node) (l : list node) :
  In x l -> depth x <= depth_all l.
Proof.
  induction l as [| y l IH]; [intros [] |].
  rewrite depth_all_cons. intros [-> | H]; [lia |]. specialize (IH H). lia.
Qed.

Lemma depth_positive (n : node) : 1 <= depth n.
Proof. destruct n; cbn; lia. Qed.

Lemma depth_with_page_fixture (callback : node) :
  depth (with_page_fixture callback) = depth callback.
Proof.
  destruct callback as [| | | | | | params body async | id params body async
                        | | | | | | | | | | | | | | |];
    try reflexivity; destruct params; try reflexivity.
  - cbn. lia.
  - cbn. lia.
Qed.

Lemma depth_all_update_at (i : nat) (l : list node) :
  depth_all (update_at i with_page_fixture l) = depth_all l.
Proof.
  revert i. induction l as [| x l IH]; intros [| i]; try reflexivity.
  - cbn. now rewrite depth_with_page_fixture.
  - cbn. now rewrite IH.
Qed.

Lemma within_with_callee (bound : nat) (callee : node) (v : visited) :
  depth callee <= bound -> within bound v ->
  within bound (with_callee callee v).
Proof. destruct v as [c a | r]; cbn; [tauto |]. now destruct r. Qed.

Lemma within_with_arguments (bound : nat) (arguments : list node)
      (v : visited) :
  depth_all arguments <= bound -> within bound v ->
  within bound (with_arguments arguments v).
Proof. destruct v as [c a | r]; cbn; [tauto |]. now destruct r. Qed.

Lemma within_arguments_of (bound : nat) (v : visited) :
  (exists c a, v = Call c a) -> within bound v ->
  depth_all (arguments_of v) <= bound.
Proof. intros (c & a & ->). cbn. tauto. Qed.

Lemma is_call_with_callee (callee : node) (v : visited) :
  (exists c a, v = Call c a) -> exists c a, with_callee callee v = Call c a.
Proof. intros (c & a & ->). cbn. eauto. Qed.

Lemma is_call_with_arguments (arguments : list node) (v : visited) :
  (exists c a, v = Call c a) ->
  exists c a, with_arguments arguments v = Call c a.
Proof. intros (c & a & ->). cbn. eauto. Qed.

Lemma depth_tag_literals (l : list string) :
  depth_all (map (fun tag => StringLiteral ("@" +:+ tag)) l) <= 1.
Proof.
  induction l as [| x l IH]; [cbn; lia |].
  cbn [map]. rewrite depth_all_cons.
  change (depth (StringLiteral ("@" +:+ x))) with 1. lia.
Qed.

Lemma depth_tag_options (l : list string) :
  depth (ObjectExpression
           [ObjectProperty (Identifier "tag")
              (ArrayExpression
                 (map (fun tag => StringLiteral ("@" +:+ tag)) l))
              false false]) <= 4.
Proof.
  pose proof (depth_tag_literals l) as H.
  cbn [depth]. rewrite !depth_list. lia.
Qed.

Lemma depth_hd (bound : nat) (l : list node) :
  depth_all l <= bound -> 1 <= bound -> depth (hd Missing l) <= bound.
Proof.
  destruct l as [| x l]; [cbn; lia |].
  rewrite depth_all_cons. cbn [hd]. lia.
Qed.

Lemma describe_rule_within (bound : nat) (callee : node) (v : visited)
      (st : state) :
  4 <= bound -> (exists c a, v = Call c a) -> within bound v ->
  (exists c a, (describe_rule callee v st).1 = Call c a)
  /\ within bound (describe_rule callee v st).1.
Proof.
  intros Hb Hv Hw. unfold describe_rule.
  destruct (isIdentifierNamed "describe" callee); cbn [fst]; [| tauto].
  split; [now apply is_call_with_callee |].
  apply within_with_callee; [cbn; lia | assumption].
Qed.

Lemma it_rule_within (bound : nat) (callee : node) (v : visited)
      (st : state) :
  4 <= bound -> (exists c a, v = Call c a) -> within bound v ->
  (exists c a, (it_rule callee v st).1 = Call c a)
  /\ within bound (it_rule callee v st).1.
Proof.
  intros Hb Hv Hw. unfold it_rule.
  destruct (isIdentifierNamed "it" callee); cbn [fst]; [| tauto].
  match goal with
  | |- context [let '(v1, st1) := ?X in _] =>
      assert (H1 : (exists c a, X.1 = Call c a) /\ within bound X.1);
      [| destruct X as [v1 st1]; cbn [fst] in H1 |- *]
  end.
  { destruct Hv as (c & a & ->). cbn [arguments_of].
    destruct a as [| [] rest]; cbn [fst]; try (split; [eauto | assumption]).
    set (tags := extractTagsFromString value).
    destruct (0 <? length tags)%nat; cbn [fst];
      [| split; [eauto | assumption]].
    split; [cbn [with_arguments]; eauto |].
    destruct Hw as [Hc Ha]. rewrite depth_all_cons in Ha.
    cbn [with_arguments within]. split; [assumption |].
    rewrite !depth_all_cons.
    pose proof (depth_tag_options tags).
    pose proof (depth_hd bound rest).
    change (depth (StringLiteral (removeTagsFromString value))) with 1.
    change (depth_all []) with 0. lia. }
  destruct H1 as [Hc1 Hw1].
  assert (Hc2 : exists c a, with_callee (Identifier "test") v1 = Call c a)
    by now apply is_call_with_callee.
  assert (Hw2 : within bound (with_callee (Identifier "test") v1))
    by (apply within_with_callee; [cbn; lia | assumption]).
  destruct (arguments_of (with_callee (Identifier "test") v1)) eqn:Ea;
    [tauto |].
  split; [now apply is_call_with_arguments |].
  apply within_with_arguments; [| assumption].
  rewrite depth_all_update_at, <- Ea. now apply within_arguments_of.
Qed.

Lemma hook_rule_within (bound : nat) (callee : node) (v v' : visited)
      (st st' : state) :
  4 <= bound -> (exists c a, v = Call c a) -> within bound v ->
  hook_rule callee v st = Returns (v', st') ->
  (exists c a, v' = Call c a) /\ within bound v'.
Proof.
  intros Hb Hv Hw. unfold hook_rule.
  destruct callee; try (intros [= <- <-]; tauto).
  destruct (own_hook name) as [hook |].
  - intros [= <- <-].
    set (v1 := with_callee _ v).
    assert (Hc1 : exists c a, v1 = Call c a)
      by now apply is_call_with_callee.
    assert (Hw1 : within bound v1)
      by (apply within_with_callee; [cbn; lia | assumption]).
    destruct (arguments_of v1) as [| n l] eqn:Ea; [tauto |].
    split; [now apply is_call_with_arguments |].
    apply within_with_arguments; [| assumption].
    change (with_page_fixture n :: l)
      with (update_at 0 with_page_fixture (n :: l)).
    rewrite depth_all_update_at, <- Ea. now apply within_arguments_of.
  - destruct (Mappings.inherited name); [discriminate |].
    intros [= <- <-]. tauto.
Qed.

Lemma selector_rule_within (bound : nat) (callee : node) (v v' : visited)
      (st st' : state) :
  within bound v ->
  selector_rule callee v st = Returns (v', st') -> within bound v'.
Proof.
  intros Hw. unfold selector_rule.
  destruct callee; try (intros [= <- <-]; assumption).
  destruct (_ || _); [| intros [= <- <-]; assumption].
  destruct (arguments_of v) as [| [] rest];
    try (intros [= <- <-]; assumption).
  destruct (parseExpression _); cbn; try discriminate.
  intros [= <- <-]. exact I.
Qed.

Lemma command_rule_within (table : gmap string Mappings.CommandMapping)
      (bound : nat) (callee : node) (v v' : visited) (st st' : state) :
  4 <= bound -> depth callee <= bound -> within bound v ->
  command_rule table callee v st = Returns (v', st') -> within bound v'.
Proof.
  intros Hb Hc Hw. unfold command_rule.
  destruct callee as [| | | | | object property computed
                      | | | | | | | | | | | | | | | | |];
    try (intros [= <- <-]; assumption).
  cbn [depth] in Hc.
  match goal with
  | |- context [let '(p1, s1) := ?X in _] =>
      destruct X as [property1 st1] eqn:E
  end.
  assert (Hp1 : depth property1 <= depth property).
  { pose proof (depth_positive property).
    destruct (name_of property) as [name |]; [| injection E as <- _; lia].
    destruct (String.eqb name EmptyString); [injection E as <- _; lia |].
    destruct (Mappings.get table name); injection E as <- _; cbn; lia. }
  assert (Hm : depth (MemberExpression object property1 computed) <= bound)
    by (cbn; lia).
  destruct (isIdentifierNamed "browser" object).
  - destruct (Mappings.get table _) as [mapping | |].
    + destruct (object_and_method _) as [obj method'].
      destruct (isIdentifier property1); [| discriminate].
      intros [= <- <-]. apply within_with_callee; [| assumption].
      destruct method'; cbn; lia.
    + discriminate.
    + intros [= <- <-]. now apply within_with_callee.
  - intros [= <- <-]. now apply within_with_callee.
Qed.

Lemma visitCallExpression_within
      (table : gmap string Mappings.CommandMapping) (callee : node)
      (arguments : list node) (st st' : state) (v' : visited) (bound : nat) :
  4 <= bound -> depth callee <= bound -> depth_all arguments <= bound ->
  visitCallExpression table callee arguments st = Returns (v', st') ->
  within bound v'.
Proof.
  intros Hb Hc Ha. unfold visitCallExpression.
  pose proof (describe_rule_within bound callee (Call callee arguments) st
                Hb (ex_intro _ _ (ex_intro _ _ eq_refl)) (conj Hc Ha))
    as [Hc1 Hw1].
  destruct (describe_rule callee (Call callee arguments) st) as [w1 s1].
  cbn [fst] in *.
  pose proof (it_rule_within bound callee w1 s1 Hb Hc1 Hw1) as [Hc2 Hw2].
  destruct (it_rule callee w1 s1) as [w2 s2]. cbn [fst] in *.
  destruct (hook_rule callee w2 s2) as [[w3 s3] | | |] eqn:E3;
    cbn [bind]; try discriminate.
  apply (hook_rule_within bound) in E3 as [Hc3 Hw3]; try assumption.
  destruct (selector_rule callee w3 s3) as [[w4 s4] | | |] eqn:E4;
    cbn [bind]; try discriminate.
  apply (selector_rule_within bound) in E4; [| assumption].
  now apply command_rule_within.
Qed.

Lemma visitCallExpression_finishes
      (table : gmap string Mappings.CommandMapping) (callee : node)
      (arguments : list node) (st : state) :
  finishes (visitCallExpression table callee arguments st).
Proof.
  unfold visitCallExpression.
  destruct (describe_rule _ _ _) as [w1 s1].
  destruct (it_rule _ _ _) as [w2 s2].
  apply bind_finishes.
  - unfold hook_rule. destruct callee; try discriminate.
    destruct (own_hook name); [discriminate |].
    destruct (Mappings.inherited name); discriminate.
  - intros [w3 s3] _. apply bind_finishes.
    + unfold selector_rule. destruct callee; try discriminate.
      destruct (_ || _); [| discriminate].
      destruct (arguments_of w3) as [| [] rest]; try discriminate.
      apply bind_finishes; [| discriminate].
      unfold parseExpression, parse_after_argument.
      repeat match goal with
             | |- context [match ?x with _ => _ end] => destruct x
             end; discriminate.
    + intros [w4 s4] _. unfold command_rule.
      destruct callee; try discriminate.
      match goal with
      | |- context [let '(p1, s1) := ?X in _] =>
          destruct X as [property1 st1]
      end.
      destruct (isIdentifierNamed "browser" callee1); [| discriminate].
      destruct (Mappings.get table _); try discriminate.
      destruct (object_and_method _).
      destruct (isIdentifier property1); discriminate.
Qed.

Lemma traverse_each_finishes
      (enter : node -> state -> outcome (node * state)) (l : list node)
      (st : state) :
  (forall x st, In x l -> finishes (enter x st)) ->
  finishes (traverse_each enter l st).
Proof.
  revert st. induction l as [| x l IH]; intros st H; [discriminate |].
  cbn [traverse_each]. apply bind_finishes.
  - apply H. now left.
  - intros [x' st1] _. apply bind_finishes; [| intros [? ?] _; discriminate].
    apply IH. intros y st' Hy. apply H. now right.
Qed.

Lemma In_staying (stays : list bool) (declarations : list node) (d : node) :
  In d (staying stays declarations) -> In d declarations.
Proof.
  unfold staying. rewrite in_map_iff. intros ([b d'] & <- & H).
  apply filter_In in H as [H _]. now apply in_combine_r in H.
Qed.

Lemma traverse_statements_finishes
      (enter : node -> state -> outcome (node * state)) (l : list node)
      (st : state) :
  (forall x st, In x l -> finishes (enter x st)) ->
  (forall kind declarations d st,
      In (VariableDeclaration kind declarations) l -> In d declarations ->
      finishes (enter d st)) ->
  finishes (traverse_statements enter l st).
Proof.
  revert st. induction l as [| x l IH]; intros st H Hd; [discriminate |].
  cbn [traverse_statements]. apply bind_finishes.
  - destruct x;
      try (apply bind_finishes;
           [apply H; now left | intros [? ?] _; discriminate]).
    destruct (visitVariableDeclaration declarations st) as [stays st0].
    assert (Hk : forall st1,
               finishes (traverse_each enter (staying stays declarations)
                                       st1)).
    { intros st1. apply traverse_each_finishes. intros d st2 Hin.
      apply (Hd kind declarations); [now left |].
      now apply In_staying in Hin. }
    destruct (staying stays declarations) eqn:Es, (removed stays);
      try discriminate;
      (apply bind_finishes; [apply Hk | intros [? ?] _; discriminate]).
  - intros [xs st1] _. apply bind_finishes; [| intros [? ?] _; discriminate].
    apply IH.
    + intros y st' Hy. apply H. now right.
    + intros kind declarations d st' Hy. apply (Hd kind declarations).
      now right.
Qed.

Lemma requeued_finishes (table : gmap string Mappings.CommandMapping)
      (n : node) (st : state) :
  finishes (requeued table n st).
Proof.
  unfold requeued. destruct n; try discriminate.
  apply bind_finishes; [apply visitCallExpression_finishes |].
  intros [[c a | r] st1] _; discriminate.
Qed.

Lemma traverse_finishes (table : gmap string Mappings.CommandMapping)
      (fuel : nat) :
  forall (n : node) (st : state),
    depth n <= fuel -> finishes (traverse table fuel n st).
Proof.
  induction fuel as [| fuel IH]; intros n st Hn.
  { pose proof (depth_positive n). lia. }
  assert (Heach : forall l st,
             depth_all l <= fuel ->
             finishes (traverse_each (traverse table fuel) l st)).
  { intros l st' Hl. apply traverse_each_finishes. intros x st'' Hx.
    apply IH. apply depth_all_In in Hx. lia. }
  destruct n; cbn [traverse]; cbn [depth] in Hn; rewrite ?depth_list in Hn;
    try discriminate.
  - (* CallExpression *)
    apply bind_finishes; [apply visitCallExpression_finishes |].
    intros [[c1 a1 | r] st1] Hv; [| apply requeued_finishes].
    apply (visitCallExpression_within table _ _ _ _ _ fuel) in Hv;
      try lia.
    destruct Hv as [Hc Ha].
    apply bind_finishes; [now apply IH |]. intros [c2 st2] _.
    apply bind_finishes; [now apply Heach |]. intros [? ?] _. discriminate.
  - (* NewExpression *)
    apply bind_finishes; [apply IH; lia |]. intros [? ?] _.
    apply bind_finishes; [apply Heach; lia |]. intros [? ?] _.
    discriminate.
  - (* MemberExpression *)
    apply bind_finishes; [apply IH; lia |]. intros [? ?] _.
    apply bind_finishes; [apply IH; lia |]. intros [? ?] _. discriminate.
  - (* ArrowFunctionExpression *)
    apply bind_finishes; [apply Heach; lia |]. intros [? ?] _.
    apply bind_finishes; [apply IH; lia |]. intros [? ?] _. discriminate.
  - (* FunctionExpression *)
    apply bind_finishes; [apply IH; lia |]. intros [? ?] _.
    apply bind_finishes; [apply Heach; lia |]. intros [? ?] _.
    apply bind_finishes; [apply IH; lia |]. intros [? ?] _. discriminate.
  - (* AwaitExpression *)
    apply bind_finishes; [apply IH; lia |]. intros [? ?] _. discriminate.
  - (* ObjectExpression *)
    apply bind_finishes; [apply Heach; lia |]. intros [? ?] _.
    discriminate.
  - (* ObjectProperty *)
    apply bind_finishes; [apply IH; lia |]. intros [? ?] _.
    apply bind_finishes; [apply IH; lia |]. intros [? ?] _. discriminate.
  - (* ArrayExpression *)
    apply bind_finishes; [apply Heach; lia |]. intros [? ?] _.
    discriminate.
  - (* ObjectPattern *)
    apply bind_finishes; [apply Heach; lia |]. intros [? ?] _.
    discriminate.
  - (* ExpressionStatement *)
    apply bind_finishes; [apply IH; lia |]. intros [? ?] _. discriminate.
  - (* BlockStatement *)
    apply bind_finishes; [| intros [? ?] _; discriminate].
    apply traverse_statements_finishes.
    + intros x st' Hx. apply IH. apply depth_all_In in Hx. lia.
    + intros kind declarations d st' Hx Hd. apply IH.
      apply depth_all_In in Hx, Hd. cbn [depth] in Hx.
      rewrite depth_list in Hx. lia.
  - (* VariableDeclaration *)
    destruct (removed _); [| discriminate].
    apply bind_finishes; [apply Heach; lia |]. intros [? ?] _.
    discriminate.
  - (* VariableDeclarator *)
    apply bind_finishes; [apply IH; lia |]. intros [? ?] _.
    apply bind_finishes; [apply IH; lia |]. intros [? ?] _. discriminate.
  - (* ImportDeclaration *)
    unfold visitImportDeclaration.
    destruct (_ || _).
    + apply bind_finishes; [| intros [? ?] _; discriminate].
      apply Heach. cbn. lia.
    + apply bind_finishes; [apply Heach; lia |]. intros [? ?] _.
      discriminate.
  - (* ImportSpecifier *)
    apply bind_finishes; [apply IH; lia |]. intros [? ?] _.
    apply bind_finishes; [apply IH; lia |]. intros [? ?] _. discriminate.
  - (* ImportDefaultSpecifier *)
    apply bind_finishes; [apply IH; lia |]. intros [? ?] _. discriminate.
  - (* ImportNamespaceSpecifier *)
    apply bind_finishes; [apply IH; lia |]. intros [? ?] _. discriminate.
  - (* Other *)
    apply bind_finishes; [apply Heach; lia |]. intros [? ?] _.
    discriminate.
Qed.

(** The fuel [traverse_file] gives is enough: rewriting a tree never stops
    for lack of it. *)
Lemma transformAst_finishes (table : gmap string Mappings.CommandMapping)
      (ast : File) (isTypeScript : bool) :
  finishes (transformAst table ast isTypeScript).
Proof.
  unfold transformAst. apply bind_finishes.
  - unfold traverse_file.
    apply bind_finishes; [| intros [? ?] _; discriminate].
    apply traverse_statements_finishes.
    + intros x st Hx. apply traverse_finishes. now apply depth_all_In.
    + intros kind declarations d st Hx Hd. apply traverse_finishes.
      apply depth_all_In in Hx, Hd. cbn [depth] in Hx.
      rewrite depth_list in Hx. lia.
  - intros [ast1 st1] _.
    destruct (negb _), isTypeScript; discriminate.
Qed.

End Fuel.

(* ================================================================== *)
(** * Further properties *)
(* ================================================================== *)

(** ** Tags: what is extracted, what is left *)

Section TagTokens.

Lemma span_all (f : ascii -> bool) (s : chars) :
  forallb f (fst (span f s)) = true.
Proof.
  induction s as [| c t IH]; [reflexivity |].
  cbn [span]. destruct (f c) eqn:Hc; [| reflexivity].
  destruct (span f t) as [a b]. cbn in *. now rewrite Hc.
Qed.

Lemma exec_all_captures (p : pattern) (Q : chars -> Prop) (s : chars) :
  (forall u cap len, p u = Some (cap, len) -> Q cap) ->
  Forall Q (exec_all p s).
Proof.
  intros Hp. induction s as [| c t IH] using suffix_ind; [constructor |].
  rewrite exec_all_cons.
  destruct (p (c :: t)) as [[cap len] |] eqn:E; [| apply (IH 0)].
  constructor; [now apply (Hp _ _ _ E) | apply IH].
Qed.

Lemma bracketed_capture (u cap : chars) (len : nat) :
  bracketed u = Some (cap, len) ->
  cap <> [] /\ forallb is_bracket_tag_char cap = true.
Proof.
  unfold bracketed. destruct u as [| c rest]; [discriminate |].
  destruct (Ascii.eqb c "[") eqn:E.
  - apply Ascii.eqb_eq in E. subst c.
    pose proof (span_all is_bracket_tag_char rest) as Hall.
    destruct (span is_bracket_tag_char rest) as [[| d run] after];
      [discriminate |].
    destruct after as [| e after]; [discriminate |].
    destruct (Ascii.eqb e "]") eqn:E2.
    + apply Ascii.eqb_eq in E2. subst e. intros [= <- _].
      split; [discriminate | exact Hall].
    + destruct e as [[] [] [] [] [] [] [] []]; discriminate.
  - destruct c as [[] [] [] [] [] [] [] []]; discriminate.
Qed.

Lemma prefixed_capture (mk : ascii) (u cap : chars) (len : nat) :
  prefixed mk u = Some (cap, len) ->
  cap <> [] /\ forallb is_word cap = true.
Proof.
  unfold prefixed. destruct u as [| c rest]; [discriminate |].
  destruct (Ascii.eqb c mk); [| discriminate].
  pose proof (span_all is_word rest) as Hall.
  destruct (span is_word rest) as [[| d run] after]; [discriminate |].
  intros [= <- _]. split; [discriminate | exact Hall].
Qed.

Lemma lower_token_char (c : ascii) :
  is_bracket_tag_char c = true \/ is_word c = true ->
  is_tag_token_char (toLowerChar c) = true.
Proof.
  destruct c as [[] [] [] [] [] [] [] []]; vm_compute;
    intuition congruence.
Qed.

Lemma lower_token (cap : chars) :
  cap <> [] ->
  forallb is_bracket_tag_char cap = true \/ forallb is_word cap = true ->
  toLowerCase (str_of cap) <> EmptyString
  /\ forallb is_tag_token_char (chars_of (toLowerCase (str_of cap))) = true.
Proof.
  intros Hne Hall. unfold toLowerCase. rewrite !chars_of_str_of. split.
  - destruct cap; [congruence | discriminate].
  - rewrite forallb_forall. intros x Hx.
    apply in_map_iff in Hx as (c & <- & Hc). apply lower_token_char.
    destruct Hall as [H | H]; rewrite forallb_forall in H; auto.
Qed.

Lemma first_occurrences_In (x : string) (l : list string) :
  In x (first_occurrences l) <-> In x l.
Proof.
  unfold first_occurrences. now rewrite <- in_rev, nodup_In, <- in_rev.
Qed.

Lemma tokens_of_In (p : pattern) (str tok : string) :
  In tok (tokens_of p str) ->
  exists cap, In cap (exec_all p (chars_of str))
              /\ tok = toLowerCase (str_of cap).
Proof.
  unfold tokens_of. rewrite in_map_iff. intros (cap & <- & H). eauto.
Qed.

Lemma extracted_tag_token (str tok : string) :
  In tok (extractTagsFromString str) -> tag_token tok.
Proof.
  intros Hin. rewrite extractTagsFromString_spec in Hin.
  apply (proj1 (first_occurrences_In _ _)) in Hin.
  apply in_app_or in Hin as [Hin | Hin];
    [| apply in_app_or in Hin as [Hin | Hin]];
    apply tokens_of_In in Hin as (cap & Hcap & ->).
  - pose proof (exec_all_captures bracketed _ (chars_of str)
                  bracketed_capture) as H.
    rewrite List.Forall_forall in H. destruct (H _ Hcap) as [Hne Hall].
    apply lower_token; auto.
  - pose proof (exec_all_captures (prefixed "@") _ (chars_of str)
                  (prefixed_capture "@")) as H.
    rewrite List.Forall_forall in H. destruct (H _ Hcap) as [Hne Hall].
    apply lower_token; auto.
  - pose proof (exec_all_captures (prefixed "#") _ (chars_of str)
                  (prefixed_capture "#")) as H.
    rewrite List.Forall_forall in H. destruct (H _ Hcap) as [Hne Hall].
    apply lower_token; auto.
Qed.

End TagTokens.

(** X1.  Every tag that [extractTagsFromString] returns is a non-empty
    token of lowercase letters, digits, underscores and dashes. *)
Theorem X1_extracted_tags_are_lowercase_tokens :
  forall str : string,
    Forall (fun tok => tok <> EmptyString
                       /\ forallb is_tag_token_char (chars_of tok) = true)
           (extractTagsFromString str).
Proof.
  intros str. apply List.Forall_forall. intros tok Hin.
  exact (extracted_tag_token str tok Hin).
Qed.

Section NoTags.

Lemma exec_all_none_remove (p : pattern) (s : chars) :
  exec_all p s = [] -> remove_all p s = s.
Proof.
  induction s as [| c t IH] using suffix_ind; [reflexivity |].
  unfold remove_all in *. rewrite exec_all_cons, replace_all_cons.
  destruct (p (c :: t)) as [[cap len] |]; [discriminate |].
  intros H. f_equal. now apply (IH 0).
Qed.

Lemma first_occurrences_nil (l : list string) :
  first_occurrences l = [] -> l = [].
Proof.
  intros H. destruct l as [| x l]; [reflexivity |].
  assert (Hin : In x (first_occurrences (x :: l)))
    by (apply first_occurrences_In; now left).
  rewrite H in Hin. destruct Hin.
Qed.

Lemma tokens_of_nil (p : pattern) (str : string) :
  tokens_of p str = [] -> exec_all p (chars_of str) = [].
Proof. unfold tokens_of. apply map_eq_nil. Qed.

End NoTags.

(** X2.  When [extractTagsFromString] finds no tag in a text,
    [removeTagsFromString] removes nothing from it: it only trims the text
    and collapses its white space. *)
Theorem X2_no_tags_nothing_removed :
  forall str : string,
    extractTagsFromString str = [] ->
    chars_of (removeTagsFromString str)
    = collapse (trim_chars (chars_of str)).
Proof.
  intros str H. rewrite extractTagsFromString_spec in H.
  apply first_occurrences_nil in H.
  apply app_eq_nil in H as [H1 H]. apply app_eq_nil in H as [H2 H3].
  apply tokens_of_nil in H1, H2, H3.
  rewrite removeTagsFromString_chars.
  now rewrite (exec_all_none_remove _ _ H1), (exec_all_none_remove _ _ H2),
    (exec_all_none_remove _ _ H3).
Qed.

Lemma X2_no_tags_witness :
  chars_of (removeTagsFromString "  should   login ")
  = collapse (trim_chars (chars_of "  should   login ")).
Proof. apply X2_no_tags_nothing_removed. reflexivity. Defined.

Section Tidy.

Lemma collapse_other (c : ascii) (t : chars) :
  is_space c = false -> collapse (c :: t) = c :: collapse t.
Proof.
  intros Hc. unfold collapse. rewrite replace_all_cons.
  unfold spaces. cbn [span]. now rewrite Hc.
Qed.

Lemma collapse_space (c : ascii) (t : chars) :
  is_space c = true ->
  collapse (c :: t) = " "%char :: collapse (snd (span is_space t)).
Proof.
  intros Hc. unfold collapse. rewrite replace_all_cons.
  unfold spaces. cbn [span]. rewrite Hc.
  pose proof (span_skipn is_space t) as Hs.
  destruct (span is_space t) as [run rest]. cbn [fst snd] in *.
  cbn [length pred app]. now rewrite Hs.
Qed.

Lemma ends_clear_skipn (k : nat) (s : chars) :
  ends_clear s = true -> ends_clear (skipn k s) = true.
Proof.
  revert s. induction k as [| k IH]; intros [| c t] H; try assumption.
  cbn [skipn]. apply IH. destruct t; [reflexivity | exact H].
Qed.

Lemma ends_clear_all_spaces (s : chars) :
  ends_clear s = true -> forallb is_space s = true -> s = [].
Proof.
  induction s as [| c t IH]; [reflexivity |].
  intros He Ha. cbn [forallb] in Ha. apply andb_prop in Ha as [Hc Ht].
  destruct t as [| d t].
  - cbn in He. rewrite Hc in He. discriminate.
  - specialize (IH He Ht). discriminate.
Qed.

Lemma ends_clear_snoc (l : chars) (c : ascii) :
  ends_clear (l ++ [c]) = negb (is_space c).
Proof.
  induction l as [| d l IH]; [reflexivity |].
  cbn [app ends_clear]. destruct (l ++ [c]) eqn:E; [| exact IH].
  destruct l; discriminate.
Qed.

Lemma collapse_single_spaced (s : chars) :
  ends_clear s = true -> single_spaced (collapse s) = true.
Proof.
  induction s as [| c t IH] using suffix_ind; [reflexivity |].
  intros He. destruct (is_space c) eqn:Hc.
  - rewrite (collapse_space c t Hc).
    pose proof (span_stops is_space t) as Hstop.
    pose proof (span_skipn is_space t) as Hskip.
    pose proof (span_all is_space t) as Hall.
    destruct (snd (span is_space t)) as [| d rest] eqn:Er.
    + exfalso.
      assert (Hsp : forallb is_space (c :: t) = true).
      { cbn [forallb]. rewrite Hc. cbn.
        assert (Ht : t = fst (span is_space t)).
        { rewrite <- (firstn_skipn (length (fst (span is_space t))) t)
            at 1.
          rewrite <- Hskip, app_nil_r.
          clear. induction t as [| x t IHt]; [reflexivity |].
          cbn [span]. destruct (is_space x); [| reflexivity].
          destruct (span is_space t) as [a b]. cbn in *. now f_equal. }
        now rewrite Ht. }
      now pose proof (ends_clear_all_spaces _ He Hsp).
    + assert (Hrec : single_spaced (collapse (d :: rest)) = true).
      { rewrite Hskip. apply IH. apply ends_clear_skipn.
        destruct t; [reflexivity | exact He]. }
      rewrite (collapse_other d rest Hstop) in Hrec |- *.
      change (single_spaced (" "%char :: d :: collapse rest))
        with (true && negb (is_space d)
              && single_spaced (d :: collapse rest)).
      now rewrite Hstop, Hrec.
  - rewrite (collapse_other c t Hc). cbn [single_spaced]. rewrite Hc.
    cbn. apply (IH 0). destruct t; [reflexivity | exact He].
Qed.

Lemma collapse_starts (s : chars) :
  starts_with_space s = false -> starts_with_space (collapse s) = false.
Proof.
  destruct s as [| c t]; [reflexivity |]. intros Hc.
  cbn [starts_with_space] in Hc. now rewrite (collapse_other c t Hc).
Qed.

Lemma trim_start_clear (s : chars) :
  starts_with_space (trim_start s) = false.
Proof.
  unfold trim_start. pose proof (span_stops is_space s) as H.
  destruct (snd (span is_space s)); [reflexivity | exact H].
Qed.

Lemma trim_chars_prefix (s : chars) :
  exists k, trim_chars s = firstn k (trim_start s).
Proof.
  unfold trim_chars. set (u := trim_start s).
  unfold trim_start at 1. rewrite (span_skipn is_space (rev u)).
  exists (length u - length (fst (span is_space (rev u)))).
  now rewrite skipn_rev, rev_involutive.
Qed.

Lemma trim_chars_starts (s : chars) :
  starts_with_space (trim_chars s) = false.
Proof.
  destruct (trim_chars_prefix s) as [k ->].
  pose proof (trim_start_clear s) as H.
  destruct k, (trim_start s); try reflexivity. exact H.
Qed.

Lemma trim_chars_ends (s : chars) : ends_clear (trim_chars s) = true.
Proof.
  unfold trim_chars.
  pose proof (trim_start_clear (rev (trim_start s))) as H.
  destruct (trim_start (rev (trim_start s))) as [| c v]; [reflexivity |].
  cbn [rev]. rewrite ends_clear_snoc. cbn in H. now rewrite H.
Qed.

End Tidy.

(** X3.  The text [removeTagsFromString] returns never starts or ends
    with white space, and every white-space character in it is one space
    between two other characters: no run of spaces, no tab or line
    break. *)
Theorem X3_stripped_text_is_single_spaced :
  forall str : string,
    starts_with_space (chars_of (removeTagsFromString str)) = false
    /\ ends_clear (chars_of (removeTagsFromString str)) = true
    /\ single_spaced (chars_of (removeTagsFromString str)) = true.
Proof.
  intros str. rewrite removeTagsFromString_chars.
  set (r := remove_all (prefixed "#") _).
  pose proof (collapse_single_spaced _ (trim_chars_ends r)) as Hs.
  split; [apply collapse_starts, trim_chars_starts |].
  split; [| exact Hs].
  clear - Hs. induction (collapse (trim_chars r)) as [| c t IH];
    [reflexivity |].
  cbn [single_spaced] in Hs. apply andb_prop in Hs as [Hc Ht].
  destruct t as [| d t]; [| now apply IH].
  cbn. destruct (is_space c); [| reflexivity].
  apply andb_prop in Hc as [_ Hc]. discriminate.
Qed.

(** ** Selectors: when the rewriting of a lookup succeeds *)

Section QuotedTemplates.

Lemma chars_of_append (a b : string) :
  chars_of (a +:+ b) = chars_of a ++ chars_of b.
Proof.
  unfold chars_of. induction a as [| c a IH]; [reflexivity |].
  change (c :: list_ascii_of_string (a +:+ b)
          = c :: (list_ascii_of_string a ++ list_ascii_of_string b)).
  now rewrite IH.
Qed.

Lemma str_of_chars_of (s : string) : str_of (chars_of s) = s.
Proof. apply string_of_list_ascii_of_string. Qed.

Lemma read_string_quotable (arg acc rest : chars) :
  quotable arg = true ->
  read_string "'" acc (arg ++ "'"%char :: rest)
  = (TString (str_of (rev acc ++ arg)), rest).
Proof.
  revert acc. induction arg as [| c arg IH]; intros acc Hq.
  - cbn. now rewrite app_nil_r.
  - cbn [quotable forallb] in Hq. apply andb_prop in Hq as [Hc Hq].
    apply negb_true_iff in Hc.
    apply orb_false_iff in Hc as [Hc Hlt].
    apply orb_false_iff in Hc as [Hquote Hback].
    cbn [app read_string]. rewrite Hquote, Hlt, Hback.
    rewrite (IH (c :: acc) Hq). cbn [rev]. now rewrite <- app_assoc.
Qed.

Lemma parse_page_call (factory argument : string) :
  In factory locator_factories ->
  quotable (chars_of argument) = true ->
  parseExpression ("page." +:+ factory +:+ "('" +:+ argument +:+ "')")
  = Returns (page_call factory argument).
Proof.
  intros Hf Hq.
  assert (Hread := read_string_quotable (chars_of argument) []
                     [")"%char] Hq).
  cbn [rev app] in Hread. rewrite str_of_chars_of in Hread.
  assert (Hpage : forall r, next_token (chars_of "page" ++ "."%char :: r)
                            = (TName "page", "."%char :: r))
    by (intros r; vm_compute; reflexivity).
  assert (Hdot : forall r,
             In factory locator_factories ->
             next_token ("."%char :: chars_of factory ++ r)
             = (TDot, chars_of factory ++ r)).
  { intros r H. cbn in H.
    destruct H as [<- | [<- | [<- | [<- | [<- | []]]]]];
      vm_compute; reflexivity. }
  assert (Hname : forall r,
             In factory locator_factories ->
             next_token (chars_of factory ++ "("%char :: r)
             = (TName factory, "("%char :: r)).
  { intros r H. cbn in H.
    destruct H as [<- | [<- | [<- | [<- | [<- | []]]]]];
      vm_compute; reflexivity. }
  assert (Hopen : forall r, next_token ("("%char :: "'"%char :: r)
                            = (TParenL, "'"%char :: r))
    by (intros r; vm_compute; reflexivity).
  assert (Hquote : forall r, next_token ("'"%char :: r)
                             = read_string "'" [] r)
    by (intros r; vm_compute; reflexivity).
  assert (Hreserved : In factory locator_factories ->
                      is_reserved "page" = false)
    by (intros _; vm_compute; reflexivity).
  unfold parseExpression. rewrite !chars_of_append.
  change (chars_of "page.") with (chars_of "page" ++ ["."%char]).
  change (chars_of "('") with ["("%char; "'"%char].
  change (chars_of "')") with ["'"%char; ")"%char].
  rewrite <- !app_assoc. cbn [app].
  rewrite Hpage, (Hreserved Hf), (Hdot _ Hf), (Hname _ Hf), Hopen, Hquote,
    Hread.
  reflexivity.
Qed.

Lemma In_strip_prefix (p s r : chars) (c : ascii) :
  strip_prefix p s = Some r -> In c r -> In c s.
Proof.
  revert s. induction p as [| a p IH]; intros s H Hin.
  - cbn in H. now injection H as <-.
  - destruct s as [| b s]; [discriminate |]. cbn in H.
    destruct (Ascii.eqb a b); [| discriminate]. right. now apply (IH s).
Qed.

Lemma In_span_fst (f : ascii -> bool) (s : chars) (c : ascii) :
  In c (fst (span f s)) -> In c s.
Proof.
  induction s as [| d t IH]; [intros [] |].
  cbn [span]. destruct (f d); [| intros []].
  destruct (span f t) as [a b]. cbn in *. intros [-> | H]; auto.
Qed.

Lemma attribute_capture_in (name : string) (s cap : chars) (len : nat)
      (c : ascii) :
  attribute name s = Some (cap, len) -> In c cap -> In c s.
Proof.
  unfold attribute.
  destruct (strip_prefix _ s) as [[| q rest] |] eqn:E; try discriminate.
  destruct (is_quote q); [| discriminate].
  pose proof (In_span_fst (fun c => negb (is_quote c)) rest c) as Hs.
  destruct (span _ rest) as [[| d run] after]; [discriminate |].
  destruct after as [| e [| e2 after]]; try discriminate.
  destruct (Ascii.eqb e2 "]") eqn:E2.
  - apply Ascii.eqb_eq in E2. subst e2. intros [= <- _] Hin.
    apply (In_strip_prefix _ _ _ _ E). right. now apply Hs.
  - destruct e2 as [[] [] [] [] [] [] [] []]; discriminate.
Qed.

Lemma exec_capture_in (p : pattern) (s cap : chars) (c : ascii) :
  (forall u cap len, p u = Some (cap, len) -> In c cap -> In c u) ->
  exec p s = Some cap -> In c cap -> In c s.
Proof.
  intros Hp. induction s as [| d t IH]; cbn [exec].
  - destruct (p []) as [[cap' len] |] eqn:E; [| discriminate].
    intros [= <-]. now apply (Hp _ _ _ E).
  - destruct (p (d :: t)) as [[cap' len] |] eqn:E.
    + intros [= <-]. now apply (Hp _ _ _ E).
    + intros H Hin. right. now apply IH.
Qed.

Lemma quotable_capture (name : string) (s cap : chars) :
  quotable s = true -> exec (attribute name) s = Some cap ->
  quotable (chars_of (str_of cap)) = true.
Proof.
  intros Hq He. rewrite chars_of_str_of. unfold quotable in *.
  rewrite forallb_forall in *. intros c Hc. apply Hq.
  apply (exec_capture_in (attribute name) s cap c); auto.
  intros u cap' len. apply attribute_capture_in.
Qed.

(** The shape of the code [transformSelector] writes. *)
Lemma transformSelector_code (selector : string) :
  exists factory argument,
    In factory locator_factories
    /\ code (transformSelector selector)
       = "page." +:+ factory +:+ "('" +:+ argument +:+ "')"
    /\ (quotable (chars_of selector) = true ->
        quotable (chars_of argument) = true).
Proof.
  unfold transformSelector.
  destruct (exec SELECTOR_PATTERNS.dataTestId _) as [cap |] eqn:E1.
  { exists "getByTestId", (str_of cap). cbn [code].
    split; [cbn; tauto |]. split; [reflexivity |].
    intros Hq. now apply (quotable_capture _ _ _ Hq E1). }
  destruct (exec SELECTOR_PATTERNS.ariaLabel _) as [cap |] eqn:E2.
  { exists "getByLabel", (str_of cap). cbn [code].
    split; [cbn; tauto |]. split; [reflexivity |].
    intros Hq. now apply (quotable_capture _ _ _ Hq E2). }
  destruct (exec SELECTOR_PATTERNS.role _) as [cap |] eqn:E3.
  { exists "getByRole", (str_of cap). cbn [code].
    split; [cbn; tauto |]. split; [reflexivity |].
    intros Hq. now apply (quotable_capture _ _ _ Hq E3). }
  destruct (exec SELECTOR_PATTERNS.placeholder _) as [cap |] eqn:E4.
  { exists "getByPlaceholder", (str_of cap). cbn [code].
    split; [cbn; tauto |]. split; [reflexivity |].
    intros Hq. now apply (quotable_capture _ _ _ Hq E4). }
  destruct (_ || _).
  - exists "getByRole",
      (if startsWith selector "button" then "button" else "link").
    cbn [code]. split; [cbn; tauto |]. split; [reflexivity |].
    intros _. destruct (startsWith selector "button"); reflexivity.
  - exists "locator", selector. cbn [code].
    split; [cbn; tauto |]. split; [reflexivity |]. tauto.
Qed.

End QuotedTemplates.

(** X4.  A [$] or [$$] lookup whose selector holds no single quote, no
    backslash and no line terminator is always rewritten: the code
    [transformSelector] writes for it parses, and the visitor replaces the
    call by that locator call, logging the change. *)
Theorem X4_quotable_selector_is_rewritten :
  forall (table : gmap string Mappings.CommandMapping)
         (name selector : string) (rest : list node) (st : state),
    (name = "$" \/ name = "$$") ->
    quotable (chars_of selector) = true ->
    exists factory argument,
      In factory locator_factories
      /\ parseExpression (code (transformSelector selector))
         = Returns (page_call factory argument)
      /\ visitCallExpression table (Identifier name)
           (StringLiteral selector :: rest) st
         = Returns
             (Replaced (page_call factory argument),
              log ("Transformed " +:+ name +:+ "('" +:+ selector
                   +:+ "') to " +:+ code (transformSelector selector)) st).
Proof.
  intros table name selector rest st Hname Hq.
  destruct (transformSelector_code selector)
    as (factory & argument & Hf & Hcode & Harg).
  exists factory, argument. split; [assumption |].
  assert (Hparse : parseExpression (code (transformSelector selector))
                   = Returns (page_call factory argument)).
  { rewrite Hcode. apply parse_page_call; auto. }
  split; [assumption |].
  unfold visitCallExpression, describe_rule, it_rule, hook_rule,
    selector_rule, command_rule.
  destruct Hname as [-> | ->]; cbn -[transformSelector parseExpression];
    rewrite Hparse; reflexivity.
Qed.

Lemma X4_quotable_selector_witness :
  exists factory argument,
    In factory locator_factories
    /\ parseExpression (code (transformSelector "button[type=submit]"))
       = Returns (page_call factory argument)
    /\ visitCallExpression Mappings.COMMAND_MAPPINGS (Identifier "$")
         [StringLiteral "button[type=submit]"]
         {| changes := []; migratedTags := [];
            hasPlaywrightImport := false |}
       = Returns
           (Replaced (page_call factory argument),
            log ("Transformed " +:+ "$" +:+ "('" +:+ "button[type=submit]"
                 +:+ "') to "
                 +:+ code (transformSelector "button[type=submit]"))
                {| changes := []; migratedTags := [];
                   hasPlaywrightImport := false |}).
Proof.
  apply X4_quotable_selector_is_rewritten; [now left | reflexivity].
Defined.

(** ** From the migrated lookup to the page object *)

Section Redeclared.

Lemma append_assoc3 (a b c : string) : (a +:+ b) +:+ c = a +:+ (b +:+ c).
Proof.
  induction a as [| x a IH]; [reflexivity |].
  change (String x ((a +:+ b) +:+ c) = String x (a +:+ (b +:+ c))).
  now rewrite IH.
Qed.

Lemma locator_of_page_call (factory argument : string) :
  In factory locator_factories ->
  Pom.locator_of (page_call factory argument)
  = [{| Pom.method := Some factory; Pom.selector := Some argument |}].
Proof.
  intros H. cbn in H.
  destruct H as [<- | [<- | [<- | [<- | [<- | []]]]]]; reflexivity.
Qed.

Lemma locatorDef_factory (factory argument : string) (index : nat) :
  In factory locator_factories ->
  let loc := {| Pom.method := Some factory;
                Pom.selector := Some argument |} in
  Pom.locatorDef index loc
  = "    this." +:+ Pom.generateLocatorName loc index +:+ " = "
    +:+ ("page." +:+ factory +:+ "('" +:+ argument +:+ "')") +:+ ";".
Proof.
  intros H loc. unfold Pom.locatorDef. fold loc.
  set (varName := Pom.generateLocatorName loc index).
  cbn in H.
  destruct H as [<- | [<- | [<- | [<- | [<- | []]]]]];
    cbn [loc Pom.method Pom.selector Pom.shown];
    repeat match goal with
           | |- context [String.eqb ?a ?b] =>
               let v := eval vm_compute in (String.eqb a b) in
               change (String.eqb a b) with v
           end;
    cbv iota; rewrite !append_assoc3; reflexivity.
Qed.

End Redeclared.

(** X5.  The locator the migration writes for a lookup whose selector
    holds no single quote, no backslash and no line terminator is one the
    page-object extractor collects, and the page object declares its field
    with the very code the migration wrote. *)
Theorem X5_page_object_redeclares_migrated_locator :
  forall (selector : string) (index : nat),
    quotable (chars_of selector) = true ->
    exists n loc,
      parseExpression (code (transformSelector selector)) = Returns n
      /\ Pom.locator_of n = [loc]
      /\ Pom.locatorDef index loc
         = "    this." +:+ Pom.generateLocatorName loc index +:+ " = "
           +:+ code (transformSelector selector) +:+ ";".
Proof.
  intros selector index Hq.
  destruct (transformSelector_code selector)
    as (factory & argument & Hf & Hcode & Harg).
  exists (page_call factory argument),
    {| Pom.method := Some factory; Pom.selector := Some argument |}.
  rewrite Hcode. split; [apply parse_page_call; auto |].
  split; [now apply locator_of_page_call |].
  now apply locatorDef_factory.
Qed.

Lemma X5_page_object_witness :
  exists n loc,
    parseExpression (code (transformSelector "#login")) = Returns n
    /\ Pom.locator_of n = [loc]
    /\ Pom.locatorDef 0 loc
       = "    this." +:+ Pom.generateLocatorName loc 0 +:+ " = "
         +:+ code (transformSelector "#login") +:+ ";".
Proof.
  apply X5_page_object_redeclares_migrated_locator. reflexivity.
Defined.
(** ** Registration of custom commands: the report *)

Section RegistrationReport.
Import Handlers.

Lemma handle_entries (table : gmap string value) (commands : json)
      (entries : list (string * json)) :
  Object_entries commands = Some entries ->
  handleRegisterCustomCommands table (Some commands)
  = ((fold_left registerCustom entries (table, [])).1,
     if forallb
          (line_renders (fold_left registerCustom entries (table, [])).1)
          (fold_left registerCustom entries (table, [])).2
     then Returns
            {| isError := false;
               addedCommands :=
                 (fold_left registerCustom entries (table, [])).2;
               total := size (fold_left registerCustom entries (table, [])).1
            |}
     else Throws TypeError).
Proof.
  intros He. cbn [handleRegisterCustomCommands]. rewrite He.
  now destruct (fold_left registerCustom entries (table, [])).
Qed.

Lemma NoDup_names_filter (p : string * json -> bool)
      (entries : list (string * json)) :
  List.NoDup (map fst entries) ->
  List.NoDup (map fst (List.filter p entries)).
Proof.
  induction entries as [| e rest IH]; [intros _; constructor |].
  cbn [map List.filter]. intros Hnd.
  apply List.NoDup_cons_iff in Hnd as [Hc Hnd].
  destruct (p e); [| now apply IH].
  cbn [map]. constructor; [| now apply IH].
  intros Hin. apply Hc. apply in_map_iff in Hin as (x & Hx & Hin).
  apply filter_In in Hin as [Hin _]. apply in_map_iff. now exists x.
Qed.

Lemma filter_names (p : string * json -> bool) (q : string -> bool)
      (entries : list (string * json)) :
  (forall e, In e entries -> q (fst e) = true -> p e = true) ->
  List.filter q (map fst (List.filter p entries))
  = map fst (List.filter (fun e => q (fst e)) entries).
Proof.
  induction entries as [| e rest IH]; [reflexivity |].
  intros H. cbn [List.filter].
  assert (Hrest : forall x, In x rest -> q (fst x) = true -> p x = true)
    by (intros x Hx; apply H; now right).
  destruct (q (fst e)) eqn:Hq.
  - rewrite (H e) by (now left || exact Hq).
    cbn [map List.filter]. rewrite Hq, (IH Hrest). reflexivity.
  - destruct (p e); [| now apply IH].
    cbn [map List.filter]. rewrite Hq. now apply IH.
Qed.

Lemma filter_none {A : Type} (p : A -> bool) (l : list A) :
  (forall x, In x l -> p x = false) -> List.filter p l = [].
Proof.
  induction l as [| x rest IH]; [reflexivity |].
  intros H. cbn [List.filter]. rewrite (H x) by now left.
  apply IH. intros y Hy. apply H. now right.
Qed.

Lemma added_names (table : gmap string value)
      (entries : list (string * json)) (name : string) :
  In name (map fst (List.filter
                      (fun e => negb (lookup_truthy table (fst e)))
                      entries))
  <-> In name (map fst entries) /\ lookup_truthy table name = false.
Proof.
  rewrite !in_map_iff. split.
  - intros (e & <- & He). apply filter_In in He as [He Hl].
    apply negb_true_iff in Hl. split; [now exists e | exact Hl].
  - intros [(e & <- & He) Hl]. exists e. split; [reflexivity |].
    apply filter_In. split; [exact He |]. now rewrite Hl.
Qed.

(** After a registration the lookup of a requested name is as truthy as
    it was, or as the requested value is. *)
Lemma lookup_truthy_registered (table table' : gmap string value)
      (entries : list (string * json)) (cmd : string) (mapping : json) :
  List.NoDup (map fst entries) -> In (cmd, mapping) entries ->
  (forall name, table' !! name = registered table entries name) ->
  (lookup_truthy table cmd = true /\ table' !! cmd = table !! cmd)
  \/ (lookup_truthy table cmd = false
      /\ table' !! cmd = Some (Parsed mapping)).
Proof.
  intros Hnd Hin Hexact. rewrite Hexact. unfold registered.
  rewrite (property_of_In _ _ _ Hnd Hin).
  destruct (lookup_truthy table cmd); [left | right]; tauto.
Qed.

End RegistrationReport.

(** The answer to a request that registers [null] cannot be written:
    the entry is in the table, and the call throws. *)
Example null_registration_throws :
  (Handlers.handleRegisterCustomCommands initial_table
     (Some null_request)).1 !! "tapOn"
  = Some (Handlers.Parsed Handlers.JNull)
  /\ (Handlers.handleRegisterCustomCommands initial_table
        (Some null_request)).2
     = Throws TypeError.
Proof. split; vm_compute; reflexivity. Qed.

(** X6.  The report of a registration, for a request whose names are
    distinct.  The call returns when every requested value is an object
    whose [method] is a string.  When it returns, the names it lists as
    added are, without repetition, the requested names whose lookup in the
    table was falsy, and the total it prints is the size of the table
    before plus the number of listed names that had no entry.  When every
    entry of the table is truthy, these are the requested names that had
    no entry and are not names every object inherits, and the total is the
    size before plus the number of names listed. *)
Theorem X6_registration_report :
  forall (table : gmap string Handlers.value) (commands : Handlers.json)
         (entries : list (string * Handlers.json)),
    Handlers.Object_entries commands = Some entries ->
    List.NoDup (map fst entries) ->
    (forallb (fun e => names_method (snd e)) entries = true ->
     exists report,
       (Handlers.handleRegisterCustomCommands table (Some commands)).2
       = Returns report)
    /\ forall report,
         (Handlers.handleRegisterCustomCommands table (Some commands)).2
         = Returns report ->
         Handlers.isError report = false
         /\ List.NoDup (Handlers.addedCommands report)
         /\ (forall name,
                In name (Handlers.addedCommands report) <->
                In name (map fst entries)
                /\ Handlers.lookup_truthy table name = false)
         /\ Handlers.total report
            = size table
              + length (List.filter (absent table)
                                    (Handlers.addedCommands report))
         /\ ((forall name v,
                 table !! name = Some v -> Handlers.truthy v = true) ->
             Handlers.total report
             = size table + length (Handlers.addedCommands report)
             /\ forall name,
                  In name (Handlers.addedCommands report) <->
                  table !! name = None /\ Mappings.inherited name = false
                  /\ In name (map fst entries)).
Proof.
  intros table commands entries He Hnd.
  rewrite (handle_entries _ _ _ He). cbn [snd].
  destruct (register_all_report entries Hnd table []) as [Hadded Hsize].
  cbn [app] in Hadded.
  pose proof (register_all_exact entries Hnd table []) as Hexact.
  set (table' := (fold_left Handlers.registerCustom entries (table, [])).1)
    in *.
  set (added := (fold_left Handlers.registerCustom entries (table, [])).2)
    in *.
  split.
  - intros Hform.
    assert (Hlines : forallb (Handlers.line_renders table') added = true).
    { apply forallb_forall. intros cmd Hin. rewrite Hadded in Hin.
      apply added_names in Hin as [Hin Hl].
      apply in_map_iff in Hin as ([c mapping] & Hc & Hin).
      cbn [fst] in Hc. subst c.
      destruct (lookup_truthy_registered table table' entries cmd mapping
                  Hnd Hin Hexact) as [[Ht _] | [_ Hv]]; [congruence |].
      rewrite forallb_forall in Hform. specialize (Hform _ Hin).
      cbn [snd] in Hform. unfold Handlers.line_renders. rewrite Hv.
      unfold names_method in Hform.
      destruct mapping as [| | | | | fields]; try discriminate.
      destruct (Handlers.property_of "method" fields) as [[] |];
        try discriminate.
      reflexivity. }
    rewrite Hlines. eauto.
  - intros report Hret.
    destruct (forallb (Handlers.line_renders table') added);
      [| discriminate].
    injection Hret as <-.
    cbn [Handlers.isError Handlers.addedCommands Handlers.total].
    split; [reflexivity |].
    split; [rewrite Hadded; now apply NoDup_names_filter |].
    split; [intros name; rewrite Hadded; apply added_names |].
    split; [rewrite Hsize, <- Hadded; reflexivity |].
    intros Htruthy.
    assert (Hfalsy : forall name,
               Handlers.lookup_truthy table name = false <->
               table !! name = None /\ Mappings.inherited name = false).
    { intros name. unfold Handlers.lookup_truthy.
      destruct (table !! name) as [v |] eqn:Hv.
      - rewrite (Htruthy _ _ Hv). split; [discriminate | intros [? _]].
        discriminate.
      - tauto. }
    split.
    + rewrite Hsize, <- Hadded. f_equal. f_equal.
      apply forallb_filter_id. apply forallb_forall. intros name Hin.
      rewrite Hadded in Hin. apply added_names in Hin as [_ Hl].
      apply Hfalsy in Hl as [Hl _]. unfold absent. now rewrite Hl.
    + intros name. rewrite Hadded, added_names, Hfalsy. tauto.
Qed.

Lemma X6_registration_witness :
  (exists report,
      (Handlers.handleRegisterCustomCommands initial_table
         (Some custom_request)).2 = Returns report)
  /\ (Handlers.isError
        {| Handlers.isError := false; Handlers.addedCommands := ["tapOn"];
           Handlers.total := 51 |} = false
      /\ List.NoDup ["tapOn"]
      /\ 51 = size initial_table
              + length (List.filter (absent initial_table) ["tapOn"])).
Proof.
  assert (Hnd : List.NoDup
                  (map fst [("setValue", mapping_object "type" "Types text");
                            ("tapOn", mapping_object "tap" "Taps element")])).
  { cbn. repeat constructor; cbn; intuition discriminate. }
  split.
  - apply (proj1 (X6_registration_report initial_table custom_request _
                    eq_refl Hnd)).
    reflexivity.
  - destruct (proj2 (X6_registration_report initial_table custom_request _
                       eq_refl Hnd)
                {| Handlers.isError := false;
                   Handlers.addedCommands := ["tapOn"];
                   Handlers.total := 51 |})
      as (H1 & H2 & _ & H4 & _).
    + vm_compute. reflexivity.
    + split; [exact H1 |]. split; [exact H2 | exact H4].
Defined.

(** X7.  Sending the same request, with distinct names, a second time
    leaves the table as the first registration left it.  When both calls
    return, the second prints the same total and lists again the names of
    the first list under which a falsy value now stands.  When every
    requested value is truthy, the second call returns, lists no name and
    prints the size of the table. *)
Theorem X7_registration_twice :
  forall (table : gmap string Handlers.value) (commands : Handlers.json)
         (entries : list (string * Handlers.json)),
    Handlers.Object_entries commands = Some entries ->
    List.NoDup (map fst entries) ->
    let first :=
      Handlers.handleRegisterCustomCommands table (Some commands) in
    let second :=
      Handlers.handleRegisterCustomCommands first.1 (Some commands) in
    second.1 = first.1
    /\ (forall r1 r2,
           first.2 = Returns r1 -> second.2 = Returns r2 ->
           Handlers.total r2 = Handlers.total r1
           /\ Handlers.addedCommands r2
              = List.filter
                  (fun name => negb (Handlers.lookup_truthy first.1 name))
                  (Handlers.addedCommands r1))
    /\ ((forall e, In e entries -> Handlers.truthy_json (snd e) = true) ->
        second.2
        = Returns {| Handlers.isError := false;
                     Handlers.addedCommands := [];
                     Handlers.total := size first.1 |}).
Proof.
  intros table commands entries He Hnd first second.
  subst second first. rewrite !(handle_entries _ _ _ He). cbn [fst snd].
  destruct (register_all_report entries Hnd table []) as [Hadded _].
  cbn [app] in Hadded.
  pose proof (register_all_exact entries Hnd table []) as Hexact.
  set (table' := (fold_left Handlers.registerCustom entries (table, [])).1)
    in *.
  set (added := (fold_left Handlers.registerCustom entries (table, [])).2)
    in *.
  assert (Hsettled :
            fold_left Handlers.registerCustom entries (table', [])
            = (table',
               map fst (List.filter
                          (fun e => negb (Handlers.lookup_truthy table'
                                                                 (fst e)))
                          entries))).
  { apply (register_all_settled entries table' []).
    intros cmd mapping Hin Hl.
    destruct (lookup_truthy_registered table table' entries cmd mapping
                Hnd Hin Hexact) as [[Ht Hv] | [_ Hv]]; [| exact Hv].
    unfold Handlers.lookup_truthy in Hl, Ht. rewrite Hv in Hl.
    congruence. }
  rewrite Hsettled. cbn [fst snd].
  split; [reflexivity |]. split.
  - intros r1 r2 H1 H2.
    destruct (forallb (Handlers.line_renders table') added);
      [| discriminate].
    destruct (forallb (Handlers.line_renders table') _); [| discriminate].
    injection H1 as <-. injection H2 as <-.
    cbn [Handlers.total Handlers.addedCommands].
    split; [reflexivity |].
    rewrite Hadded. symmetry.
    apply (filter_names
             (fun e => negb (Handlers.lookup_truthy table (fst e)))
             (fun name => negb (Handlers.lookup_truthy table' name))).
    intros [cmd mapping] Hin Hl. cbn [fst] in *.
    destruct (lookup_truthy_registered table table' entries cmd mapping
                Hnd Hin Hexact) as [[Ht Hv] | [Ht _]];
      [| now rewrite Ht].
    unfold Handlers.lookup_truthy in Hl, Ht. rewrite Hv in Hl.
    rewrite Ht in Hl. discriminate.
  - intros Htruthy.
    assert (Hnone :
              List.filter
                (fun e => negb (Handlers.lookup_truthy table' (fst e)))
                entries = []).
    { apply filter_none. intros [cmd mapping] Hin. cbn [fst].
      destruct (lookup_truthy_registered table table' entries cmd mapping
                  Hnd Hin Hexact) as [[Ht Hv] | [_ Hv]].
      - unfold Handlers.lookup_truthy in *. rewrite Hv, Ht. reflexivity.
      - unfold Handlers.lookup_truthy. rewrite Hv.
        pose proof (Htruthy _ Hin) as Hm. cbn [snd] in Hm.
        cbn [Handlers.truthy]. rewrite Hm. reflexivity. }
    rewrite Hnone. reflexivity.
Qed.

Lemma X7_registration_witness :
  (Handlers.handleRegisterCustomCommands
     (Handlers.handleRegisterCustomCommands initial_table
        (Some custom_request)).1
     (Some custom_request)).1
  = (Handlers.handleRegisterCustomCommands initial_table
       (Some custom_request)).1.
Proof.
  apply (X7_registration_twice initial_table custom_request
           [("setValue", mapping_object "type" "Types text");
            ("tapOn", mapping_object "tap" "Taps element")]).
  - reflexivity.
  - cbn. repeat constructor; cbn; intuition discriminate.
Defined.

(** ** What a migrated tree holds *)

Lemma bind_returns {A B : Type} (x : outcome A) (f : A -> outcome B)
      (b : B) :
  bind x f = Returns b -> exists a, x = Returns a /\ f a = Returns b.
Proof. destruct x; cbn; try discriminate. eauto. Qed.

Ltac unbind H :=
  repeat (apply bind_returns in H as ([? ?] & ? & H); cbv beta iota in H).

Section Migrated.
Variable table : gmap string Mappings.CommandMapping.

Lemma kept_nil (st : state) : kept st [] st.
Proof. split; [reflexivity | tauto]. Qed.

Lemma kept_app (st st1 st2 : state) (a b : list node) :
  kept st a st1 -> kept st1 b st2 -> kept st (a ++ b) st2.
Proof.
  intros [La Ia] [Lb Ib]. split.
  - now rewrite existsb_app, La, Lb.
  - intros H. rewrite existsb_app.
    destruct (Ib H) as [H1 | ->]; [| right; apply orb_true_r].
    destruct (Ia H1) as [H0 | ->]; [now left | now right].
Qed.

Lemma kept_plain (st st' : state) (n : node) (ns : list node) :
  legacy_call n = false -> kept st ns st' -> kept st (n :: ns) st'.
Proof.
  intros Hn [L I]. split.
  - cbn [existsb]. now rewrite Hn, L.
  - intros H. destruct (I H) as [H0 | H1]; [now left |].
    right. cbn [existsb]. rewrite H1. apply orb_true_r.
Qed.

Lemma kept_flag (st st1 st' : state) (ns : list node) :
  hasPlaywrightImport st1 = hasPlaywrightImport st ->
  kept st1 ns st' -> kept st ns st'.
Proof. intros E [L I]. split; [assumption |]. now rewrite <- E. Qed.

(** *** The rules of the call visitor, one by one *)

Lemma describe_rule_call (callee c0 : node) (a0 : list node) (st : state) :
  exists c st',
    describe_rule callee (Call c0 a0) st = (Call c a0, st')
    /\ hasPlaywrightImport st' = hasPlaywrightImport st
    /\ (name_of c = None
        \/ (c = c0 /\ isIdentifierNamed "describe" callee = false)).
Proof.
  unfold describe_rule.
  destruct (isIdentifierNamed "describe" callee); cbn [with_callee];
    eauto 10.
Qed.

Lemma it_rule_call (callee c0 : node) (a0 : list node) (st : state) :
  exists c a st',
    it_rule callee (Call c0 a0) st = (Call c a, st')
    /\ hasPlaywrightImport st' = hasPlaywrightImport st
    /\ (c = Identifier "test"
        \/ (c = c0 /\ a = a0 /\ isIdentifierNamed "it" callee = false)).
Proof.
  unfold it_rule.
  destruct (isIdentifierNamed "it" callee); [| eauto 10].
  match goal with
  | |- context [let '(v1, st1) := ?X in _] =>
      assert (H1 : exists a1 st1,
                 X = (Call c0 a1, st1)
                 /\ hasPlaywrightImport st1 = hasPlaywrightImport st)
  end.
  { cbn [arguments_of]. destruct a0 as [| [] rest]; eauto.
    destruct (0 <? length (extractTagsFromString value))%nat; eauto. }
  destruct H1 as (a1 & st1 & -> & Hf).
  cbn [with_callee arguments_of].
  destruct a1 as [| x a1]; cbn [with_arguments]; eauto 10.
Qed.

Lemma own_hook_names (name : string) :
  own_hook name = None ->
  String.eqb name "before" = false /\ String.eqb name "after" = false
  /\ String.eqb name "beforeEach" = false
  /\ String.eqb name "afterEach" = false.
Proof.
  intros H.
  repeat split;
    match goal with
    | |- String.eqb name ?x = false =>
        destruct (String.eqb_spec name x) as [-> |]; [discriminate H |];
        reflexivity
    end.
Qed.

Lemma hook_rule_call (callee c0 : node) (a0 : list node) (st : state)
      (v : visited) (st' : state) :
  hook_rule callee (Call c0 a0) st = Returns (v, st') ->
  hasPlaywrightImport st' = hasPlaywrightImport st
  /\ exists c a,
       v = Call c a
       /\ (name_of c = None
           \/ (c = c0 /\ a = a0
               /\ forall name, callee = Identifier name ->
                               own_hook name = None)).
Proof.
  unfold hook_rule.
  destruct callee; try (intros [= <- <-]; split; [reflexivity |];
                        exists c0, a0; split; [reflexivity |]; right;
                        repeat split; discriminate).
  destruct (own_hook name) as [hook |] eqn:Eh.
  - cbn [with_callee arguments_of]. intros [= <- <-].
    split; [reflexivity |].
    destruct a0; cbn [with_arguments]; eauto 10.
  - destruct (Mappings.inherited name); [discriminate |].
    intros [= <- <-]. split; [reflexivity |].
    exists c0, a0. split; [reflexivity |]. right.
    repeat split. now intros ? [= <-].
Qed.

Lemma selector_rule_call (callee c0 : node) (a0 : list node) (st : state)
      (v : visited) (st' : state) :
  selector_rule callee (Call c0 a0) st = Returns (v, st') ->
  hasPlaywrightImport st' = hasPlaywrightImport st
  /\ ((exists object method value,
          v = Replaced
                (CallExpression
                   (MemberExpression (Identifier object)
                                     (Identifier method) false)
                   [StringLiteral value]))
      \/ (v = Call c0 a0
          /\ forall name,
               callee = Identifier name ->
               String.eqb name "$" || String.eqb name "$$" = false
               \/ first_is_literal a0 = false)).
Proof.
  unfold selector_rule.
  destruct callee; try (intros [= <- <-]; split; [reflexivity |]; right;
                        split; [reflexivity | discriminate]).
  destruct (String.eqb name "$" || String.eqb name "$$") eqn:En.
  - cbn [arguments_of].
    destruct a0 as [| x rest].
    { intros [= <- <-]. split; [reflexivity |]. right.
      split; [reflexivity |]. intros ? _. now right. }
    destruct x;
      try (intros [= <- <-]; split; [reflexivity |]; right;
           split; [reflexivity |]; intros ? _; now right).
    intros H. apply bind_returns in H as (newAst & Hp & H).
    injection H as <- <-. split; [reflexivity |]. left.
    apply parseExpression_shape in Hp as (o & m & x & ->). eauto.
  - intros [= <- <-]. split; [reflexivity |]. right.
    split; [reflexivity |]. intros ? [= <-]. now left.
Qed.

Lemma command_rule_member (object property : node) (computed : bool)
      (c0 : node) (a0 : list node) (st : state) (v : visited)
      (st' : state) :
  command_rule table (MemberExpression object property computed)
               (Call c0 a0) st = Returns (v, st') ->
  hasPlaywrightImport st' = hasPlaywrightImport st
  /\ exists object' property',
       v = Call (MemberExpression object' property' computed) a0
       /\ (object' = object \/ exists obj, object' = Identifier obj)
       /\ (property' = property \/ isIdentifier property' = true).
Proof.
  unfold command_rule.
  match goal with
  | |- context [let '(p1, s1) := ?X in _] =>
      assert (H1 : hasPlaywrightImport X.2 = hasPlaywrightImport st
                   /\ (X.1 = property \/ isIdentifier X.1 = true));
      [| destruct X as [property1 st1]; cbn [fst snd] in H1 ]
  end.
  { destruct (name_of property) as [name |]; [| cbn; tauto].
    destruct (String.eqb name EmptyString); [cbn; tauto |].
    destruct (Mappings.get table name); cbn; tauto. }
  destruct H1 as [Hf Hp].
  destruct (isIdentifierNamed "browser" object).
  - destruct (Mappings.get table _) as [mapping | |]; try discriminate.
    + destruct (object_and_method _) as [obj method'].
      destruct (isIdentifier property1); [| discriminate].
      cbn [with_callee]. intros [= <- <-]. split; [exact Hf |].
      exists (Identifier obj), (renamed method').
      split; [reflexivity |]. split; [eauto |]. right.
      now destruct method'.
    + cbn [with_callee]. intros [= <- <-]. split; [exact Hf |]. eauto 10.
  - cbn [with_callee]. intros [= <- <-]. split; [exact Hf |]. eauto 10.
Qed.

Lemma legacy_call_unnamed (c : node) (a : list node) :
  name_of c = None -> legacy_call (CallExpression c a) = false.
Proof. now destruct c. Qed.

(** After the visitor the call is no legacy call, or it has been replaced
    by a locator call. *)
Lemma visitCallExpression_cases (callee : node) (arguments : list node)
      (st : state) (v : visited) (st' : state) :
  visitCallExpression table callee arguments st = Returns (v, st') ->
  hasPlaywrightImport st' = hasPlaywrightImport st
  /\ match v with
     | Call c a => legacy_call (CallExpression c a) = false
     | Replaced r =>
         exists object method value,
           r = CallExpression
                 (MemberExpression (Identifier object) (Identifier method)
                                   false)
                 [StringLiteral value]
     end.
Proof.
  destruct callee as [name | | | | | object property computed
                      | | | | | | | | | | | | | | | | |];
    try (unfold visitCallExpression, describe_rule, it_rule, hook_rule,
           selector_rule, command_rule;
         cbn [isIdentifierNamed bind];
         intros [= <- <-]; split; reflexivity).
  - (* an identifier *)
    unfold visitCallExpression.
    destruct (describe_rule_call (Identifier name) (Identifier name)
                arguments st) as (c1 & s1 & -> & F1 & D1).
    destruct (it_rule_call (Identifier name) c1 arguments s1)
      as (c2 & a2 & s2 & -> & F2 & D2).
    intros H. apply bind_returns in H as ([v3 s3] & H3 & H).
    apply hook_rule_call in H3 as (F3 & c3 & a3 & -> & D3).
    apply bind_returns in H as ([v4 s4] & H4 & H).
    apply selector_rule_call in H4 as (F4 & D4).
    cbv beta iota in H. unfold command_rule in H.
    injection H as <- <-.
    split; [congruence |].
    destruct D4 as [(o & m & x & ->) | [-> D4]]; [eauto |].
    destruct D3 as [D3 | (-> & -> & D3)];
      [now apply legacy_call_unnamed |].
    destruct D2 as [-> | (-> & -> & D2)]; [reflexivity |].
    destruct D1 as [D1 | [-> D1]]; [now apply legacy_call_unnamed |].
    cbn [isIdentifierNamed] in D1, D2.
    destruct (own_hook_names name (D3 name eq_refl)) as (B & A & BE & AE).
    cbn [legacy_call legacy_names existsb].
    rewrite D1, D2, B, A, BE, AE. cbn [orb].
    destruct (D4 name eq_refl) as [-> | ->]; [reflexivity |].
    apply andb_false_r.
  - (* a member *)
    unfold visitCallExpression, describe_rule, it_rule, hook_rule,
      selector_rule.
    cbn [isIdentifierNamed bind].
    intros H. apply command_rule_member in H as (F & o & p & -> & _).
    split; [exact F | reflexivity].
Qed.

Lemma legacy_call_head (c1 c2 : node) (a1 a2 : list node) :
  name_of c2 = name_of c1 ->
  first_is_literal a2 = first_is_literal a1 ->
  legacy_call (CallExpression c1 a1) = false ->
  legacy_call (CallExpression c2 a2) = false.
Proof.
  intros Hn Hl. destruct c2; try reflexivity.
  cbn in Hn. destruct c1; try discriminate Hn. injection Hn as ->.
  cbn [legacy_call]. now rewrite Hl.
Qed.

Lemma requeued_kept (r n' : node) (st st' : state) :
  (exists object method value,
      r = CallExpression
            (MemberExpression (Identifier object) (Identifier method) false)
            [StringLiteral value]) ->
  requeued table r st = Returns (n', st') ->
  kept st (nodes n') st' /\ name_of n' = None /\ is_literal n' = false.
Proof.
  intros (o & m & x & ->). unfold requeued. intros H.
  apply bind_returns in H as ([v st1] & Hv & H). cbv beta iota in H.
  unfold visitCallExpression, describe_rule, it_rule, hook_rule,
    selector_rule in Hv.
  cbn [isIdentifierNamed bind] in Hv.
  apply command_rule_member in Hv as (F & o' & p' & -> & Ho & Hp).
  injection H as <- <-.
  split; [| split; reflexivity].
  apply kept_flag with st1; [exact F |].
  split; [| tauto].
  destruct Ho as [-> | [obj ->]], Hp as [-> | Hp]; try reflexivity;
    destruct p'; try discriminate Hp; reflexivity.
Qed.

Section Entered.
Variable enter : node -> state -> outcome (node * state).
Hypothesis enter_kept :
  forall x st x' st',
    enter x st = Returns (x', st') ->
    kept st (nodes x') st'
    /\ name_of x' = name_of x /\ is_literal x' = is_literal x.

Lemma traverse_each_kept (l : list node) :
  forall (st : state) (l' : list node) (st' : state),
    traverse_each enter l st = Returns (l', st') ->
    kept st (flat_map nodes l') st'
    /\ first_is_literal l' = first_is_literal l.
Proof.
  induction l as [| x l IH]; intros st l' st' H; cbn [traverse_each] in H.
  - injection H as <- <-. split; [apply kept_nil | reflexivity].
  - apply bind_returns in H as ([x' st1] & Hx & H). cbv beta iota in H.
    apply bind_returns in H as ([t' st2] & Ht & H). cbv beta iota in H.
    injection H as <- <-.
    apply enter_kept in Hx as (Kx & _ & Lx). apply IH in Ht as [Kt _].
    split; [| exact Lx].
    cbn [flat_map]. now apply kept_app with st1.
Qed.

Lemma imports_legacy_free (k : nat) :
  existsb legacy_call (flat_map nodes (repeat playwright_import k)) = false.
Proof. induction k as [| k IH]; [reflexivity |]. cbn. exact IH. Qed.

Lemma imports_kept (st st0 : state) (k : nat) :
  kept st (flat_map nodes (repeat playwright_import (S k))) st0.
Proof. split; [apply imports_legacy_free |]. intros _. now right. Qed.

Lemma log_times_flag (k : nat) (change : string) (st : state) :
  hasPlaywrightImport (log_times k change st) = hasPlaywrightImport st.
Proof.
  revert st. induction k as [| k IH]; intros st; [reflexivity |].
  cbn [log_times]. now rewrite IH.
Qed.

Lemma declaration_kept (kind : string) (declarations xs : list node)
      (st st1 : state) :
  (let '(stays, st0) := visitVariableDeclaration declarations st in
   let imports := repeat playwright_import (removed stays) in
   match staying stays declarations, removed stays with
   | [], S _ => Returns (imports, st0)
   | kept, _ =>
       let* (kept', st1) := traverse_each enter kept st0 in
       Returns (imports ++ [VariableDeclaration kind kept'], st1)
   end) = Returns (xs, st1) ->
  kept st (flat_map nodes xs) st1.
Proof.
  unfold visitVariableDeclaration. cbv zeta.
  set (stays := forEach_splice false declarations).
  assert (Hrest : forall st0 l,
             traverse_each enter (staying stays declarations) st0
             = Returns (l, st1) ->
             kept st0 (flat_map nodes [VariableDeclaration kind l]) st1).
  { intros st0 l H. apply traverse_each_kept in H as [H _].
    cbn [flat_map nodes]. rewrite app_nil_r.
    now apply kept_plain. }
  destruct (removed stays) as [| k] eqn:Er; cbv beta iota; rewrite ?Er.
  - cbn [repeat app].
    destruct (staying stays declarations) eqn:Es; intros H;
      apply bind_returns in H as ([l' st2] & Hl & H); cbv beta iota in H;
      injection H as <- <-; now apply Hrest.
  - destruct (staying stays declarations) eqn:Es.
    + intros [= <- <-]. apply imports_kept.
    + intros H.
      apply bind_returns in H as ([l' st2] & Hl & H); cbv beta iota in H.
      injection H as <- <-.
      change (kept st
                (flat_map nodes
                   (repeat playwright_import (S k)
                    ++ [VariableDeclaration kind l'])) st2).
      rewrite flat_map_app.
      eapply kept_app; [apply imports_kept |]. apply Hrest. exact Hl.
Qed.

Lemma traverse_statements_kept (l : list node) :
  forall (st : state) (l' : list node) (st' : state),
    traverse_statements enter l st = Returns (l', st') ->
    kept st (flat_map nodes l') st'.
Proof.
  induction l as [| x l IH]; intros st l' st' H;
    cbn [traverse_statements] in H.
  - injection H as <- <-. apply kept_nil.
  - apply bind_returns in H as ([xs st1] & Hx & H). cbv beta iota in H.
    apply bind_returns in H as ([t' st2] & Ht & H). cbv beta iota in H.
    injection H as <- <-. rewrite flat_map_app.
    apply kept_app with st1; [| now apply IH].
    destruct x;
      try (apply bind_returns in Hx as ([x' st0] & Hx & H);
           cbv beta iota in H; injection H as <- <-;
           apply enter_kept in Hx as (Kx & _);
           cbn [flat_map]; now rewrite app_nil_r).
    now apply declaration_kept in Hx.
Qed.

End Entered.

Lemma traverse_kept (fuel : nat) :
  forall (n : node) (st : state) (n' : node) (st' : state),
    traverse table fuel n st = Returns (n', st') ->
    kept st (nodes n') st'
    /\ name_of n' = name_of n /\ is_literal n' = is_literal n.
Proof.
  induction fuel as [| fuel IH]; intros n st n' st' H; [discriminate |].
  pose proof (traverse_each_kept (traverse table fuel) IH) as Heach.
  pose proof (traverse_statements_kept (traverse table fuel) IH) as Hlist.
  destruct n; cbn [traverse] in H.
  4: { (* CallExpression *)
    apply bind_returns in H as ([v st1] & Hv & H). cbv beta iota in H.
    apply visitCallExpression_cases in Hv as (F & Hv).
    destruct v as [c1 a1 | r].
    - unbind H. injection H as <- <-.
      match goal with
      | Hc : traverse _ _ _ _ = Returns _ |- _ =>
          apply IH in Hc as (Kc & Nc & _)
      end.
      match goal with
      | Ha : traverse_each _ _ _ = Returns _ |- _ =>
          apply Heach in Ha as (Ka & La)
      end.
      split; [| split; reflexivity].
      apply kept_flag with st1; [exact F |].
      cbn [nodes]. apply kept_plain.
      + now apply (legacy_call_head c1 _ a1).
      + eapply kept_app; eassumption.
    - apply requeued_kept in H as (K & N & L); [| exact Hv].
      split; [| split; assumption].
      now apply kept_flag with st1. }
  17: { (* ImportDeclaration *)
    unfold visitImportDeclaration in H.
    destruct (String.eqb source "chai" || includes source "chai").
    - unbind H. injection H as <- <-.
      match goal with
      | Ha : traverse_each _ _ _ = Returns _ |- _ =>
          apply Heach in Ha as ([Ka _] & _)
      end.
      split; [| split; reflexivity]. split.
      + cbn [nodes existsb legacy_call]. rewrite existsb_app, Ka.
        reflexivity.
      + intros _. right. reflexivity.
    - unbind H. injection H as <- <-.
      match goal with
      | Ha : traverse_each _ _ _ = Returns _ |- _ =>
          apply Heach in Ha as (Ka & _)
      end.
      split; [| split; reflexivity].
      cbn [nodes]. apply kept_plain; [reflexivity |].
      eapply kept_app; [eassumption |].
      apply kept_plain; [reflexivity | apply kept_nil]. }
  15: { (* VariableDeclaration *)
    destruct (removed _); [| discriminate].
    unbind H. injection H as <- <-.
    match goal with
    | Ha : traverse_each _ _ _ = Returns _ |- _ =>
        apply Heach in Ha as (Ka & _)
    end.
    split; [| split; reflexivity].
    cbn [nodes]. now apply kept_plain. }
  all: unbind H; injection H as <- <-;
    repeat match goal with
           | Hc : traverse _ _ _ _ = Returns _ |- _ =>
               apply IH in Hc as (? & _)
           | Ha : traverse_each _ _ _ = Returns _ |- _ =>
               apply Heach in Ha as (? & _)
           | Ha : traverse_statements _ _ _ = Returns _ |- _ =>
               apply Hlist in Ha
           end;
    (split; [| split; reflexivity]);
    cbn [nodes]; (apply kept_plain; [reflexivity |]);
    repeat first [eassumption | apply kept_nil | eapply kept_app].
Qed.

Lemma existsb_add_Page_import (f : node -> bool) :
  (forall s1 s2 source,
      f (ImportDeclaration s1 source) = f (ImportDeclaration s2 source)) ->
  f (ImportSpecifier (Identifier "Page") (Identifier "Page")) = false ->
  f (Identifier "Page") = false ->
  forall l : list node,
    existsb f (flat_map nodes (map add_Page_import l))
    = existsb f (flat_map nodes l).
Proof.
  intros Hd Hs Hi. induction l as [| n l IH]; [reflexivity |].
  cbn [map flat_map]. rewrite !existsb_app, IH. f_equal.
  unfold add_Page_import. destruct n; try reflexivity.
  destruct (String.eqb source "@playwright/test"); [| reflexivity].
  destruct (existsb _ specifiers); [reflexivity |].
  cbn [nodes existsb]. rewrite flat_map_app, !existsb_app.
  cbn [flat_map nodes existsb app]. rewrite Hs, Hi.
  rewrite (Hd _ specifiers). cbn [orb]. now rewrite orb_false_r.
Qed.

Lemma transformAst_kept (ast ast' : File) (isTypeScript : bool)
      (st : state) :
  transformAst table ast isTypeScript = Returns (ast', st) ->
  existsb legacy_call (file_nodes ast') = false
  /\ existsb imports_playwright (file_nodes ast') = true.
Proof.
  unfold transformAst. intros H.
  apply bind_returns in H as ([ast1 st1] & H1 & H). cbv beta iota in H.
  unfold traverse_file in H1.
  apply bind_returns in H1 as ([body st0] & Hb & H1).
  cbv beta iota in H1. injection H1 as <- <-.
  apply traverse_statements_kept in Hb; [| apply traverse_kept].
  destruct Hb as [L I]. cbn [hasPlaywrightImport] in I.
  cbn [program_body] in H.
  assert (Hfinal :
            forall body2 st2,
              existsb legacy_call (flat_map nodes body2) = false ->
              existsb imports_playwright (flat_map nodes body2) = true ->
              (if isTypeScript
               then Returns
                      ({| program_body := map add_Page_import body2 |},
                       log "Added Page type import for TypeScript" st2)
               else Returns ({| program_body := body2 |}, st2))
              = Returns (ast', st) ->
              existsb legacy_call (file_nodes ast') = false
              /\ existsb imports_playwright (file_nodes ast') = true).
  { intros body2 st2 L2 I2 Hr.
    destruct isTypeScript; injection Hr as <- <-; unfold file_nodes;
      cbn [program_body]; [| tauto].
    rewrite !existsb_add_Page_import; try reflexivity; tauto. }
  destruct (hasPlaywrightImport st0) eqn:E; cbn [negb] in H;
    cbv beta iota in H.
  - apply Hfinal in H; [assumption | assumption |].
    destruct (I eq_refl) as [? | ?]; [discriminate | assumption].
  - apply Hfinal in H; [assumption | | reflexivity]. exact L.
Qed.



Lemma existsb_playwright_marker (ns : list node) :
  existsb imports_playwright ns = true ->
  existsb playwright_marker ns = true.
Proof.
  induction ns as [| n ns IH]; [discriminate |].
  cbn [existsb]. intros H. apply orb_true_iff in H as [H | H].
  - destruct n; try discriminate H. cbn in *. now rewrite H.
  - rewrite (IH H). apply orb_true_r.
Qed.

End Migrated.



(** X9.  A tree the migration has rewritten imports from
    [@playwright/test], so [detectFramework] never takes it for a pure
    WDIO file nor for a file of unknown framework: neither is the verdict
    on the tree, which is what [detectFramework] returns when it
    returns. *)
Theorem X9_migrated_tree_is_seen_as_playwright :
  forall (table : gmap string Mappings.CommandMapping) (ast ast' : File)
         (isTypeScript : bool) (st : state),
    transformAst table ast isTypeScript = Returns (ast', st) ->
    existsb imports_playwright (file_nodes ast') = true
    /\ isWdio (verdict ast') = false
    /\ isUnknown (verdict ast') = false
    /\ forall crawl framework,
         detectFramework crawl ast' = Returns framework ->
         isWdio framework = false /\ isUnknown framework = false.
Proof.
  intros table ast ast' isTypeScript st H.
  apply transformAst_kept in H as [_ I].
  split; [exact I |].
  apply existsb_playwright_marker in I.
  assert (Hv : isWdio (verdict ast') = false
               /\ isUnknown (verdict ast') = false).
  { unfold verdict. cbn [isWdio isUnknown]. rewrite I.
    cbn [negb]. now rewrite !andb_false_r. }
  split; [apply Hv |]. split; [apply Hv |].
  intros crawl framework Hd.
  apply detectFramework_returns in Hd as [_ ->]. exact Hv.
Qed.

Lemma X9_migrated_tree_witness :
  existsb imports_playwright (file_nodes login_click_migrated) = true
  /\ isWdio (verdict login_click_migrated) = false
  /\ isUnknown (verdict login_click_migrated) = false
  /\ forall crawl framework,
       detectFramework crawl login_click_migrated = Returns framework ->
       isWdio framework = false /\ isUnknown framework = false.
Proof.
  apply (X9_migrated_tree_is_seen_as_playwright Mappings.COMMAND_MAPPINGS
           login_click login_click_migrated false
           {| changes := ["Transformed .click() to .click()";
                          "Transformed $('#login') to page.locator('#login')";
                          "Added @playwright/test import"];
              migratedTags := [];
              hasPlaywrightImport := false |}).
  reflexivity.
Defined.

(** ** Names every object inherits *)

(** X10.  A method call whose method name is one every object inherits
    ([toString], [valueOf], [hasOwnProperty], ...) and has no mapping of
    its own is taken for a mapped command: the method name is overwritten
    with [undefined] and a change is logged. *)
Theorem X10_inherited_method_name_is_lost :
  forall (table : gmap string Mappings.CommandMapping)
         (object : node) (name : string) (computed : bool)
         (arguments : list node) (st : state),
    In name Mappings.Object_prototype_names ->
    table !! name = None ->
    isIdentifierNamed "browser" object = false ->
    visitCallExpression table
      (MemberExpression object (Identifier name) computed) arguments st
    = Returns
        (Call (MemberExpression object UnnamedIdentifier computed)
              arguments,
         log ("Transformed ." +:+ name +:+ "() to .undefined()") st).
Proof.
  intros table object name computed arguments st Hin Hnone Hobj.
  unfold visitCallExpression, describe_rule, it_rule, hook_rule,
    selector_rule, command_rule.
  cbn [isIdentifierNamed bind name_of].
  assert (Hget : Mappings.get table name = Mappings.Inherited).
  { unfold Mappings.get. rewrite Hnone.
    cbn in Hin.
    repeat (destruct Hin as [<- | Hin]; [reflexivity |]). elim Hin. }
  assert (Hne : String.eqb name EmptyString = false).
  { cbn in Hin.
    repeat (destruct Hin as [<- | Hin]; [reflexivity |]). elim Hin. }
  rewrite Hne, Hget, Hobj. reflexivity.
Qed.

Lemma X10_inherited_method_witness :
  visitCallExpression Mappings.COMMAND_MAPPINGS
    (MemberExpression (Identifier "price") (Identifier "toString") false)
    []
    {| changes := []; migratedTags := []; hasPlaywrightImport := false |}
  = Returns
      (Call (MemberExpression (Identifier "price") UnnamedIdentifier false)
            [],
       log ("Transformed ." +:+ "toString" +:+ "() to .undefined()")
           {| changes := []; migratedTags := [];
              hasPlaywrightImport := false |}).
Proof.
  apply X10_inherited_method_name_is_lost.
  - cbn. tauto.
  - reflexivity.
  - reflexivity.
Defined.

(** X11.  A call of such a name as a bare function makes the visitor
    throw, whatever the table holds, and with it the rewriting of a file
    that holds the call as a statement. *)
Theorem X11_inherited_name_call_throws :
  forall (table : gmap string Mappings.CommandMapping) (name : string)
         (arguments : list node) (st : state) (isTypeScript : bool),
    In name Mappings.Object_prototype_names ->
    visitCallExpression table (Identifier name) arguments st
    = Throws TypeError
    /\ transformAst table
         {| program_body :=
              [ExpressionStatement
                 (CallExpression (Identifier name) arguments)] |}
         isTypeScript
       = Throws TypeError.
Proof.
  intros table name arguments st isTypeScript Hin.
  assert (Hvisit : forall st',
             visitCallExpression table (Identifier name) arguments st'
             = Throws TypeError).
  { intros st'. cbn in Hin.
    repeat (destruct Hin as [<- | Hin]; [reflexivity |]). elim Hin. }
  split; [apply Hvisit |].
  unfold transformAst, traverse_file. cbn [program_body].
  set (call := CallExpression (Identifier name) arguments).
  assert (Hd : exists d, depth_all [ExpressionStatement call] = S (S d)).
  { unfold depth_all. cbn [fold_right].
    change (depth (ExpressionStatement call)) with (S (depth call)).
    pose proof (depth_positive call).
    destruct (depth call) as [| d]; [lia |].
    exists d. lia. }
  destruct Hd as [d ->].
  cbn [traverse_statements traverse]. unfold call.
  cbn [traverse]. rewrite Hvisit. reflexivity.
Qed.

Lemma X11_inherited_name_witness :
  visitCallExpression Mappings.COMMAND_MAPPINGS (Identifier "valueOf") []
    {| changes := []; migratedTags := []; hasPlaywrightImport := false |}
  = Throws TypeError
  /\ transformAst Mappings.COMMAND_MAPPINGS
       {| program_body :=
            [ExpressionStatement
               (CallExpression (Identifier "valueOf") [])] |}
       false
     = Throws TypeError.
Proof.
  apply X11_inherited_name_call_throws. cbn. tauto.
Defined.

(** ** Removing a declarator while iterating *)

Section Splice.

Lemma forEach_splice_length (declarations : list node) :
  forall passed_over : bool,
    length (forEach_splice passed_over declarations) = length declarations.
Proof.
  induction declarations as [| d rest IH]; intros passed_over;
    [reflexivity |].
  cbn [forEach_splice].
  destruct passed_over; [| destruct (is_chai_require d)];
    cbn [length]; now rewrite IH.
Qed.

Lemma forEach_splice_removed (declarations : list node) :
  forall (passed_over : bool) (i : nat),
    nth i (forEach_splice passed_over declarations) true = false ->
    is_chai_require (nth i declarations Missing) = true
    /\ nth (S i) (forEach_splice passed_over declarations) true = true
    /\ (passed_over = true -> i <> 0).
Proof.
  induction declarations as [| d rest IH]; intros passed_over i H.
  - destruct i; discriminate H.
  - cbn [forEach_splice] in *.
    destruct passed_over.
    + destruct i as [| i]; [discriminate H |]. cbn [nth] in *.
      destruct (IH false i H) as (Hc & Hn & _). auto.
    + destruct (is_chai_require d) eqn:Ed.
      * destruct i as [| i]; cbn [nth] in *.
        -- split; [exact Ed |]. split; [| discriminate].
           destruct rest as [| d' rest']; reflexivity.
        -- destruct (IH true i H) as (Hc & Hn & _). auto.
      * destruct i as [| i]; [discriminate H |]. cbn [nth] in *.
        destruct (IH false i H) as (Hc & Hn & _). auto.
Qed.

End Splice.

(** X12.  The declarators of one declaration are dropped while the list
    is iterated, so the declarator after a dropped one is passed over: only
    [require]s of chai are dropped, never two neighbours, and of two
    neighbouring chai [require]s the second stays. *)
Theorem X12_forEach_splice_passes_over_successor :
  forall (declarations : list node),
    length (forEach_splice false declarations) = length declarations
    /\ (forall i,
           nth i (forEach_splice false declarations) true = false ->
           is_chai_require (nth i declarations Missing) = true
           /\ nth (S i) (forEach_splice false declarations) true = true)
    /\ (forall d1 d2 rest,
           declarations = d1 :: d2 :: rest ->
           is_chai_require d1 = true ->
           staying (forEach_splice false declarations) declarations
           = d2 :: staying (forEach_splice false rest) rest).
Proof.
  intros declarations. split; [apply forEach_splice_length |]. split.
  - intros i H. apply forEach_splice_removed in H as (Hc & Hn & _). auto.
  - intros d1 d2 rest -> H1. cbn [forEach_splice]. rewrite H1. reflexivity.
Qed.

Lemma X12_forEach_splice_witness :
  staying
    (forEach_splice false
       [VariableDeclarator (Identifier "a")
          (CallExpression (Identifier "require") [StringLiteral "chai"]);
        VariableDeclarator (Identifier "b")
          (CallExpression (Identifier "require") [StringLiteral "chai"])])
    [VariableDeclarator (Identifier "a")
       (CallExpression (Identifier "require") [StringLiteral "chai"]);
     VariableDeclarator (Identifier "b")
       (CallExpression (Identifier "require") [StringLiteral "chai"])]
  = VariableDeclarator (Identifier "b")
      (CallExpression (Identifier "require") [StringLiteral "chai"])
    :: staying (forEach_splice false []) [].
Proof.
  apply (proj2 (proj2 (X12_forEach_splice_passes_over_successor
                         [VariableDeclarator (Identifier "a")
                            (CallExpression (Identifier "require")
                                            [StringLiteral "chai"]);
                          VariableDeclarator (Identifier "b")
                            (CallExpression (Identifier "require")
                                            [StringLiteral "chai"])]))
           (VariableDeclarator (Identifier "a")
              (CallExpression (Identifier "require") [StringLiteral "chai"]))
           (VariableDeclarator (Identifier "b")
              (CallExpression (Identifier "require") [StringLiteral "chai"]))
           []);
    reflexivity.
Defined.

(** ** The two output formats *)

Section Formats.
Variable parseCode : string -> option File.
Variable generate : File -> string.
Variable Analysis : Type.
Variable table : gmap string Mappings.CommandMapping.

Lemma transformAst_formats (ast : File) :
  match transformAst table ast false with
  | Returns (ast', st) =>
      transformAst table ast true
      = Returns ({| program_body :=
                      map add_Page_import (program_body ast') |},
                 log "Added Page type import for TypeScript" st)
  | Throws e => transformAst table ast true = Throws e
  | Unmodelled => transformAst table ast true = Unmodelled
  | OutOfFuel => transformAst table ast true = OutOfFuel
  end.
Proof.
  unfold transformAst.
  destruct (traverse_file table ast _) as [[ast1 st1] | e | |];
    cbn [bind]; try reflexivity.
  destruct (negb (hasPlaywrightImport st1)); reflexivity.
Qed.

End Formats.

(** X13.  The TypeScript run of the migration does what the JavaScript
    run does and two steps more: it succeeds when the JavaScript run
    succeeds, reports the same tags, and logs the same changes followed by
    the Page import and the type annotations (a file that is already
    Playwright gives the same result in both); and it throws when the
    JavaScript run throws. *)
Theorem X13_typescript_run_extends_javascript_run :
  forall (parseCode : string -> option File) (crawl : File -> bool)
         (generate : File -> string) (Analysis : Type)
         (table : gmap string Mappings.CommandMapping)
         (testContent : string) (analysis : option Analysis),
    (forall r,
        performAstMigration parseCode crawl generate Analysis table
                            testContent
                            analysis false = Returns r ->
        exists r',
          performAstMigration parseCode crawl generate Analysis table
                            testContent
                              analysis true = Returns r'
          /\ tags r' = tags r
          /\ ((r' = r /\ result_changes r = [])
              \/ result_changes r'
                 = result_changes r
                   ++ ["Added Page type import for TypeScript";
                       "Added TypeScript type annotations"]))
    /\ (forall e,
           performAstMigration parseCode crawl generate Analysis table
                            testContent
                               analysis false = Throws e ->
           performAstMigration parseCode crawl generate Analysis table
                            testContent
                               analysis true = Throws e).
Proof.
  intros parseCode crawl generate Analysis table testContent analysis.
  unfold performAstMigration.
  destruct (parseCode testContent) as [ast |].
  2: { split; [discriminate | tauto]. }
  unfold detectFramework. destruct (crawl ast); cbn [bind].
  2: { split; [discriminate | tauto]. }
  destruct (isPlaywright (verdict ast)).
  { split; [| discriminate]. intros r [= <-]. eexists. split; [reflexivity |].
    split; [reflexivity |]. left. split; reflexivity. }
  pose proof (transformAst_formats table ast) as H.
  destruct (transformAst table ast false) as [[ast' st] | e | |];
    rewrite H; cbn [bind].
  - split; [| discriminate]. intros r [= <-]. eexists.
    split; [reflexivity |]. split; [reflexivity |]. right.
    cbn [result_changes log changes]. now rewrite <- app_assoc.
  - split; [discriminate | tauto].
  - split; discriminate.
  - split; discriminate.
Qed.

Lemma X13_typescript_run_witness :
  exists r',
    performAstMigration sample_parseCode sample_crawl sample_generate unit
      Mappings.COMMAND_MAPPINGS login_click_source None true = Returns r'
    /\ tags r' = []
    /\ ((r' = {| result_code := login_click_migrated_source;
                 notes :=
                   generateMigrationNotes
                     ["Transformed .click() to .click()";
                      "Transformed $('#login') to page.locator('#login')";
                      "Added @playwright/test import"] false;
                 result_changes :=
                   ["Transformed .click() to .click()";
                    "Transformed $('#login') to page.locator('#login')";
                    "Added @playwright/test import"];
                 tags := [] |}
         /\ ["Transformed .click() to .click()";
             "Transformed $('#login') to page.locator('#login')";
             "Added @playwright/test import"] = [])
        \/ result_changes r'
           = ["Transformed .click() to .click()";
              "Transformed $('#login') to page.locator('#login')";
              "Added @playwright/test import"]
             ++ ["Added Page type import for TypeScript";
                 "Added TypeScript type annotations"]).
Proof.
  apply (proj1 (X13_typescript_run_extends_javascript_run
                  sample_parseCode sample_crawl sample_generate unit
                  Mappings.COMMAND_MAPPINGS login_click_source None)
           {| result_code := login_click_migrated_source;
              notes :=
                generateMigrationNotes
                  ["Transformed .click() to .click()";
                   "Transformed $('#login') to page.locator('#login')";
                   "Added @playwright/test import"] false;
              result_changes :=
                ["Transformed .click() to .click()";
                 "Transformed $('#login') to page.locator('#login')";
                 "Added @playwright/test import"];
              tags := [] |}).
  reflexivity.
Defined.

(** ** The names of the page object *)

Section CamelCase.
Import Pom.

Lemma upper_keeps_unseparated (c : ascii) :
  is_separator c = false -> is_separator (toUpperChar c) = false.
Proof. destruct c as [[] [] [] [] [] [] [] []]; vm_compute; tauto. Qed.

Lemma lower_keeps_unseparated (c : ascii) :
  is_separator c = false -> is_separator (toLowerChar c) = false.
Proof. destruct c as [[] [] [] [] [] [] [] []]; vm_compute; tauto. Qed.

Lemma toLowerChar_twice (c : ascii) :
  toLowerChar (toLowerChar c) = toLowerChar c.
Proof. destruct c as [[] [] [] [] [] [] [] []]; reflexivity. Qed.

Lemma separators_then_char_capture (s cap : chars) (len : nat) :
  separators_then_char s = Some (cap, len) ->
  unseparated (map toUpperChar cap) = true.
Proof.
  unfold separators_then_char.
  pose proof (span_stops is_separator s) as Hstop.
  destruct (span is_separator s) as [[| x run] [| d rest]]; cbn [snd] in *;
    try discriminate; try (intros [= <- _]; reflexivity).
  destruct (is_line_terminator d); intros [= <- _]; [reflexivity |].
  cbn. now rewrite (upper_keeps_unseparated d Hstop).
Qed.

Lemma separators_then_char_none (c : ascii) (t : chars) :
  separators_then_char (c :: t) = None <-> is_separator c = false.
Proof.
  unfold separators_then_char. cbn [span].
  destruct (is_separator c).
  - destruct (span is_separator t) as [run [| d rest]];
      [| destruct (is_line_terminator d)]; split; discriminate.
  - tauto.
Qed.

Lemma replace_separators_unseparated (s : chars) :
  unseparated (replace_all separators_then_char (map toUpperChar) s) = true.
Proof.
  induction s as [| c t IH] using suffix_ind; [reflexivity |].
  rewrite replace_all_cons.
  destruct (separators_then_char (c :: t)) as [[cap len] |] eqn:E.
  - unfold unseparated in *. rewrite forallb_app.
    apply separators_then_char_capture in E. unfold unseparated in E.
    now rewrite E, IH.
  - apply separators_then_char_none in E.
    unfold unseparated in *. cbn [forallb]. rewrite E. apply (IH 0).
Qed.

Lemma replace_separators_none (s : chars) :
  unseparated s = true ->
  replace_all separators_then_char (map toUpperChar) s = s.
Proof.
  induction s as [| c t IH]; [reflexivity |].
  unfold unseparated. cbn [forallb]. intros H.
  apply andb_prop in H as [Hc Ht]. apply negb_true_iff in Hc.
  rewrite replace_all_cons.
  rewrite (proj2 (separators_then_char_none c t) Hc).
  now rewrite (IH Ht).
Qed.

Lemma toCamelCase_unseparated (str : chars) :
  unseparated (toCamelCase str) = true.
Proof.
  unfold toCamelCase.
  pose proof (replace_separators_unseparated str) as H.
  destruct (replace_all _ _ str) as [| c t]; [reflexivity |].
  destruct (is_line_terminator c); [exact H |].
  unfold unseparated in *. cbn [forallb] in *.
  apply andb_prop in H as [Hc Ht]. apply negb_true_iff in Hc.
  now rewrite (lower_keeps_unseparated c Hc), Ht.
Qed.

End CamelCase.

(** X14.  [toCamelCase] leaves no dash, underscore or white space in a
    name, and applying it to its own result changes nothing. *)
Theorem X14_toCamelCase_unseparated_and_idempotent :
  forall str : chars,
    unseparated (Pom.toCamelCase str) = true
    /\ Pom.toCamelCase (Pom.toCamelCase str) = Pom.toCamelCase str.
Proof.
  intros str.
  pose proof (toCamelCase_unseparated str) as Hu.
  split; [exact Hu |].
  unfold Pom.toCamelCase at 1.
  rewrite (replace_separators_none _ Hu).
  unfold Pom.toCamelCase.
  destruct (replace_all _ _ str) as [| c t]; [reflexivity |].
  destruct (is_line_terminator c) eqn:Ec; [now rewrite Ec |].
  destruct (is_line_terminator (toLowerChar c)); [reflexivity |].
  now rewrite toLowerChar_twice.
Qed.

Section FieldNames.
Import Pom.

Lemma unseparated_app (a b : chars) :
  unseparated (a ++ b) = unseparated a && unseparated b.
Proof. apply forallb_app. Qed.

Lemma digit_unseparated (n : nat) :
  is_separator (digit_char (n mod 10)) = false.
Proof.
  pose proof (Nat.mod_upper_bound n 10) as H.
  destruct (n mod 10) as [| [| [| [| [| [| [| [| [| [| k]]]]]]]]]];
    try reflexivity.
  lia.
Qed.

Lemma decimal_fuel_unseparated (fuel : nat) :
  forall (n : nat) (acc : chars),
    unseparated acc = true ->
    unseparated (decimal_fuel fuel n acc) = true.
Proof.
  induction fuel as [| fuel IH]; intros n acc Hacc; [exact Hacc |].
  cbn [decimal_fuel].
  assert (H : unseparated (digit_char (n mod 10) :: acc) = true).
  { unfold unseparated in *. cbn [forallb].
    now rewrite digit_unseparated, Hacc. }
  destruct (n / 10 =? 0)%nat; [exact H | now apply IH].
Qed.

Lemma positional_unseparated (index : nat) :
  unseparated (chars_of ("element" +:+ decimal (index + 1))) = true.
Proof.
  rewrite chars_of_append, unseparated_app. unfold decimal.
  rewrite chars_of_str_of, decimal_fuel_unseparated; reflexivity.
Qed.

End FieldNames.

(** X15.  The field name the page object gives a locator never holds a
    dash, an underscore or white space, whatever the selector. *)
Theorem X15_locator_names_are_unseparated :
  forall (locator : Pom.Locator) (index : nat),
    unseparated (chars_of (Pom.generateLocatorName locator index)) = true.
Proof.
  intros locator index. unfold Pom.generateLocatorName.
  pose proof (positional_unseparated index) as Hp.
  destruct (Pom.selector locator) as [selector |]; [| exact Hp].
  destruct (String.eqb selector EmptyString); [exact Hp |].
  repeat match goal with
         | |- context [match ?x with Some _ => _ | None => _ end] =>
             destruct x
         end;
    try exact Hp;
    rewrite ?chars_of_append, ?unseparated_app, chars_of_str_of;
    rewrite toCamelCase_unseparated; reflexivity.
Qed.

Section PageNames.
Import Pom.

Lemma replace_first_eq (p : pattern) (f : chars -> chars) (s : chars) :
  replace_first p f s
  = match p s with
    | Some (cap, len) => f cap ++ skipn len s
    | None => match s with
              | [] => []
              | c :: t => c :: replace_first p f t
              end
    end.
Proof. destruct s; reflexivity. Qed.

Lemma replace_first_none (p : pattern) (f : chars -> chars) (s : chars) :
  (forall k, p (skipn k s) = None) -> replace_first p f s = s.
Proof.
  induction s as [| c t IH]; intros H; rewrite replace_first_eq;
    pose proof (H 0) as H0; cbn [skipn] in H0; rewrite H0;
    [reflexivity |].
  f_equal. apply IH. intros k. apply (H (S k)).
Qed.

Lemma span_whole (f : ascii -> bool) (l : chars) :
  forallb f l = true -> span f l = (l, []).
Proof.
  intros H. rewrite <- (app_nil_r l) at 1. now apply span_app_all.
Qed.

Lemma span_app_prefix (f : ascii -> bool) (w r : chars) :
  forallb f w = true ->
  span f (w ++ r) = (w ++ fst (span f r), snd (span f r)).
Proof.
  intros H. induction w as [| c w IH];
    [cbn [app]; now destruct (span f r) |].
  cbn [forallb] in H. apply andb_prop in H as [Hc Hw].
  cbn [app span]. rewrite Hc, (IH Hw). reflexivity.
Qed.

Lemma forallb_skipn (f : ascii -> bool) (k : nat) (s : chars) :
  forallb f s = true -> forallb f (skipn k s) = true.
Proof.
  rewrite !forallb_forall. intros H c Hc. apply H.
  now apply In_skipn in Hc.
Qed.

Lemma forallb_span_fst (f g : ascii -> bool) (s : chars) :
  forallb f s = true -> forallb f (fst (span g s)) = true.
Proof.
  rewrite !forallb_forall. intros H c Hc. apply H.
  now apply In_span_fst in Hc.
Qed.

Lemma directories_none (s : chars) :
  forallb (fun c => negb (Ascii.eqb c "/")) s = true ->
  directories s = None.
Proof.
  intros H. unfold directories.
  rewrite span_whole; [reflexivity |].
  rewrite forallb_forall. intros c Hc. apply in_rev in Hc.
  apply In_span_fst in Hc. rewrite forallb_forall in H. now apply H.
Qed.

Lemma directories_at_slash (dir file : chars) :
  forallb (fun c => negb (is_line_terminator c)) dir = true ->
  forallb (fun c => negb (Ascii.eqb c "/")) file = true ->
  directories (dir ++ "/"%char :: file) = Some ([], S (length dir)).
Proof.
  intros Hdir Hfile. unfold directories.
  rewrite (span_app_prefix _ dir _ Hdir). cbn [fst].
  change (span (fun c => negb (is_line_terminator c)) ("/"%char :: file))
    with (let (a, b) := span (fun c => negb (is_line_terminator c)) file in
          ("/"%char :: a, b)).
  pose proof (forallb_span_fst (fun c => negb (Ascii.eqb c "/"))
                (fun c => negb (is_line_terminator c)) file Hfile) as Hline.
  destruct (span (fun c => negb (is_line_terminator c)) file)
    as [line rest].
  cbn [fst] in *. rewrite rev_app_distr. cbn [rev]. rewrite <- app_assoc.
  cbn [app]. rewrite span_app_all.
  - now rewrite length_rev.
  - rewrite forallb_forall in *. intros c Hc. apply Hline.
    now apply in_rev.
  - reflexivity.
Qed.

Lemma skipn_past (dir file : chars) :
  skipn (S (length dir)) (dir ++ "/"%char :: file) = file.
Proof. induction dir as [| c dir IH]; [reflexivity | exact IH]. Qed.

Lemma test_suffix_length (s : chars) (x : chars * nat) :
  test_suffix s = Some x -> length s = 8.
Proof.
  unfold test_suffix. cbn [existsb].
  destruct (String.eqb_spec (str_of s) ".spec.js") as [E | _];
    [| destruct (String.eqb_spec (str_of s) ".spec.ts") as [E | _];
       [| destruct (String.eqb_spec (str_of s) ".test.js") as [E | _];
          [| destruct (String.eqb_spec (str_of s) ".test.ts") as [E | _];
             [| discriminate]]]];
    intros _; rewrite <- (chars_of_str_of s), E; reflexivity.
Qed.

Lemma strip_test_suffix (name : chars) (suffix : string) :
  In suffix test_suffixes ->
  replace_first test_suffix (fun _ => []) (name ++ chars_of suffix) = name.
Proof.
  intros Hs. induction name as [| c name IH]; rewrite replace_first_eq.
  - cbn in Hs.
    destruct Hs as [<- | [<- | [<- | [<- | []]]]]; reflexivity.
  - destruct (test_suffix ((c :: name) ++ chars_of suffix)) eqn:E.
    + apply test_suffix_length in E. cbn [app length] in E.
      rewrite length_app in E.
      assert (length (chars_of suffix) = 8).
      { cbn in Hs.
        destruct Hs as [<- | [<- | [<- | [<- | []]]]]; reflexivity. }
      lia.
    + cbn [app]. now rewrite IH.
Qed.

Lemma suffix_has_no_slash (suffix : string) :
  In suffix test_suffixes ->
  forallb (fun c => negb (Ascii.eqb c "/")) (chars_of suffix) = true.
Proof.
  intros Hs. cbn in Hs.
  destruct Hs as [<- | [<- | [<- | [<- | []]]]]; reflexivity.
Qed.

Lemma replace_dashes_none (s : chars) :
  forallb is_alnum s = true ->
  replace_all dash_or_underscore (fun _ => [" "%char]) s = s.
Proof.
  induction s as [| c t IH]; [reflexivity |].
  cbn [forallb]. intros H. apply andb_prop in H as [Hc Ht].
  rewrite replace_all_cons.
  assert (E : dash_or_underscore (c :: t) = None).
  { unfold dash_or_underscore. revert Hc.
    destruct c as [[] [] [] [] [] [] [] []]; vm_compute;
      intros; congruence. }
  now rewrite E, (IH Ht).
Qed.

Lemma split_chars_none (s cur : chars) :
  forallb is_alnum s = true ->
  split_chars " " cur s = [rev cur ++ s].
Proof.
  revert cur. induction s as [| c t IH]; intros cur H.
  - cbn. now rewrite app_nil_r.
  - cbn [forallb] in H. apply andb_prop in H as [Hc Ht].
    cbn [split_chars].
    assert (E : Ascii.eqb c " " = false).
    { revert Hc. destruct c as [[] [] [] [] [] [] [] []]; vm_compute;
        intros; congruence. }
    rewrite E, (IH _ Ht). cbn [rev]. now rewrite <- app_assoc.
Qed.

(** The base name of [generatePageName] for a path made of a directory,
    a slash, a name and a test suffix. *)
Lemma base_name (dir name : chars) (suffix : string) :
  forallb (fun c => negb (is_line_terminator c)) dir = true ->
  forallb (fun c => negb (Ascii.eqb c "/")) name = true ->
  In suffix test_suffixes ->
  replace_first test_suffix (fun _ => [])
    (replace_first directories (fun _ => [])
       (dir ++ "/"%char :: name ++ chars_of suffix))
  = name.
Proof.
  intros Hdir Hname Hs.
  rewrite (replace_first_eq directories).
  rewrite directories_at_slash; [| assumption |].
  - rewrite skipn_past. cbn [app]. now apply strip_test_suffix.
  - rewrite forallb_app, Hname. now apply suffix_has_no_slash.
Qed.

Lemma base_name_plain (name : chars) (suffix : string) :
  forallb (fun c => negb (Ascii.eqb c "/")) name = true ->
  In suffix test_suffixes ->
  replace_first test_suffix (fun _ => [])
    (replace_first directories (fun _ => []) (name ++ chars_of suffix))
  = name.
Proof.
  intros Hname Hs.
  rewrite (replace_first_none directories).
  - now apply strip_test_suffix.
  - intros k. apply directories_none. apply forallb_skipn.
    rewrite forallb_app, Hname. now apply suffix_has_no_slash.
Qed.

End PageNames.

(** X16.  [generatePageName] looks at the file name only: for a path made
    of a directory, a slash, a name without slash and one of the four test
    suffixes, the class name is the one of the bare name with the suffix
    [.spec.js]; when the name is made of letters and digits it is the name
    with its first letter in upper case, followed by Page. *)
Theorem X16_generatePageName_ignores_directory_and_suffix :
  forall (dir name suffix : string),
    forallb (fun c => negb (is_line_terminator c)) (chars_of dir) = true ->
    forallb (fun c => negb (Ascii.eqb c "/")) (chars_of name) = true ->
    In suffix test_suffixes ->
    Pom.generatePageName (dir +:+ "/" +:+ name +:+ suffix)
    = Pom.generatePageName (name +:+ ".spec.js")
    /\ (forallb is_alnum (chars_of name) = true ->
        Pom.generatePageName (dir +:+ "/" +:+ name +:+ suffix)
        = str_of (Pom.capitalize (chars_of name)) +:+ "Page").
Proof.
  intros dir name suffix Hdir Hname Hs.
  unfold Pom.generatePageName.
  rewrite !chars_of_append.
  change (chars_of "/" ++ chars_of name ++ chars_of suffix)
    with ("/"%char :: chars_of name ++ chars_of suffix).
  rewrite (base_name _ _ _ Hdir Hname Hs).
  rewrite (base_name_plain _ ".spec.js" Hname) by (cbn; tauto).
  split; [reflexivity |].
  intros Halnum.
  rewrite (replace_dashes_none _ Halnum), (split_chars_none _ [] Halnum).
  cbn [rev app map concat]. now rewrite app_nil_r.
Qed.

Lemma X16_generatePageName_witness :
  Pom.generatePageName ("tests/e2e" +:+ "/" +:+ "checkout" +:+ ".test.ts")
  = Pom.generatePageName ("checkout" +:+ ".spec.js")
  /\ (forallb is_alnum (chars_of "checkout") = true ->
      Pom.generatePageName ("tests/e2e" +:+ "/" +:+ "checkout" +:+ ".test.ts")
      = str_of (Pom.capitalize (chars_of "checkout")) +:+ "Page").
Proof.
  apply X16_generatePageName_ignores_directory_and_suffix;
    [reflexivity | reflexivity | cbn; tauto].
Defined.

(** ** The target file of a migration *)

Section TargetFile.
Import Handlers.

Lemma script_extension_length (s : chars) (x : chars * nat) :
  script_extension s = Some x -> length s = 3.
Proof.
  unfold script_extension. cbn [existsb].
  destruct (String.eqb_spec (str_of s) ".js") as [E | _];
    [| destruct (String.eqb_spec (str_of s) ".ts") as [E | _];
       [| discriminate]];
    intros _; rewrite <- (chars_of_str_of s), E; reflexivity.
Qed.

Lemma replace_extension (base extension : chars) (target : chars) :
  extension = chars_of ".js" \/ extension = chars_of ".ts" ->
  Pom.replace_first script_extension (fun _ => target) (base ++ extension)
  = base ++ target.
Proof.
  intros He. induction base as [| c base IH]; rewrite replace_first_eq.
  - destruct He as [-> | ->]; cbn; now rewrite app_nil_r.
  - destruct (script_extension ((c :: base) ++ extension)) eqn:E.
    + apply script_extension_length in E. cbn [app length] in E.
      rewrite length_app in E.
      assert (length extension = 3) by (destruct He as [-> | ->]; reflexivity).
      lia.
    + cbn [app]. now rewrite IH.
Qed.

Lemma endsWith_ts (base : string) : endsWith (base +:+ ".ts") ".ts" = true.
Proof.
  unfold endsWith. rewrite chars_of_append, rev_app_distr. reflexivity.
Qed.

Lemma endsWith_js (base : string) : endsWith (base +:+ ".js") ".ts" = false.
Proof.
  unfold endsWith. rewrite chars_of_append, rev_app_distr. reflexivity.
Qed.

Lemma str_of_app (a b : chars) : str_of (a ++ b) = str_of a +:+ str_of b.
Proof.
  induction a as [| c a IH]; [reflexivity |].
  cbn [app]. unfold str_of in *. cbn [string_of_list_ascii].
  now rewrite IH.
Qed.

End TargetFile.

(** X17.  The target file of a migration: a path ending in [.js] gets
    [.spec.js] in place of [.js], or [.spec.ts] when TypeScript output is
    asked for; a path ending in [.ts] gets [.spec.ts] whatever the output
    format.  The extension is replaced also when [.spec] is already
    there. *)
Theorem X17_target_file_extension :
  forall (outputFormat base : string),
    Handlers.targetFile outputFormat (base +:+ ".js")
    = base +:+ (if String.eqb outputFormat "typescript"
                then ".spec.ts" else ".spec.js")
    /\ Handlers.targetFile outputFormat (base +:+ ".ts")
       = base +:+ ".spec.ts"
    /\ Handlers.targetFile outputFormat (base +:+ ".spec.js")
       = base +:+ ".spec" +:+ (if String.eqb outputFormat "typescript"
                               then ".spec.ts" else ".spec.js").
Proof.
  intros outputFormat base.
  assert (Hjs : forall b,
             Handlers.targetFile outputFormat (b +:+ ".js")
             = b +:+ (if String.eqb outputFormat "typescript"
                      then ".spec.ts" else ".spec.js")).
  { intros b. unfold Handlers.targetFile, Handlers.isTypeScript.
    rewrite endsWith_js, orb_false_r, chars_of_append.
    destruct (String.eqb outputFormat "typescript");
      rewrite replace_extension by (now left);
      now rewrite str_of_app, str_of_chars_of. }
  split; [apply Hjs |]. split.
  - unfold Handlers.targetFile, Handlers.isTypeScript.
    rewrite endsWith_ts, orb_true_r, chars_of_append.
    rewrite replace_extension by (now right).
    now rewrite str_of_app, str_of_chars_of.
  - change (base +:+ ".spec.js") with (base +:+ ".spec" +:+ ".js").
    rewrite <- (append_assoc3 base ".spec" ".js"), Hjs.
    now rewrite append_assoc3.
Qed.

(** ** The analysis and the framework check *)

Section Analysis.

Lemma selector_of_wdio (n : node) :
  selector_of n <> [] -> wdio_marker n = true.
Proof.
  destruct n as [| | | callee arguments | | | | | | | | | | | | | | | | | | |];
    try (intros H; now elim H).
  destruct callee as [name | | | | | | | | | | | | | | | | | | | | | |];
    try (intros H; now elim H).
  destruct arguments as [| [] rest]; try (intros H; now elim H).
  cbn [selector_of wdio_marker isIdentifierNamed].
  destruct (String.eqb name "$"); [reflexivity |].
  destruct (String.eqb name "$$"); [reflexivity |].
  intros H. now elim H.
Qed.

Lemma In_flat_map_selector_of (ns : list node) (x : string * string) :
  In x (flat_map selector_of ns) -> existsb wdio_marker ns = true.
Proof.
  rewrite in_flat_map. intros (n & Hn & Hx).
  apply existsb_exists. exists n. split; [exact Hn |].
  apply selector_of_wdio. intros E. now rewrite E in Hx.
Qed.

End Analysis.

(** X18.  Whenever the analysis lists a selector of a file, the framework
    check sees WDIO in that file: the verdict on it, which is what
    [detectFramework] returns when it returns, is WDIO or mixed, never
    Playwright nor unknown, so the migration does not skip it. *)
Theorem X18_listed_selector_means_wdio :
  forall (ast : File) (kind selector : string),
    In (kind, selector) (extracted_selectors ast) ->
    (isPlaywright (verdict ast) = false
     /\ isUnknown (verdict ast) = false
     /\ (isWdio (verdict ast) = true \/ isMixed (verdict ast) = true))
    /\ forall crawl framework,
         detectFramework crawl ast = Returns framework ->
         isPlaywright framework = false
         /\ isUnknown framework = false
         /\ (isWdio framework = true \/ isMixed framework = true).
Proof.
  intros ast kind selector H.
  apply In_flat_map_selector_of in H.
  assert (Hv : isPlaywright (verdict ast) = false
               /\ isUnknown (verdict ast) = false
               /\ (isWdio (verdict ast) = true
                   \/ isMixed (verdict ast) = true)).
  { unfold verdict.
    cbn [isPlaywright isUnknown isWdio isMixed]. rewrite H.
    destruct (existsb playwright_marker (file_nodes ast)); cbn; tauto. }
  split; [exact Hv |].
  intros crawl framework Hd.
  apply detectFramework_returns in Hd as [_ ->]. exact Hv.
Qed.

Lemma X18_listed_selector_witness :
  (isPlaywright (verdict login_click) = false
   /\ isUnknown (verdict login_click) = false
   /\ (isWdio (verdict login_click) = true
       \/ isMixed (verdict login_click) = true))
  /\ forall crawl framework,
       detectFramework crawl login_click = Returns framework ->
       isPlaywright framework = false
       /\ isUnknown framework = false
       /\ (isWdio framework = true \/ isMixed framework = true).
Proof.
  apply (X18_listed_selector_means_wdio login_click "single" "#login").
  cbn. tauto.
Defined.

(** ** The tags a migration reports *)

Section ReportedTags.
Variable table : gmap string Mappings.CommandMapping.

Lemma log_tags_ok (change : string) (st : state) :
  tags_ok st -> tags_ok (log change st).
Proof. exact (fun H => H). Qed.

Lemma log_times_tags_ok (k : nat) (change : string) (st : state) :
  tags_ok st -> tags_ok (log_times k change st).
Proof.
  revert st. induction k as [| k IH]; intros st H; [exact H |].
  cbn [log_times]. apply IH. exact H.
Qed.

Lemma visitCallExpression_tags_ok (callee : node) (arguments : list node)
      (st : state) (v : visited) (st' : state) :
  visitCallExpression table callee arguments st = Returns (v, st') ->
  tags_ok st -> tags_ok st'.
Proof.
  unfold visitCallExpression. intros H Hok.
  assert (H1 : tags_ok (describe_rule callee (Call callee arguments) st).2).
  { unfold describe_rule. destruct (isIdentifierNamed _ _); exact Hok. }
  destruct (describe_rule callee (Call callee arguments) st) as [v1 s1].
  cbn [snd] in H1.
  assert (H2 : tags_ok (it_rule callee v1 s1).2).
  { unfold it_rule. destruct (isIdentifierNamed _ _); [| exact H1].
    match goal with
    | |- context [let '(w, s) := ?X in _] =>
        assert (Hx : tags_ok X.2); [| destruct X as [? ?]; exact Hx]
    end.
    destruct (arguments_of v1) as [| [] rest]; try exact H1.
    destruct (0 <? length (extractTagsFromString value))%nat;
      [| exact H1].
    cbn [snd]. unfold tags_ok, log. cbn [migratedTags].
    apply Forall_app. split; [exact H1 |].
    apply List.Forall_forall. intros tok. apply extracted_tag_token. }
  destruct (it_rule callee v1 s1) as [v2 s2]. cbn [snd] in H2.
  apply bind_returns in H as ([v3 s3] & H3 & H). cbv beta iota in H.
  assert (Hs3 : tags_ok s3).
  { unfold hook_rule in H3.
    destruct callee; try (injection H3 as _ <-; exact H2).
    destruct (own_hook name).
    - injection H3 as _ <-. exact H2.
    - destruct (Mappings.inherited name); [discriminate |].
      injection H3 as _ <-. exact H2. }
  apply bind_returns in H as ([v4 s4] & H4 & H). cbv beta iota in H.
  assert (Hs4 : tags_ok s4).
  { unfold selector_rule in H4.
    destruct callee; try (injection H4 as _ <-; exact Hs3).
    destruct (_ || _); [| injection H4 as _ <-; exact Hs3].
    destruct (arguments_of v3) as [| [] rest];
      try (injection H4 as _ <-; exact Hs3).
    apply bind_returns in H4 as (newAst & _ & H4).
    injection H4 as _ <-. exact Hs3. }
  unfold command_rule in H.
  destruct callee; try (injection H as _ <-; exact Hs4).
  match type of H with
  | context [let '(p1, s) := ?X in _] =>
      assert (Hx : tags_ok X.2);
      [| destruct X as [property1 ?]; cbn [snd] in Hx]
  end.
  { destruct (name_of callee2) as [name |]; [| exact Hs4].
    destruct (String.eqb name EmptyString); [exact Hs4 |].
    destruct (Mappings.get table name); exact Hs4. }
  destruct (isIdentifierNamed "browser" callee1).
  - destruct (Mappings.get table _); try discriminate.
    + destruct (object_and_method _).
      destruct (isIdentifier property1); [| discriminate].
      injection H as _ <-. exact Hx.
    + injection H as _ <-. exact Hx.
  - injection H as _ <-. exact Hx.
Qed.

Section EnteredTags.
Variable enter : node -> state -> outcome (node * state).
Hypothesis enter_tags_ok :
  forall x st x' st',
    enter x st = Returns (x', st') -> tags_ok st -> tags_ok st'.

Lemma traverse_each_tags_ok (l : list node) :
  forall (st : state) (l' : list node) (st' : state),
    traverse_each enter l st = Returns (l', st') ->
    tags_ok st -> tags_ok st'.
Proof.
  induction l as [| x l IH]; intros st l' st' H; cbn [traverse_each] in H.
  - now injection H as _ <-.
  - unbind H. injection H as _ <-. eauto.
Qed.

Lemma traverse_statements_tags_ok (l : list node) :
  forall (st : state) (l' : list node) (st' : state),
    traverse_statements enter l st = Returns (l', st') ->
    tags_ok st -> tags_ok st'.
Proof.
  induction l as [| x l IH]; intros st l' st' H;
    cbn [traverse_statements] in H.
  - now injection H as _ <-.
  - apply bind_returns in H as ([xs st1] & Hx & H). cbv beta iota in H.
    unbind H. injection H as _ <-. intros Hok.
    match goal with
    | Ht : traverse_statements _ _ _ = Returns _ |- _ =>
        apply (IH _ _ _ Ht)
    end.
    destruct x; try (unbind Hx; injection Hx as _ <-; eauto).
    unfold visitVariableDeclaration in Hx. cbv zeta in Hx.
    set (stays := forEach_splice false declarations) in Hx.
    destruct (removed stays) as [| k] eqn:Er; cbv beta iota in Hx;
      rewrite ?Er in Hx.
    + destruct (staying stays declarations); unbind Hx;
        injection Hx as _ <-; eapply traverse_each_tags_ok; eauto.
    + assert (Hlog : tags_ok
                     (log_times (S k)
                        "Replaced chai require with @playwright/test import"
                        {| changes := changes st;
                           migratedTags := migratedTags st;
                           hasPlaywrightImport := true |}))
        by (apply log_times_tags_ok; exact Hok).
      destruct (staying stays declarations).
      * injection Hx as _ <-. exact Hlog.
      * unbind Hx. injection Hx as _ <-.
        eapply traverse_each_tags_ok; eauto.
Qed.

End EnteredTags.

Lemma traverse_tags_ok (fuel : nat) :
  forall (n : node) (st : state) (n' : node) (st' : state),
    traverse table fuel n st = Returns (n', st') ->
    tags_ok st -> tags_ok st'.
Proof.
  induction fuel as [| fuel IH]; intros n st n' st' H; [discriminate |].
  pose proof (traverse_each_tags_ok (traverse table fuel) IH) as Heach.
  pose proof (traverse_statements_tags_ok (traverse table fuel) IH)
    as Hlist.
  destruct n; cbn [traverse] in H.
  4: { (* CallExpression *)
    apply bind_returns in H as ([v st1] & Hv & H). cbv beta iota in H.
    pose proof (visitCallExpression_tags_ok _ _ _ _ _ Hv) as Hvisit.
    destruct v as [c1 a1 | r].
    - unbind H. injection H as _ <-. eauto.
    - unfold requeued in H.
      destruct r; try (injection H as _ <-; exact Hvisit).
      apply bind_returns in H as ([v2 st2] & Hv2 & H). cbv beta iota in H.
      pose proof (visitCallExpression_tags_ok _ _ _ _ _ Hv2) as Hagain.
      destruct v2; [| discriminate]. injection H as _ <-. eauto. }
  17: { (* ImportDeclaration *)
    unfold visitImportDeclaration in H.
    destruct (String.eqb source "chai" || includes source "chai");
      unbind H; injection H as _ <-; intros Hok; eapply Heach; eauto. }
  15: { (* VariableDeclaration *)
    destruct (removed _); [| discriminate].
    unbind H. injection H as _ <-. eauto. }
  all: unbind H; injection H as _ <-; eauto 6.
Qed.

Lemma transformAst_tags_ok (ast ast' : File) (isTypeScript : bool)
      (st : state) :
  transformAst table ast isTypeScript = Returns (ast', st) -> tags_ok st.
Proof.
  unfold transformAst, traverse_file. intros H.
  apply bind_returns in H as ([ast1 st1] & H1 & H). cbv beta iota in H.
  apply bind_returns in H1 as ([body st0] & Hb & H1).
  cbv beta iota in H1. injection H1 as _ <-.
  pose proof (traverse_statements_tags_ok (traverse table _)
                (traverse_tags_ok _) _ _ _ _ Hb (List.Forall_nil _)) as Hok.
  destruct (negb (hasPlaywrightImport st0)), isTypeScript;
    injection H as _ <-; exact Hok.
Qed.

End ReportedTags.

(** X19.  Every tag a migration reports is a non-empty token of lowercase
    letters, digits, underscores and dashes, whatever the file holds. *)
Theorem X19_reported_tags_are_tokens :
  forall (parseCode : string -> option File) (crawl : File -> bool)
         (generate : File -> string) (Analysis : Type)
         (table : gmap string Mappings.CommandMapping)
         (testContent : string) (analysis : option Analysis)
         (isTypeScript : bool) (r : MigrationResult),
    performAstMigration parseCode crawl generate Analysis table testContent
                        analysis isTypeScript = Returns r ->
    Forall tag_token (tags r).
Proof.
  intros parseCode crawl generate Analysis table testContent analysis
    isTypeScript r.
  unfold performAstMigration.
  destruct (parseCode testContent) as [ast |]; [| discriminate].
  unfold detectFramework. destruct (crawl ast); cbn [bind];
    [| discriminate].
  destruct (isPlaywright (verdict ast)).
  { intros [= <-]. constructor. }
  intros H. apply bind_returns in H as ([ast' st] & Ht & H).
  cbv beta iota in H. apply transformAst_tags_ok in Ht.
  destruct isTypeScript; injection H as <-; exact Ht.
Qed.

Lemma X19_reported_tags_witness :
  Forall tag_token
    (tags
       {| result_code := EmptyString;
          notes :=
            generateMigrationNotes
              ["Migrated tags [smoke, p1] to Playwright tag annotation";
               "Transformed it to test with page fixture";
               "Added @playwright/test import"] false;
          result_changes :=
            ["Migrated tags [smoke, p1] to Playwright tag annotation";
             "Transformed it to test with page fixture";
             "Added @playwright/test import"];
          tags := ["smoke"; "p1"] |}).
Proof.
  apply (X19_reported_tags_are_tokens
           (fun _ => Some {| program_body :=
                               [ExpressionStatement (tagged_case false)] |})
           sample_crawl (fun _ => EmptyString) unit
           Mappings.COMMAND_MAPPINGS
           EmptyString None false).
  reflexivity.
Defined.

(** ** What the call visitor leaves of the arguments *)

(** X20.  Whatever the table holds, the rewriting of a method call changes
    the callee only: the arguments of the call are handed on as they were,
    so no mapping adds, drops or replaces an argument. *)
Theorem X20_method_call_keeps_arguments :
  forall (table : gmap string Mappings.CommandMapping)
         (object property : node) (computed : bool)
         (arguments : list node) (st : state) (v : visited) (st' : state),
    visitCallExpression table (MemberExpression object property computed)
                        arguments st = Returns (v, st') ->
    exists object' property',
      v = Call (MemberExpression object' property' computed) arguments
      /\ migratedTags st' = migratedTags st.
Proof.
  intros table object property computed arguments st v st'.
  unfold visitCallExpression, describe_rule, it_rule, hook_rule,
    selector_rule.
  cbn [isIdentifierNamed bind]. intros H.
  assert (Htags : migratedTags st' = migratedTags st).
  { unfold command_rule in H.
    match type of H with
    | context [let '(p1, s) := ?X in _] =>
        assert (Hx : migratedTags X.2 = migratedTags st);
        [| destruct X as [property1 ?]; cbn [snd] in Hx]
    end.
    { destruct (name_of property) as [name |]; [| reflexivity].
      destruct (String.eqb name EmptyString); [reflexivity |].
      destruct (Mappings.get table name); reflexivity. }
    destruct (isIdentifierNamed "browser" object).
    - destruct (Mappings.get table _); try discriminate.
      + destruct (object_and_method _).
        destruct (isIdentifier property1); [| discriminate].
        injection H as _ <-. exact Hx.
      + injection H as _ <-. exact Hx.
    - injection H as _ <-. exact Hx. }
  apply command_rule_member in H as (_ & o & p & -> & _). eauto.
Qed.

Lemma X20_method_call_witness :
  exists object' property',
    Call (MemberExpression (Identifier "banner")
                           (Identifier "waitFor") false)
         [StringLiteral "kept"]
    = Call (MemberExpression object' property' false)
           [StringLiteral "kept"]
    /\ migratedTags
         (log "Transformed .waitForDisplayed() to .waitFor()"
              {| changes := []; migratedTags := [];
                 hasPlaywrightImport := false |})
       = migratedTags
           {| changes := []; migratedTags := [];
              hasPlaywrightImport := false |}.
Proof.
  apply (X20_method_call_keeps_arguments Mappings.COMMAND_MAPPINGS
           (Identifier "banner") (Identifier "waitForDisplayed") false
           [StringLiteral "kept"]
           {| changes := []; migratedTags := [];
              hasPlaywrightImport := false |}).
  reflexivity.
Defined.

(** ** The type annotation of the page fixture *)

Section Annotation.

Lemma agree_strip_prefix (w : chars) :
  forallb (fun c => negb (Ascii.eqb c "(")) w = true ->
  forall u u',
    agree u u' ->
    match strip_prefix w u, strip_prefix w u' with
    | Some a, Some b => agree a b
    | None, None => True
    | _, _ => False
    end.
Proof.
  intros Hw. induction w as [| a w IH]; intros u u' H; [exact H |].
  cbn [forallb] in Hw. apply andb_prop in Hw as [Ha Hw].
  apply negb_true_iff in Ha.
  destruct u as [| c t], u' as [| c' t']; try (now elim H).
  destruct H as [<- H]. cbn [strip_prefix].
  destruct (Ascii.eqb_spec a c) as [<- | _]; [| exact I].
  destruct H as [-> | H]; [discriminate Ha |].
  now apply IH.
Qed.

Lemma agree_trim_start (u : chars) :
  forall u', agree u u' -> agree (trim_start u) (trim_start u').
Proof.
  unfold trim_start.
  induction u as [| c t IH]; intros [| c' t'] H; try (now elim H).
  destruct H as [<- H]. cbn [span].
  destruct (is_space c) eqn:Ec; [| cbn [snd]; cbn [agree]; auto].
  destruct H as [-> | H]; [discriminate Ec |].
  specialize (IH t' H).
  destruct (span is_space t), (span is_space t'). exact IH.
Qed.

Lemma page_parameter_agree (c : ascii) (u u' : chars) :
  agree u u' ->
  page_parameter (c :: u) = None -> page_parameter (c :: u') = None.
Proof.
  intros H. unfold page_parameter.
  change (strip_prefix (chars_of "({") (c :: u))
    with (if Ascii.eqb "(" c then strip_prefix ["{"%char] u else None).
  change (strip_prefix (chars_of "({") (c :: u'))
    with (if Ascii.eqb "(" c then strip_prefix ["{"%char] u' else None).
  destruct (Ascii.eqb "(" c); [| reflexivity].
  pose proof (agree_strip_prefix ["{"%char] eq_refl u u' H) as H1.
  destruct (strip_prefix ["{"%char] u) as [a1 |],
           (strip_prefix ["{"%char] u') as [b1 |];
    try (now elim H1).
  apply agree_trim_start in H1.
  pose proof (agree_strip_prefix (chars_of "page") eq_refl _ _ H1) as H2.
  destruct (strip_prefix (chars_of "page") (trim_start a1)) as [a2 |],
           (strip_prefix (chars_of "page") (trim_start b1)) as [b2 |];
    try (now elim H2).
  apply agree_trim_start in H2.
  pose proof (agree_strip_prefix (chars_of "})") eq_refl _ _ H2) as H3.
  destruct (strip_prefix (chars_of "})") (trim_start a2)) as [a3 |],
           (strip_prefix (chars_of "})") (trim_start b2)) as [b3 |];
    try (now elim H3).
  discriminate.
Qed.

Lemma page_parameter_starts (c : ascii) (t : chars) (x : chars * nat) :
  page_parameter (c :: t) = Some x -> c = "("%char.
Proof.
  unfold page_parameter.
  change (strip_prefix (chars_of "({") (c :: t))
    with (if Ascii.eqb "(" c then strip_prefix ["{"%char] t else None).
  destruct (Ascii.eqb_spec "(" c) as [<- | _]; [reflexivity | discriminate].
Qed.

Lemma agree_replace_all (f : chars -> chars) (t : chars) :
  (forall cap, exists r, f cap = "("%char :: r) ->
  agree t (replace_all page_parameter f t).
Proof.
  intros Hf. induction t as [| d t IH]; [exact I |].
  rewrite replace_all_cons.
  destruct (page_parameter (d :: t)) as [[cap len] |] eqn:E.
  - apply page_parameter_starts in E as ->.
    destruct (Hf cap) as [r ->]. cbn. auto.
  - cbn [agree]. auto.
Qed.

Lemma annotated_has_no_match (s : chars) :
  forall k,
    page_parameter
      (skipn k (replace_all page_parameter
                  (fun _ => chars_of "({ page }: { page: Page })") s))
    = None.
Proof.
  induction s as [| c t IH] using suffix_ind; intros k.
  - now destruct k.
  - rewrite replace_all_cons.
    destruct (page_parameter (c :: t)) as [[cap len] |] eqn:E.
    + set (rest := replace_all _ _ (skipn (pred len) t)).
      assert (Hrest : forall j, page_parameter (skipn j rest) = None)
        by apply IH.
      clearbody rest.
      do 26 (destruct k as [| k]; [reflexivity |]).
      apply Hrest.
    + destruct k as [| k]; [| apply (IH 0)].
      cbn [skipn]. apply (page_parameter_agree c t); [| exact E].
      apply agree_replace_all. intros _. eexists. reflexivity.
Qed.

Lemma exec_none (p : pattern) (s : chars) :
  (forall k, p (skipn k s) = None) -> exec p s = None.
Proof.
  induction s as [| c t IH]; intros H;
    pose proof (H 0) as H0; cbn [skipn] in H0; cbn [exec]; rewrite H0;
    [reflexivity |].
  apply IH. intros k. apply (H (S k)).
Qed.

Lemma replace_all_none (p : pattern) (f : chars -> chars) (s : chars) :
  (forall k, p (skipn k s) = None) -> replace_all p f s = s.
Proof.
  induction s as [| c t IH]; intros H; [reflexivity |].
  rewrite replace_all_cons.
  pose proof (H 0) as H0. cbn [skipn] in H0. rewrite H0.
  f_equal. apply IH. intros k. apply (H (S k)).
Qed.

End Annotation.

(** X21.  After the TypeScript annotation no untyped page fixture
    parameter is left in the text: the pattern of the replacement matches
    nowhere in the result, so annotating a second time changes nothing. *)
Theorem X21_annotation_leaves_no_untyped_parameter :
  forall code : string,
    exec page_parameter (chars_of (annotate_page_parameters code)) = None
    /\ annotate_page_parameters (annotate_page_parameters code)
       = annotate_page_parameters code.
Proof.
  intros code. unfold annotate_page_parameters.
  rewrite !chars_of_str_of. split.
  - apply exec_none, annotated_has_no_match.
  - f_equal. apply replace_all_none, annotated_has_no_match.
Qed.

(** ** What stripping and extraction do guarantee *)

(** X22.  For every text, the stripped text holds no at-prefixed and no
    hash-prefixed tag; it holds no opening bracket, hence no bracketed
    tag, when every opening bracket of the text begins a bracketed tag.  A
    token of capitals, digits and underscores that stands in text without
    tag markers, not followed by a word character, is extracted as the
    same single lowercase token from the bracketed syntax and, in any
    letter case, from the at-prefixed and the hash-prefixed syntax. *)
Theorem X22_strip_and_extract_guarantees :
  (forall T : string,
      has_prefixed_tag "@" (chars_of (removeTagsFromString T)) = false
      /\ has_prefixed_tag "#" (chars_of (removeTagsFromString T)) = false)
  /\ (forall T : string,
         every_bracket_opens_tag (chars_of T) = true ->
         has_char "[" (chars_of (removeTagsFromString T)) = false)
  /\ (forall pre w v post : chars,
         is_token w = true ->
         forallb is_word v = true ->
         map toLowerChar v = map toLowerChar w ->
         plain pre = true -> plain post = true -> word_ends post = true ->
         extractTagsFromString
           (str_of (pre ++ "["%char :: w ++ "]"%char :: post))
         = [toLowerCase (str_of w)]
         /\ extractTagsFromString (str_of (pre ++ "@"%char :: v ++ post))
            = [toLowerCase (str_of w)]
         /\ extractTagsFromString (str_of (pre ++ "#"%char :: v ++ post))
            = [toLowerCase (str_of w)]).
Proof.
  split; [exact strip_leaves_no_prefixed_tag |].
  split; [exact strip_leaves_no_bracket |].
  intros pre w v post Hw Hv Hvw Hpre Hpost Hend.
  assert (Hne : v <> []).
  { destruct w; [discriminate |]. destruct v; discriminate. }
  rewrite <- (toLowerCase_variant v w Hvw).
  split; [| split].
  - rewrite (toLowerCase_variant v w Hvw). now apply extract_bracketed_tag.
  - apply extract_prefixed_tag; auto.
  - apply extract_prefixed_tag; auto.
Qed.

Lemma X22_strip_and_extract_witness :
  has_char "[" (chars_of (removeTagsFromString "login [SMOKE] now")) = false
  /\ extractTagsFromString
       (str_of (chars_of "login " ++ "["%char :: chars_of "SMOKE"
                ++ "]"%char :: chars_of " now"))
     = [toLowerCase (str_of (chars_of "SMOKE"))]
  /\ extractTagsFromString
       (str_of (chars_of "login " ++ "@"%char :: chars_of "Smoke"
                ++ chars_of " now"))
     = [toLowerCase (str_of (chars_of "SMOKE"))]
  /\ extractTagsFromString
       (str_of (chars_of "login " ++ "#"%char :: chars_of "Smoke"
                ++ chars_of " now"))
     = [toLowerCase (str_of (chars_of "SMOKE"))].
Proof.
  split.
  - apply (proj1 (proj2 X22_strip_and_extract_guarantees) "login [SMOKE] now").
    reflexivity.
  - apply (proj2 (proj2 X22_strip_and_extract_guarantees)
                 (chars_of "login ") (chars_of "SMOKE") (chars_of "Smoke")
                 (chars_of " now")); reflexivity.
Defined.

